(** * Any-code: message grouping, Gemini conversion, billing ledger and
      session loading, embedded in Rocq.

    The TypeScript sources read their records through [as any] casts,
    [typeof] tests and truthiness, so records are embedded as untyped
    JavaScript values ([value]); every function below is a transcription
    of the source function of the same name. *)

From Stdlib Require Import ZArith Ascii String List Sorting.Sorted Sorting.Permutation.
From stdpp Require Import gmap strings pretty list fin_maps.

Import ListNotations.
#[local] Set Warnings "-register-all".
Local Open Scope string_scope.
Local Open Scope list_scope.
Local Open Scope Z_scope.

(* ===================================================================== *)
(** * Part I: the embedding                                               *)
(* ===================================================================== *)

(** ** JavaScript values *)

Module Js.

(** A JavaScript number.  Token counts, indices and epoch milliseconds are
    integers; the three non-finite numbers are kept apart because the
    sources test [Number.isFinite] and [Number.isNaN]. *)
Inductive number : Type :=
| Fin (z : Z)
| NaN
| PosInf
| NegInf.

Inductive value : Type :=
| Undefined
| Null
| Bool (b : bool)
| Num (n : number)
| Str (s : string)
| Arr (items : list value)
| Obj (fields : list (string * value)).

(** [o.k] and [o?.k]: own property lookup; a missing property, and any
    property of a value that is not an object, reads as [undefined]. *)
Fixpoint lookup_field (k : string) (fs : list (string * value)) : value :=
  match fs with
  | [] => Undefined
  | (k', v) :: fs' => if String.eqb k k' then v else lookup_field k fs'
  end.

Definition get (v : value) (k : string) : value :=
  match v with
  | Obj fs => lookup_field k fs
  | _ => Undefined
  end.

(** [{ ...o, k: v }]: the spread copy with [k] overwritten (at its place
    when [o] has it, appended otherwise); the spread of a value that is
    not an object contributes no property. *)
Fixpoint set_field (k : string) (v : value) (fs : list (string * value))
  : list (string * value) :=
  match fs with
  | [] => [(k, v)]
  | (k', v') :: fs' =>
      if String.eqb k k' then (k, v) :: fs' else (k', v') :: set_field k v fs'
  end.

Definition set (o : value) (k : string) (v : value) : value :=
  match o with
  | Obj fs => Obj (set_field k v fs)
  | _ => Obj [(k, v)]
  end.

(** ToBoolean. *)
Definition truthy (v : value) : bool :=
  match v with
  | Undefined | Null => false
  | Bool b => b
  | Num (Fin z) => negb (z =? 0)%Z
  | Num NaN => false
  | Num _ => true
  | Str s => negb (String.eqb s "")
  | Arr _ | Obj _ => true
  end.

(** [a || b] and [a ?? b]. *)
Definition or_else (a b : value) : value := if truthy a then a else b.

Definition nullish (v : value) : bool :=
  match v with
  | Undefined | Null => true
  | _ => false
  end.

Definition coalesce (a b : value) : value := if nullish a then b else a.

(** [v === 'lit']. *)
Definition is_str (v : value) (lit : string) : bool :=
  match v with
  | Str s => String.eqb s lit
  | _ => false
  end.

(** [v !== undefined]. *)
Definition defined (v : value) : bool :=
  match v with
  | Undefined => false
  | _ => true
  end.

(** White space and line terminators removed by [String.prototype.trim],
    in the ASCII range. *)
Definition is_space (c : ascii) : bool :=
  let n := nat_of_ascii c in
  ((9 <=? n) && (n <=? 13))%nat || (n =? 32)%nat.

(** [s.trim() !== ''], which is also [s.trim().length > 0]. *)
Fixpoint nonblank (s : string) : bool :=
  match s with
  | EmptyString => false
  | String c s' => negb (is_space c) || nonblank s'
  end.

(** [String.prototype.toLowerCase] on ASCII letters. *)
Definition lower_ascii (c : ascii) : ascii :=
  let n := nat_of_ascii c in
  if ((65 <=? n) && (n <=? 90))%nat then ascii_of_nat (n + 32) else c.

Fixpoint toLowerCase (s : string) : string :=
  match s with
  | EmptyString => EmptyString
  | String c s' => String (lower_ascii c) (toLowerCase s')
  end.

(** [s.includes(t)]. *)
Fixpoint includes (s t : string) : bool :=
  String.prefix t s ||
  match s with
  | EmptyString => false
  | String _ s' => includes s' t
  end.

End Js.

Import Js.

(** [array.forEach((x, index) => ...)] threading the variables the
    callback assigns as an explicit state. *)
Fixpoint forEachFrom {A St : Type} (f : St -> A -> nat -> St)
  (l : list A) (i : nat) (st : St) : St :=
  match l with
  | [] => st
  | x :: l' => forEachFrom f l' (S i) (f st x i)
  end.

Definition forEach {A St : Type} (f : St -> A -> nat -> St)
  (l : list A) (st : St) : St :=
  forEachFrom f l 0%nat st.

(** ** Sub-agent message grouping (subagentGrouping.ts) *)

Module Grouping.

(** A message is a [ClaudeStreamMessage] record, read dynamically. *)
Definition ClaudeStreamMessage := value.

Record SubagentGroup : Type := mkSubagentGroup {
  sg_id : string;
  taskMessage : ClaudeStreamMessage;
  taskToolUseId : string;
  subagentMessages : list ClaudeStreamMessage;
  startIndex : nat;
  endIndex : nat;
  subagentType : value
}.

Inductive MessageGroup : Type :=
| GNormal (message : ClaudeStreamMessage) (index : nat)
| GSubagent (group : SubagentGroup)
| GAggregated (messages : list ClaudeStreamMessage) (index : nat).

(** [item.type === 'tool_use' && item.name?.toLowerCase() === 'task'].
    Tool names are strings in the content-block type. *)
Definition isTaskItem (item : value) : bool :=
  is_str (get item "type") "tool_use" &&
  match get item "name" with
  | Str n => String.eqb (toLowerCase n) "task"
  | _ => false
  end.

Definition hasTaskToolCall (message : ClaudeStreamMessage) : bool :=
  if negb (is_str (get message "type") "assistant") then false
  else match get (get message "message") "content" with
       | Arr content => existsb isTaskItem content
       | _ => false
       end.

(** The content array of a message, [[]] when it is not an array. *)
Definition contentItems (message : ClaudeStreamMessage) : list value :=
  match get (get message "message") "content" with
  | Arr content => content
  | _ => []
  end.

(** [.map(item => item.id).filter(Boolean)]; ids are strings in the
    content-block type, and an id that is not a string is never equal to
    a [parent_tool_use_id] key below. *)
Definition truthyId (item : value) : option string :=
  match get item "id" with
  | Str s => if String.eqb s "" then None else Some s
  | _ => None
  end.

Definition extractTaskToolUseIds (message : ClaudeStreamMessage) : list string :=
  if negb (hasTaskToolCall message) then []
  else omap truthyId (List.filter isTaskItem (contentItems message)).

Definition extractTaskToolDetails (message : ClaudeStreamMessage)
  : gmap string value :=
  if negb (hasTaskToolCall message) then ∅
  else
    fold_left
      (fun details item =>
         match truthyId item with
         | Some id => <[id := get (get item "input") "subagent_type"]> details
         | None => details
         end)
      (List.filter isTaskItem (contentItems message)) ∅.

Definition isSubagentMessage (message : ClaudeStreamMessage) : bool :=
  let hasParent := truthy (get message "parent_tool_use_id") in
  let isSidechain := truthy (get message "isSidechain") in
  hasParent || isSidechain.

Definition getParentToolUseId (message : ClaudeStreamMessage) : value :=
  or_else (get message "parent_tool_use_id") Null.

Inductive AggType : Type := AggTool | AggThinking.

Definition AggType_eqb (a b : AggType) : bool :=
  match a, b with
  | AggTool, AggTool | AggThinking, AggThinking => true
  | _, _ => false
  end.

(** The three flags the [content.forEach] of [getTechnicalMessageType]
    accumulates: (hasThinking, hasTool, hasText). *)
Definition scanItem (flags : bool * bool * bool) (item : value)
  : bool * bool * bool :=
  let '(hasThinking, hasTool, hasText) := flags in
  if is_str (get item "type") "thinking" then (true, hasTool, hasText)
  else if is_str (get item "type") "tool_use"
          || is_str (get item "type") "tool_result"
       then (hasThinking, true, hasText)
  else if is_str (get item "type") "text" then
    match get item "text" with
    | Str t => if nonblank t then (hasThinking, hasTool, true) else flags
    | _ => flags
    end
  else flags.

Definition getTechnicalMessageType (message : ClaudeStreamMessage)
  : option AggType :=
  if is_str (get message "type") "thinking" then Some AggThinking
  else if negb (is_str (get message "type") "assistant") then None
  else match get (get message "message") "content" with
       | Arr content =>
           let '(hasThinking, hasTool, hasText) :=
             fold_left scanItem content (false, false, false) in
           if hasText then None
           else if hasThinking && hasTool then None
           else if hasThinking then Some AggThinking
           else if hasTool then Some AggTool
           else None
       | _ => None
       end.

(** First pass of [groupMessages]: the three maps filled while scanning
    for Task calls. *)
Record TaskScan : Type := mkTaskScan {
  taskToolUseMap : gmap string (ClaudeStreamMessage * nat);
  indexToTaskIds : gmap nat (list string);
  taskSubagentTypes : gmap string value
}.

Definition recordTask (message : ClaudeStreamMessage) (index : nat)
  (details : gmap string value) (st : TaskScan) (taskId : string) : TaskScan :=
  {| taskToolUseMap := <[taskId := (message, index)]> (taskToolUseMap st);
     indexToTaskIds := indexToTaskIds st;
     taskSubagentTypes :=
       match details !! taskId with
       | Some ty => if truthy ty then <[taskId := ty]> (taskSubagentTypes st)
                    else taskSubagentTypes st
       | None => taskSubagentTypes st
       end |}.

Definition scanTasks (st : TaskScan) (message : ClaudeStreamMessage)
  (index : nat) : TaskScan :=
  let taskIds := extractTaskToolUseIds message in
  if (0 <? length taskIds)%nat then
    let st1 := {| taskToolUseMap := taskToolUseMap st;
                  indexToTaskIds := <[index := taskIds]> (indexToTaskIds st);
                  taskSubagentTypes := taskSubagentTypes st |} in
    fold_left (recordTask message index (extractTaskToolDetails message))
      taskIds st1
  else st.

(** [parentId === taskId]. *)
Definition parentIs (taskId : string) (msg : ClaudeStreamMessage) : bool :=
  is_str (getParentToolUseId msg) taskId.

(** Second pass, for one Task: the loop
    [for (let i = taskInfo.index + 1; i < messages.length; i++)]. *)
Definition collectStep (taskId : string)
  (acc : list ClaudeStreamMessage * nat) (msg : ClaudeStreamMessage) (i : nat)
  : list ClaudeStreamMessage * nat :=
  if parentIs taskId msg then (fst acc ++ [msg], Nat.max (snd acc) i) else acc.

Definition collectSubagent (messages : list ClaudeStreamMessage)
  (types : gmap string value) (taskId : string)
  (taskInfo : ClaudeStreamMessage * nat) : option SubagentGroup :=
  let '(subagentMessages, maxIndex) :=
    forEachFrom (collectStep taskId) (drop (S (snd taskInfo)) messages)
      (S (snd taskInfo)) ([], snd taskInfo) in
  if (0 <? length subagentMessages)%nat then
    Some {| sg_id := taskId;
            taskMessage := fst taskInfo;
            taskToolUseId := taskId;
            subagentMessages := subagentMessages;
            startIndex := snd taskInfo;
            endIndex := maxIndex;
            subagentType := default Undefined (types !! taskId) |}
  else None.

(** [taskToolUseMap.forEach(...)]: each Task id is handled on its own and
    [subagentGroups] is only read by key, so the order of iteration does
    not show. *)
Definition collectGroups (messages : list ClaudeStreamMessage) (sc : TaskScan)
  : gmap string SubagentGroup :=
  map_imap (collectSubagent messages (taskSubagentTypes sc)) (taskToolUseMap sc).

(** [parentId && subagentGroups.has(parentId)]. *)
Definition hasGroupFor (subagentGroups : gmap string SubagentGroup)
  (parentId : value) : bool :=
  truthy parentId &&
  match parentId with
  | Str p => bool_decide (is_Some (subagentGroups !! p))
  | _ => false
  end.

Definition markProcessed (subagentGroups : gmap string SubagentGroup)
  (processedIndices : gset nat) (message : ClaudeStreamMessage) (index : nat)
  : gset nat :=
  if hasGroupFor subagentGroups (getParentToolUseId message)
  then {[index]} ∪ processedIndices
  else processedIndices.

(** Third pass: the state is [addedTaskGroups] and [intermediateGroups]. *)
Definition emitTaskGroup (subagentGroups : gmap string SubagentGroup)
  (st : gset string * list MessageGroup) (taskId : string)
  : gset string * list MessageGroup :=
  match subagentGroups !! taskId with
  | Some g =>
      if bool_decide (taskId ∈ fst st) then st
      else ({[taskId]} ∪ fst st, snd st ++ [GSubagent g])
  | None => st
  end.

Definition buildIntermediate (subagentGroups : gmap string SubagentGroup)
  (processedIndices : gset nat) (indexToTaskIds : gmap nat (list string))
  (st : gset string * list MessageGroup)
  (message : ClaudeStreamMessage) (index : nat)
  : gset string * list MessageGroup :=
  if bool_decide (index ∈ processedIndices) then st
  else
    let taskIds := default [] (indexToTaskIds !! index) in
    if (0 <? length taskIds)%nat then
      let st1 := fold_left (emitTaskGroup subagentGroups) taskIds st in
      let hasAnySubagentGroup :=
        existsb (fun id => bool_decide (is_Some (subagentGroups !! id)))
          taskIds in
      if negb hasAnySubagentGroup
      then (fst st1, snd st1 ++ [GNormal message index])
      else st1
    else (fst st, snd st ++ [GNormal message index]).

(** Fourth pass: the state is [finalGroups] and [currentAggregation]. *)
Record Aggregation : Type := mkAggregation {
  agg_messages : list ClaudeStreamMessage;
  agg_startIndex : nat;
  aggType : AggType
}.

Definition closeAggregation (finalGroups : list MessageGroup)
  (currentAggregation : option Aggregation) : list MessageGroup :=
  match currentAggregation with
  | Some agg =>
      finalGroups ++ [GAggregated (agg_messages agg) (agg_startIndex agg)]
  | None => finalGroups
  end.

Definition aggregateStep (st : list MessageGroup * option Aggregation)
  (group : MessageGroup) : list MessageGroup * option Aggregation :=
  let '(finalGroups, currentAggregation) := st in
  match group with
  | GSubagent _ =>
      (closeAggregation finalGroups currentAggregation ++ [group], None)
  | GNormal msg index =>
      match getTechnicalMessageType msg with
      | Some msgType =>
          match currentAggregation with
          | Some agg =>
              if AggType_eqb (aggType agg) msgType then
                (finalGroups,
                 Some {| agg_messages := agg_messages agg ++ [msg];
                         agg_startIndex := agg_startIndex agg;
                         aggType := aggType agg |})
              else
                (closeAggregation finalGroups currentAggregation,
                 Some {| agg_messages := [msg];
                         agg_startIndex := index;
                         aggType := msgType |})
          | None =>
              (finalGroups,
               Some {| agg_messages := [msg];
                       agg_startIndex := index;
                       aggType := msgType |})
          end
      | None =>
          (closeAggregation finalGroups currentAggregation ++ [group], None)
      end
  | GAggregated _ _ => (finalGroups ++ [group], currentAggregation)
  end.

Definition aggregateTechnical (intermediateGroups : list MessageGroup)
  : list MessageGroup :=
  let '(finalGroups, currentAggregation) :=
    fold_left aggregateStep intermediateGroups ([], None) in
  closeAggregation finalGroups currentAggregation.

Definition emptyScan : TaskScan :=
  {| taskToolUseMap := ∅; indexToTaskIds := ∅; taskSubagentTypes := ∅ |}.

Definition subagentGroupsOf (messages : list ClaudeStreamMessage)
  : gmap string SubagentGroup :=
  collectGroups messages (forEach scanTasks messages emptyScan).

Definition processedIndicesOf (messages : list ClaudeStreamMessage)
  : gset nat :=
  forEach (markProcessed (subagentGroupsOf messages)) messages ∅.

Definition intermediateGroupsOf (messages : list ClaudeStreamMessage)
  : list MessageGroup :=
  snd (forEach
         (buildIntermediate (subagentGroupsOf messages)
            (processedIndicesOf messages)
            (indexToTaskIds (forEach scanTasks messages emptyScan)))
         messages (∅, [])).

Definition groupMessages (messages : list ClaudeStreamMessage)
  : list MessageGroup :=
  aggregateTechnical (intermediateGroupsOf messages).

(** [g.type === 'subagent' && g.group.taskToolUseId === parentId]. *)
Definition isGroupOf (parentId : value) (g : MessageGroup) : bool :=
  match g with
  | GSubagent group => is_str parentId (taskToolUseId group)
  | _ => false
  end.

Definition shouldHideMessage (message : ClaudeStreamMessage)
  (groups : list MessageGroup) : bool :=
  if isSubagentMessage message then
    let parentId := getParentToolUseId message in
    if truthy parentId then existsb (isGroupOf parentId) groups
    else false
  else false.

End Grouping.

(** ** Gemini history conversion (geminiConverter.ts) *)

Module Gemini.

Record GeminiUsage : Type := mkGeminiUsage {
  input_tokens : Z;
  output_tokens : Z;
  cached_input_tokens : option Z
}.

(** [a ?? b] on the [number | null] results of [toNumber]. *)
Definition orNull (a b : option Z) : option Z :=
  match a with
  | Some _ => a
  | None => b
  end.

Section Conversion.

(** [Number(s)] for a string [s], and [JSON.stringify]. *)
Variable Number_of_string : string -> number.
Variable JSON_stringify : value -> string.

Definition toNumber (v : value) : option Z :=
  match v with
  | Num (Fin z) => Some z
  | Str s =>
      if nonblank s then
        match Number_of_string s with
        | Fin z => Some z
        | _ => None
        end
      else None
  | _ => None
  end.

(** The component counts [extractGeminiUsage] reads, each under its
    three spellings. *)
Definition promptOf (t : value) : option Z :=
  orNull (toNumber (get t "prompt"))
    (orNull (toNumber (get t "promptTokenCount"))
       (toNumber (get t "prompt_token_count"))).

Definition candidatesOf (t : value) : option Z :=
  orNull (toNumber (get t "candidates"))
    (orNull (toNumber (get t "candidatesTokenCount"))
       (toNumber (get t "candidates_token_count"))).

Definition thoughtsOf (t : value) : Z :=
  default 0
    (orNull (toNumber (get t "thoughts"))
       (orNull (toNumber (get t "thoughtsTokenCount"))
          (toNumber (get t "thoughts_token_count")))).

Definition toolOf (t : value) : Z :=
  default 0
    (orNull (toNumber (get t "tool"))
       (orNull (toNumber (get t "toolUsePromptTokenCount"))
          (toNumber (get t "tool_use_prompt_token_count")))).

Definition cachedOf (t : value) : Z :=
  default 0
    (orNull (toNumber (get t "cached"))
       (orNull (toNumber (get t "cachedContentTokenCount"))
          (toNumber (get t "cached_content_token_count")))).

(** The constants [input_tokens] and [output_tokens] of the source: the
    direct count when there is one, the derived one otherwise. *)
Definition derivedInput (t : value) : option Z :=
  orNull (toNumber (get t "input_tokens"))
    (match promptOf t with
     | Some prompt => Some (prompt + toolOf t)
     | None => None
     end).

Definition derivedOutput (t : value) : option Z :=
  orNull (toNumber (get t "output_tokens"))
    (match candidatesOf t with
     | Some candidates => Some (candidates + thoughtsOf t)
     | None => None
     end).

(** [!tokens || typeof tokens !== 'object']. *)
Definition notAnObject (tokens : value) : bool :=
  match tokens with
  | Obj _ | Arr _ => false
  | _ => true
  end.

Definition extractGeminiUsage (tokens : value) : option GeminiUsage :=
  if notAnObject tokens then None
  else
    let input_tokens := derivedInput tokens in
    let output_tokens := derivedOutput tokens in
    let cached := cachedOf tokens in
    if (default 0 input_tokens <=? 0) && (default 0 output_tokens <=? 0)
       && (cached <=? 0)
    then None
    else
      Some {| input_tokens := Z.max (default 0 input_tokens) 0;
              output_tokens := Z.max (default 0 output_tokens) 0;
              cached_input_tokens := if 0 <? cached then Some cached else None |}.

(** The usage object as it is stored on the [result] message. *)
Definition usageValue (u : GeminiUsage) : value :=
  Obj ([("input_tokens", Num (Fin (input_tokens u)));
        ("output_tokens", Num (Fin (output_tokens u)))]
       ++ match cached_input_tokens u with
          | Some c => [("cached_input_tokens", Num (Fin c))]
          | None => []
          end).

(** [resultContent] of one tool call: the function-response output when
    the result is an array whose first element carries one. *)
Definition resultContentOf (toolCall : value) : value :=
  match get toolCall "result" with
  | Arr items =>
      let first := default Undefined (items !! 0%nat) in
      let output :=
        get (get (get first "functionResponse") "response") "output" in
      if defined output then output else get toolCall "result"
  | r => r
  end.

Definition toolResultMessage (msg toolCall : value) : value :=
  let resultContent := resultContentOf toolCall in
  Obj [("type", Str "user");
       ("message",
        Obj [("content",
              Arr [Obj [("type", Str "tool_result");
                        ("tool_use_id", get toolCall "id");
                        ("content",
                         or_else (get toolCall "resultDisplay")
                           (match resultContent with
                            | Str _ => resultContent
                            | _ => Str (JSON_stringify resultContent)
                            end));
                        ("is_error",
                         Bool (is_str (get toolCall "status") "error"))]]);
             ("role", Str "user")]);
       ("timestamp",
        or_else (get toolCall "timestamp") (get msg "timestamp"));
       ("engine", Str "gemini")].

(** Body of [for (const toolCall of msg.toolCalls)]: the state is
    [assistantContent] and [converted]. *)
Definition convertToolCall (msg : value) (st : list value * list value)
  (toolCall : value) : list value * list value :=
  let '(assistantContent, converted) := st in
  let assistantContent1 :=
    assistantContent ++
    [Obj [("type", Str "tool_use");
          ("id", get toolCall "id");
          ("name", get toolCall "name");
          ("input", get toolCall "args")]] in
  if defined (get toolCall "result")
  then (assistantContent1, converted ++ [toolResultMessage msg toolCall])
  else (assistantContent1, converted).

(** Body of [for (const msg of detail.messages)]. *)
Definition convertTurn (converted : list value) (msg : value) : list value :=
  if is_str (get msg "type") "user" then
    converted ++
    [Obj [("type", Str "user");
          ("message",
           Obj [("content",
                 Arr (if truthy (get msg "content")
                      then [Obj [("type", Str "text");
                                 ("text", get msg "content")]]
                      else []));
                ("role", Str "user")]);
          ("timestamp", get msg "timestamp");
          ("engine", Str "gemini")]]
  else
    let '(assistantContent0, converted0) :=
      match get msg "toolCalls" with
      | Arr toolCalls => fold_left (convertToolCall msg) toolCalls ([], converted)
      | _ => ([], converted)
      end in
    let assistantContent :=
      if truthy (get msg "content")
      then assistantContent0 ++
           [Obj [("type", Str "text"); ("text", get msg "content")]]
      else assistantContent0 in
    let converted1 :=
      converted0 ++
      [Obj [("type", Str "assistant");
            ("message",
             Obj [("content",
                   Arr (if (0 <? length assistantContent)%nat
                        then assistantContent
                        else [Obj [("type", Str "text"); ("text", Str "")]]));
                  ("role", Str "assistant")]);
            ("timestamp", get msg "timestamp");
            ("engine", Str "gemini");
            ("model", get msg "model")]] in
    match extractGeminiUsage (get msg "tokens") with
    | Some usage =>
        converted1 ++
        [Obj [("type", Str "result");
              ("subtype", Str "success");
              ("usage", usageValue usage);
              ("timestamp", get msg "timestamp");
              ("engine", Str "gemini");
              ("model", get msg "model")]]
    | None => converted1
    end.

Definition convertGeminiSessionDetailToClaudeMessages (detail : value)
  : list value :=
  match get detail "messages" with
  | Arr messages => fold_left convertTurn messages []
  | _ => []
  end.

End Conversion.

End Gemini.

(** ** Session cost aggregation (sessionCost.ts) *)

Module Billing.

Record StandardizedTokenUsage : Type := mkTokens {
  input_tokens : Z;
  output_tokens : Z;
  cache_creation_tokens : Z;
  cache_read_tokens : Z
}.

Definition MODEL_FALLBACK := "claude-sonnet-4.5".
Definition CODEX_MODEL_FALLBACK := "codex-mini-latest".
Definition GEMINI_MODEL_FALLBACK := "gemini-2.5-pro".

Definition getEngineType (message : value) : value :=
  let engine := get message "engine" in
  if truthy engine then engine
  else if truthy (get message "codexMetadata") then Str "codex"
  else if is_str (get (get message "geminiMetadata") "provider") "gemini"
  then Str "gemini"
  else Str "claude".

Definition calculateTotalTokens (tokens : StandardizedTokenUsage) : Z :=
  input_tokens tokens + output_tokens tokens
  + cache_creation_tokens tokens + cache_read_tokens tokens.

(** [typeof v === 'string' && v.trim() !== '']. *)
Definition nonblankString (v : value) : option string :=
  match v with
  | Str s => if nonblank s then Some s else None
  | _ => None
  end.

Definition getBillingKey (message : value) (index : nat) : string :=
  match nonblankString (get (get message "message") "id") with
  | Some nestedId => "message:" +:+ nestedId
  | None =>
  match nonblankString (get message "id") with
  | Some messageId => "message:" +:+ messageId
  | None =>
  match nonblankString (get message "uuid") with
  | Some uuid => "uuid:" +:+ uuid
  | None =>
  match nonblankString
          (coalesce (get message "timestamp") (get message "receivedAt")) with
  | Some timestamp => "time:" +:+ timestamp
  | None => "index:" +:+ pretty index
  end end end end.

Definition getModelName (message engine : value) : string :=
  match nonblankString (get message "model") with
  | Some candidate => candidate
  | None =>
  match nonblankString (get (get message "message") "model") with
  | Some candidate => candidate
  | None =>
  match nonblankString (get (get message "codexMetadata") "model") with
  | Some candidate => candidate
  | None =>
      if is_str engine "codex" then CODEX_MODEL_FALLBACK
      else if is_str engine "gemini" then GEMINI_MODEL_FALLBACK
      else MODEL_FALLBACK
  end end end.

Section Aggregation.

(** Collaborators that live outside the module: [tokenExtractor.extract],
    [calculateMessageCost] with the number type of a cost, and
    [Date.parse] ([None] for [NaN]). *)
Variable extract : value -> StandardizedTokenUsage.
Variable Cost : Type.
Variable cost_zero : Cost.
Variable cost_add : Cost -> Cost -> Cost.
Variable calculateMessageCost :
  StandardizedTokenUsage -> string -> value -> Cost.
Variable Date_parse : string -> option Z.

(** [MutableBillingEvent]. *)
Record BillingEvent : Type := mkEvent {
  key : string;
  tokens : StandardizedTokenUsage;
  model : string;
  cost : Cost;
  timestamp : option string;
  timestampMs : option Z;
  message : value;
  totalTokenCount : Z;
  order : nat
}.

(** The loop of [extractTimestamp] over its four candidates. *)
Fixpoint firstParsed (candidates : list value) : option string * option Z :=
  match candidates with
  | [] => (None, None)
  | candidate :: rest =>
      match nonblankString candidate with
      | Some c =>
          match Date_parse c with
          | Some parsed => (Some c, Some parsed)
          | None => firstParsed rest
          end
      | None => firstParsed rest
      end
  end.

Definition extractTimestamp (message : value) : option string * option Z :=
  firstParsed [get message "timestamp"; get message "receivedAt";
               get message "sentAt";
               get (get message "message") "timestamp"].

(** [eventMap]: a JavaScript [Map], which iterates in the order its keys
    were first inserted; [set] on a present key keeps the key's place. *)
Definition EventMap := list (string * BillingEvent).

Fixpoint mapGet (k : string) (m : EventMap) : option BillingEvent :=
  match m with
  | [] => None
  | (k', e) :: m' => if String.eqb k k' then Some e else mapGet k m'
  end.

Fixpoint mapSet (k : string) (e : BillingEvent) (m : EventMap) : EventMap :=
  match m with
  | [] => [(k, e)]
  | (k', e') :: m' =>
      if String.eqb k k' then (k, e) :: m' else (k', e') :: mapSet k e m'
  end.

Definition mapValues (m : EventMap) : list BillingEvent := map snd m.

(** Whether the scan considers a message at all. *)
Definition isBillable (message : value) : bool :=
  let engine := getEngineType message in
  let isClaudeBillable :=
    is_str engine "claude" && is_str (get message "type") "assistant" in
  let isCodexBillable :=
    is_str engine "codex" && is_str (get message "type") "system"
    && truthy (get message "usage") in
  let isGeminiBillable :=
    is_str engine "gemini" && is_str (get message "type") "result"
    && truthy (get message "usage") in
  if is_str engine "codex"
     && is_str (get (get message "codexMetadata") "codexItemType")
          "thread_token_usage_updated"
  then false
  else negb (negb isClaudeBillable && negb isCodexBillable
             && negb isGeminiBillable).

(** The candidate event built from a billable message. *)
Definition candidateEvent (message : value) (index : nat) : BillingEvent :=
  let engine := getEngineType message in
  let tokens := extract message in
  let model := getModelName message engine in
  {| key := getBillingKey message index;
     tokens := tokens;
     model := model;
     cost := calculateMessageCost tokens model engine;
     timestamp := fst (extractTimestamp message);
     timestampMs := snd (extractTimestamp message);
     message := message;
     totalTokenCount := calculateTotalTokens tokens;
     order := index |}.

(** [timestampMs ?? 0]. *)
Definition msOrZero (e : BillingEvent) : Z := default 0 (timestampMs e).

(** The test under which a candidate is written into the map:
    [!existing || total > existing.total ||
     (total === existing.total && (ms ?? 0) >= (existing.ms ?? 0))]. *)
Definition supersedes (candidate : BillingEvent)
  (existing : option BillingEvent) : bool :=
  match existing with
  | None => true
  | Some ex =>
      (totalTokenCount ex <? totalTokenCount candidate)
      || ((totalTokenCount candidate =? totalTokenCount ex)
          && (msOrZero ex <=? msOrZero candidate))
  end.

(** A message reaches the insert-or-supersede step when it passes the
    two early returns of the scan. *)
Definition isCandidate (message : value) : bool :=
  isBillable message && negb (calculateTotalTokens (extract message) =? 0).

(** Body of [messages.forEach((message, index) => ...)]. *)
Definition scanMessage (eventMap : EventMap) (message : value) (index : nat)
  : EventMap :=
  if negb (isBillable message) then eventMap
  else if calculateTotalTokens (extract message) =? 0 then eventMap
  else
    let candidate := candidateEvent message index in
    if supersedes candidate (mapGet (key candidate) eventMap)
    then mapSet (key candidate) candidate eventMap
    else eventMap.

(** The comparator handed to [sort]. *)
Definition compareEvents (a b : BillingEvent) : Z :=
  match timestampMs a, timestampMs b with
  | Some ta, Some tb => if negb (ta =? tb) then ta - tb else -1
  | Some _, None => -1
  | None, Some _ => 1
  | None, None => Z.of_nat (order a) - Z.of_nat (order b)
  end.

(** [Array.prototype.sort(compare)], as the insertion sort engines run on
    short arrays: each element in turn is placed in the sorted prefix in
    front of the first element it compares below ([compare(x, e) < 0]).
    Only the sign of the comparator is used. *)
Fixpoint insertBy {A : Type} (compare : A -> A -> Z) (x : A) (sorted : list A)
  : list A :=
  match sorted with
  | [] => [x]
  | e :: rest =>
      if compare x e <? 0 then x :: e :: rest
      else e :: insertBy compare x rest
  end.

Definition sortBy {A : Type} (compare : A -> A -> Z) (l : list A) : list A :=
  fold_left (fun sorted x => insertBy compare x sorted) l [].

Record SessionCostTotals : Type := mkTotals {
  totalCost : Cost;
  totalTokens : Z;
  inputTokens : Z;
  outputTokens : Z;
  cacheReadTokens : Z;
  cacheWriteTokens : Z
}.

Record SessionCostAggregation : Type := mkAggregation {
  totals : SessionCostTotals;
  events : list BillingEvent;
  assistantMessageCount : nat;
  firstEventTimestampMs : option Z;
  lastEventTimestampMs : option Z
}.

Definition addEvent (t : SessionCostTotals) (event : BillingEvent)
  : SessionCostTotals :=
  {| totalCost := cost_add (totalCost t) (cost event);
     totalTokens := totalTokens t + calculateTotalTokens (tokens event);
     inputTokens := inputTokens t + input_tokens (tokens event);
     outputTokens := outputTokens t + output_tokens (tokens event);
     cacheReadTokens := cacheReadTokens t + cache_read_tokens (tokens event);
     cacheWriteTokens :=
       cacheWriteTokens t + cache_creation_tokens (tokens event) |}.

(** [Math.min(...values)] and [Math.max(...values)] of a non-empty list. *)
Definition minOf (values : list Z) : option Z :=
  match values with
  | [] => None
  | v :: rest => Some (fold_left Z.min rest v)
  end.

Definition maxOf (values : list Z) : option Z :=
  match values with
  | [] => None
  | v :: rest => Some (fold_left Z.max rest v)
  end.

Definition scanAll (messages : list value) : EventMap :=
  forEach scanMessage messages [].

(** [survivor] holds its key against [candidate]: it has at least as many
    tokens; at equal counts its timestamp (absent read as 0) is at least
    as late; at equal counts and timestamps it was scanned no earlier. *)
Definition outranks (survivor candidate : BillingEvent) : Prop :=
  totalTokenCount candidate <= totalTokenCount survivor
  /\ (totalTokenCount candidate = totalTokenCount survivor ->
      msOrZero candidate <= msOrZero survivor
      /\ (msOrZero candidate = msOrZero survivor ->
          (order candidate <= order survivor)%nat)).

(** What the scan maintains after the messages [scanned]: keys are
    unique; every entry is the candidate of a scanned message and is
    filed under that candidate's key; every scanned candidate is
    outranked by the entry under its key. *)
Record ScanInvariant (scanned : list value) (eventMap : EventMap) : Prop := {
  inv_keys : NoDup (map fst eventMap);
  inv_sound :
    forall k s, In (k, s) eventMap ->
      exists i msg,
        scanned !! i = Some msg /\ isCandidate msg = true
        /\ s = candidateEvent msg i /\ k = getBillingKey msg i;
  inv_complete :
    forall i msg, scanned !! i = Some msg -> isCandidate msg = true ->
      exists s,
        mapGet (getBillingKey msg i) eventMap = Some s
        /\ outranks s (candidateEvent msg i)
}.

(** The order [compareEvents] sorts by: events with a timestamp first, by
    timestamp; then the others, by scan position. *)
Definition sortsBefore (a b : BillingEvent) : Prop :=
  match timestampMs a, timestampMs b with
  | Some ta, Some tb => ta <= tb
  | Some _, None => True
  | None, Some _ => False
  | None, None => (order a <= order b)%nat
  end.

Definition aggregateSessionCost (messages : list value)
  : SessionCostAggregation :=
  let eventMap := scanAll messages in
  let events := sortBy compareEvents (mapValues eventMap) in
  let timestampValues := omap timestampMs events in
  {| totals :=
       fold_left addEvent events
         {| totalCost := cost_zero; totalTokens := 0; inputTokens := 0;
            outputTokens := 0; cacheReadTokens := 0; cacheWriteTokens := 0 |};
     events := events;
     assistantMessageCount := length events;
     firstEventTimestampMs := minOf timestampValues;
     lastEventTimestampMs := maxOf timestampValues |}.

End Aggregation.

End Billing.

(** ** Session history loading (useSessionLifecycle.ts) *)

Module Lifecycle.

(** The fields of [Session] the hook reads. *)
Record Session : Type := mkSession {
  id : string;
  project_id : string;
  project_path : string;
  engine : value
}.

(** How the awaited fetch ([api.loadSessionHistory] or
    [api.getGeminiSessionDetail]) settles; a rejection carries the text
    that [err.message] or [String(err)] yields. *)
Inductive Outcome : Type :=
| Fulfilled (payload : value)
| Rejected (errorMessage : string).

(** The optional callbacks of the hook's configuration. *)
Record Config : Type := mkConfig {
  hasSetCodexRateLimits : bool;
  hasOnSessionNotFound : bool
}.

Definition validTypes : list string :=
  ["user"; "assistant"; "system"; "result"; "summary"; "thinking"; "tool_use"].

(** [validTypes.includes(type)]. *)
Definition isValidType (type : value) : bool :=
  match type with
  | Str s => existsb (String.eqb s) validTypes
  | _ => false
  end.

(** The predicate of [history.filter(...)]; the [warnedTypes] set only
    gates a debug log. *)
Definition keepEntry (entry : value) : bool :=
  let type := get entry "type" in
  if truthy type && negb (isValidType type) then false else true.

(** [{ ...entry, type: entry.type || "assistant" }]. *)
Definition withType (entry : value) : value :=
  set entry "type" (or_else (get entry "type") (Str "assistant")).

Definition loadedMessagesOf (history : list value) : list value :=
  map withType (List.filter keepEntry history).

Definition newline : string := String (ascii_of_nat 10) EmptyString.

Fixpoint join (sep : string) (parts : list string) : string :=
  match parts with
  | [] => ""
  | [p] => p
  | p :: rest => p +:+ sep +:+ join sep rest
  end.

Section Loading.

Variable Number_of_string : string -> number.
Variable JSON_stringify : value -> string.
Variable String_of : value -> string.
(** [normalizeUsageData] of lib/utils. *)
Variable normalizeUsageData : value -> value.
(** The [codexConverter] singleton of lib/codexConverter: its state, the
    state [reset()] leaves, [convertEventObject] and [getRateLimits]. *)
Variable CodexState : Type.
Variable codex_reset : CodexState.
Variable convertEventObject : CodexState -> value -> CodexState * value.
Variable getRateLimits : CodexState -> value.

(** What the hook can change: its own ref, the React state behind the
    setters it is given, the converter singleton, and the number of
    [onSessionNotFound] notifications. *)
Record HookState : Type := mkHookState {
  loadingSessionIdRef : option string;
  isMounted : bool;
  isLoading : bool;
  error : option string;
  messages : list value;
  rawJsonlOutput : list string;
  codexRateLimits : value;
  codexConverter : CodexState;
  sessionNotFoundCalls : nat
}.

(** The two nested normalisations assign into objects shared with the
    history entry; the top-level one assigns into the spread copy. *)
Definition normalizeMessageUsage (msg : value) : value :=
  if truthy (get (get msg "message") "usage")
  then set msg "message"
         (set (get msg "message") "usage"
            (normalizeUsageData (get (get msg "message") "usage")))
  else msg.

Definition normalizeTopUsage (msg : value) : value :=
  if truthy (get msg "usage")
  then set msg "usage" (normalizeUsageData (get msg "usage"))
  else msg.

Definition normalizeCodexUsage (msg : value) : value :=
  if truthy (get (get msg "codexMetadata") "usage")
  then set msg "codexMetadata"
         (set (get msg "codexMetadata") "usage"
            (normalizeUsageData (get (get msg "codexMetadata") "usage")))
  else msg.

(** [item?.text || ''] as [join] prints it. *)
Definition textOf (item : value) : string :=
  match or_else (get item "text") (Str "") with
  | Str s => s
  | v => String_of v
  end.

Definition textContentOf (msg : value) : string :=
  match get (get msg "message") "content" with
  | Str s => s
  | Arr content =>
      join newline
        (map textOf
           (List.filter (fun item => is_str (get item "type") "text") content))
  | _ => ""
  end.

Definition retypeSlashCommand (msg : value) : value :=
  if is_str (get msg "type") "user" then
    let textContent := textContentOf msg in
    let isCommandOutput := includes textContent "<local-command-stdout>" in
    let isCommandMeta :=
      includes textContent "<command-name>"
      || includes textContent "<command-message>" in
    let isCommandError := includes textContent "Unknown slash command:" in
    if isCommandOutput || isCommandMeta || isCommandError then
      set (set msg "type" (Str "system")) "subtype"
        (Str (if isCommandOutput then "command-output"
              else if isCommandError then "command-error"
              else "command-meta"))
    else msg
  else msg.

Definition processMessage (msg : value) : value :=
  retypeSlashCommand
    (normalizeCodexUsage (normalizeTopUsage (normalizeMessageUsage msg))).

Definition processedMessagesOf (history : list value) : list value :=
  map processMessage (loadedMessagesOf history).

(** A history entry as [JSON.stringify] sees it after the pass above. *)
Definition entryAfterProcessing (entry : value) : value :=
  if keepEntry entry
  then normalizeCodexUsage (normalizeMessageUsage entry)
  else entry.

(** [for (const event of history)] with the converter's state threaded. *)
Definition convertCodexEvent (st : CodexState * list value) (event : value)
  : CodexState * list value :=
  let '(cs, msg) := convertEventObject (fst st) event in
  if truthy msg then (cs, snd st ++ [msg]) else (cs, snd st).

Definition itemsOf (payload : value) : list value :=
  match payload with
  | Arr items => items
  | _ => []
  end.

(** [loadSessionHistory] up to its [await]: the request. *)
Definition loadStart (session : option Session) (st : HookState) : HookState :=
  match session with
  | None => st
  | Some s =>
      {| loadingSessionIdRef := Some (id s);
         isMounted := isMounted st;
         isLoading := true;
         error := None;
         messages := messages st;
         rawJsonlOutput := rawJsonlOutput st;
         codexRateLimits := codexRateLimits st;
         codexConverter := codexConverter st;
         sessionNotFoundCalls := sessionNotFoundCalls st |}
  end.

(** The part of the [try] block that runs between the [await] and the
    race check: the history in canonical form, and the state with what
    the Codex branch has already written. *)
Definition fetchedHistory (cfg : Config) (s : Session) (payload : value)
  (st : HookState) : list value * HookState :=
  if is_str (engine s) "gemini" then
    (Gemini.convertGeminiSessionDetailToClaudeMessages
       Number_of_string JSON_stringify payload, st)
  else if is_str (engine s) "codex" then
    let '(cs, convertedMessages) :=
      fold_left convertCodexEvent (itemsOf payload) (codex_reset, []) in
    (convertedMessages,
     {| loadingSessionIdRef := loadingSessionIdRef st;
        isMounted := isMounted st;
        isLoading := isLoading st;
        error := error st;
        messages := messages st;
        rawJsonlOutput := rawJsonlOutput st;
        codexRateLimits :=
          if hasSetCodexRateLimits cfg then getRateLimits cs
          else codexRateLimits st;
        codexConverter := cs;
        sessionNotFoundCalls := sessionNotFoundCalls st |})
  else (itemsOf payload, st).

(** [loadingSessionIdRef.current !== currentSessionId]. *)
Definition superseded (s : Session) (st : HookState) : bool :=
  match loadingSessionIdRef st with
  | Some current => negb (String.eqb current (id s))
  | None => true
  end.

Definition isSessionNotFound (errorMessage : string) : bool :=
  includes errorMessage "Session file not found"
  || includes errorMessage "not found"
  || includes errorMessage "Session ID not found".

(** [loadSessionHistory] from its [await] on: the completion of the
    request made for session [s]. *)
Definition loadSettle (cfg : Config) (s : Session) (outcome : Outcome)
  (st : HookState) : HookState :=
  match outcome with
  | Fulfilled payload =>
      let '(history, st1) := fetchedHistory cfg s payload st in
      let processedMessages := processedMessagesOf history in
      if superseded s st1 then st1
      else if negb (isMounted st1) then st1
      else
        {| loadingSessionIdRef := loadingSessionIdRef st1;
           isMounted := isMounted st1;
           isLoading := false;
           error := error st1;
           messages := processedMessages;
           rawJsonlOutput :=
             map (fun h => JSON_stringify (entryAfterProcessing h)) history;
           codexRateLimits := codexRateLimits st1;
           codexConverter := codexConverter st1;
           sessionNotFoundCalls := sessionNotFoundCalls st1 |}
  | Rejected errorMessage =>
      if superseded s st then st
      else if negb (isMounted st) then st
      else if isSessionNotFound errorMessage then
        {| loadingSessionIdRef := loadingSessionIdRef st;
           isMounted := isMounted st;
           isLoading := false;
           error := error st;
           messages := messages st;
           rawJsonlOutput := rawJsonlOutput st;
           codexRateLimits := codexRateLimits st;
           codexConverter := codexConverter st;
           sessionNotFoundCalls :=
             if hasOnSessionNotFound cfg then S (sessionNotFoundCalls st)
             else sessionNotFoundCalls st |}
      else
        {| loadingSessionIdRef := loadingSessionIdRef st;
           isMounted := isMounted st;
           isLoading := false;
           error := Some "加载会话历史记录失败";
           messages := messages st;
           rawJsonlOutput := rawJsonlOutput st;
           codexRateLimits := codexRateLimits st;
           codexConverter := codexConverter st;
           sessionNotFoundCalls := sessionNotFoundCalls st |}
  end.

End Loading.

End Lifecycle.

(** ** Concrete inputs used by the scenarios below *)

Module Scenarios.

Import Grouping.

(** Instances of the collaborators for closed evaluations: [Number] on
    strings of decimal digits, and a [JSON.stringify] that prints only the
    kind of a value.  The inputs below carry their counts as numbers and
    their tool output as text, so neither is consulted on them. *)
Fixpoint digitsValue (acc : Z) (s : string) : number :=
  match s with
  | EmptyString => Fin acc
  | String c s' =>
      let n := nat_of_ascii c in
      if ((48 <=? n) && (n <=? 57))%nat
      then digitsValue (10 * acc + Z.of_nat (n - 48)) s'
      else NaN
  end.

Definition Number_of_digits (s : string) : number := digitsValue 0 s.

Definition stringifyKind (v : value) : string :=
  match v with
  | Undefined => "undefined"
  | Null => "null"
  | Bool true => "true"
  | Bool false => "false"
  | Num _ => "0"
  | Str s => s
  | Arr _ => "[]"
  | Obj _ => "{}"
  end.

Definition num (z : Z) : value := Num (Fin z).

(** Scenario 1: one user turn and one model turn with a [readFile] call. *)
Definition readFileCall : value :=
  Obj [("id", Str "call-1");
       ("name", Str "readFile");
       ("args", Obj [("path", Str "main.ts")]);
       ("result", Str "ok");
       ("status", Str "success");
       ("resultDisplay", Str "ok")].

Definition geminiTurn : value :=
  Obj [("id", Str "m2");
       ("timestamp", Str "2025-01-01T00:00:01Z");
       ("type", Str "gemini");
       ("content", Str "Fixed it");
       ("toolCalls", Arr [readFileCall]);
       ("tokens",
        Obj [("prompt", num 100); ("candidates", num 20); ("cached", num 0)])].

Definition fixBugDetail : value :=
  Obj [("sessionId", Str "s1");
       ("messages",
        Arr [Obj [("id", Str "m1");
                  ("timestamp", Str "2025-01-01T00:00:00Z");
                  ("type", Str "user");
                  ("content", Str "fix bug")];
             geminiTurn])].

(** The same session when the call has a display summary but no
    [result]. *)
Definition fixBugDetailNoResult : value :=
  Obj [("sessionId", Str "s1");
       ("messages",
        Arr [Obj [("id", Str "m1");
                  ("timestamp", Str "2025-01-01T00:00:00Z");
                  ("type", Str "user");
                  ("content", Str "fix bug")];
             Obj [("id", Str "m2");
                  ("timestamp", Str "2025-01-01T00:00:01Z");
                  ("type", Str "gemini");
                  ("content", Str "Fixed it");
                  ("toolCalls",
                   Arr [Obj [("id", Str "call-1");
                             ("name", Str "readFile");
                             ("args", Obj [("path", Str "main.ts")]);
                             ("resultDisplay", Str "ok")]]);
                  ("tokens",
                   Obj [("prompt", num 100); ("candidates", num 20);
                        ("cached", num 0)])]])].

(** A tool call carrying a structured function response and a display
    summary. *)
Definition bothOutputsCall : value :=
  Obj [("id", Str "call-2");
       ("name", Str "readFile");
       ("args", Obj []);
       ("result",
        Arr [Obj [("functionResponse",
                   Obj [("response",
                         Obj [("output", Str "full file contents")])])]]);
       ("status", Str "success");
       ("resultDisplay", Str "Read 120 lines")].

Definition bothOutputsTurn : value :=
  Obj [("id", Str "m3");
       ("timestamp", Str "2025-01-01T00:00:02Z");
       ("type", Str "gemini");
       ("content", Str "");
       ("toolCalls", Arr [bothOutputsCall])].

(** A raw token record with a negative prompt count. *)
Definition negativePrompt : value :=
  Obj [("prompt", num (-5)); ("candidates", num 10)].

Definition plainCounts : value :=
  Obj [("prompt", num 100); ("tool", num 7);
       ("candidates", num 20); ("thoughts", num 3); ("cached", num 4)].

(** Raw token records that have component counts only and lack a base
    count: a usage record whose [candidatesTokenCount] is left out, a
    record without a prompt count, and a record with neither. *)
Definition thoughtsWithoutCandidates : value :=
  Obj [("promptTokenCount", num 100); ("thoughtsTokenCount", num 50)].

Definition toolWithoutPrompt : value :=
  Obj [("tool", num 7); ("candidates", num 20); ("thoughts", num 3)].

Definition toolAndThoughts : value :=
  Obj [("tool", num 7); ("thoughts", num 50)].

(** Scenario 2: an assistant message with two parallel Task calls. *)
Definition taskCall (id : string) : value :=
  Obj [("type", Str "tool_use"); ("id", Str id); ("name", Str "Task");
       ("input", Obj [("subagent_type", Str "general-purpose")])].

Definition spawnTwo : ClaudeStreamMessage :=
  Obj [("type", Str "assistant");
       ("message", Obj [("content", Arr [taskCall "t1"; taskCall "t2"])])].

Definition spawnOne : ClaudeStreamMessage :=
  Obj [("type", Str "assistant");
       ("message", Obj [("content", Arr [taskCall "t1"])])].

(** A message of the sub-agent spawned by [parent]. *)
Definition childOf (parent text : string) : ClaudeStreamMessage :=
  Obj [("type", Str "user");
       ("message",
        Obj [("content", Arr [Obj [("type", Str "text");
                                    ("text", Str text)]])]);
       ("parent_tool_use_id", Str parent)].

(** Three messages of [t1] and two of [t2], interleaved. *)
Definition interleaved : list ClaudeStreamMessage :=
  [childOf "t2" "b1"; childOf "t1" "a1"; childOf "t1" "a2";
   childOf "t2" "b2"; childOf "t1" "a3"].

(** A sub-agent reply with narrative text. *)
Definition subagentReply : ClaudeStreamMessage :=
  Obj [("type", Str "assistant");
       ("message",
        Obj [("content", Arr [Obj [("type", Str "text");
                                    ("text", Str "done")]])]);
       ("parent_tool_use_id", Str "t1")].

(** A spawning message that also carries narrative text. *)
Definition spawnWithText : ClaudeStreamMessage :=
  Obj [("type", Str "assistant");
       ("message",
        Obj [("content", Arr [Obj [("type", Str "text");
                                    ("text", Str "Launching a helper")];
                              taskCall "t1"])])].

(** A record of kind [thinking] that carries a text block. *)
Definition thinkingWithText : ClaudeStreamMessage :=
  Obj [("type", Str "thinking");
       ("message",
        Obj [("content", Arr [Obj [("type", Str "text");
                                    ("text", Str "Let me check")]])])].

(** A sidechain message without a parent id. *)
Definition sidechainOnly : ClaudeStreamMessage :=
  Obj [("type", Str "user");
       ("message", Obj [("content", Str "hello")]);
       ("isSidechain", Bool true)].

(** History records of a kind outside and inside the six-kind set. *)
Definition summaryRecord : value :=
  Obj [("type", Str "summary"); ("summary", Str "Fix the login bug")].

Definition queueRecord : value :=
  Obj [("type", Str "queue-operation")].

(** A history record without a kind. *)
Definition untypedRecord : value :=
  Obj [("message", Obj [("content", Str "legacy")])].

Definition userRecord : value :=
  Obj [("type", Str "user"); ("message", Obj [("content", Str "hi")])].

(** Two sessions, the first a Codex one, and an instance of the Codex
    converter: its state is the last [rate_limits] seen, and an event
    converts to its [msg] field. *)
Definition sessionA : Lifecycle.Session :=
  {| Lifecycle.id := "A"; Lifecycle.project_id := "p";
     Lifecycle.project_path := "/p"; Lifecycle.engine := Str "codex" |}.

Definition sessionB : Lifecycle.Session :=
  {| Lifecycle.id := "B"; Lifecycle.project_id := "p";
     Lifecycle.project_path := "/p"; Lifecycle.engine := Str "claude" |}.

Definition lastRateLimits (st event : value) : value * value :=
  (or_else (get event "rate_limits") st, get event "msg").

Definition historyA : value :=
  Arr [Obj [("rate_limits", Obj [("used_percent", num 42)]);
            ("msg", Obj [("type", Str "assistant");
                         ("message", Obj [("content", Str "from A")])])]].

Definition historyB : value :=
  Arr [Obj [("type", Str "user"); ("message", Obj [("content", Str "from B")])]].

Definition bothCallbacks : Lifecycle.Config :=
  {| Lifecycle.hasSetCodexRateLimits := true;
     Lifecycle.hasOnSessionNotFound := true |}.

(** Instances of the billing collaborators: token counts read from
    [message.usage], a cost of one unit per token, and timestamps written
    as epoch milliseconds in decimal digits. *)
Definition countOf (v : value) : Z :=
  match v with
  | Num (Fin z) => z
  | _ => 0
  end.

Definition usageTokens (message : value) : Billing.StandardizedTokenUsage :=
  let usage := get (get message "message") "usage" in
  {| Billing.input_tokens := countOf (get usage "input_tokens");
     Billing.output_tokens := countOf (get usage "output_tokens");
     Billing.cache_creation_tokens := 0;
     Billing.cache_read_tokens := 0 |}.

Definition unitCost (tokens : Billing.StandardizedTokenUsage)
  (model : string) (engine : value) : Z :=
  Billing.calculateTotalTokens tokens.

Definition parseMillis (s : string) : option Z :=
  match digitsValue 0 s with
  | Fin z => Some z
  | _ => None
  end.

Definition assistantTurn (id : string) (input output : Z) (ts : value)
  : value :=
  Obj [("type", Str "assistant");
       ("message",
        Obj [("id", Str id);
             ("usage", Obj [("input_tokens", num input);
                            ("output_tokens", num output)])]);
       ("timestamp", ts)].

(** Two snapshots of the turn [msg_1], the second with more output, then
    two turns without a timestamp and one early turn scanned last. *)
Definition billedTurns : list value :=
  [assistantTurn "msg_1" 10 5 (Str "2000");
   assistantTurn "msg_1" 10 9 (Str "3000");
   assistantTurn "msg_2" 1 1 Undefined;
   assistantTurn "msg_3" 2 2 Undefined;
   assistantTurn "msg_4" 4 4 (Str "1000")].

(** The hook mounted and at rest. *)
Definition atRest : Lifecycle.HookState value :=
  {| Lifecycle.loadingSessionIdRef := None;
     Lifecycle.isMounted := true;
     Lifecycle.isLoading := false;
     Lifecycle.error := None;
     Lifecycle.messages := [];
     Lifecycle.rawJsonlOutput := [];
     Lifecycle.codexRateLimits := Null;
     Lifecycle.codexConverter := Null;
     Lifecycle.sessionNotFoundCalls := 0 |}.

End Scenarios.

(** ** Shapes of canonical messages, for stating the scenarios *)

Module Shapes.

(** The message has a content block of the given type. *)
Definition hasBlock (blockType : string) (m : value) : bool :=
  existsb (fun item => is_str (get item "type") blockType)
    (Grouping.contentItems m).

Definition isAssistantWithToolUse (m : value) : bool :=
  is_str (get m "type") "assistant" && hasBlock "tool_use" m.

Definition isToolResultMessage (m : value) : bool :=
  is_str (get m "type") "user" && hasBlock "tool_result" m.

(** A text block whose text is not blank: narrative text. *)
Definition isNarrativeItem (item : value) : bool :=
  is_str (get item "type") "text" &&
  match get item "text" with
  | Str t => nonblank t
  | _ => false
  end.

Definition isThinkingItem (item : value) : bool :=
  is_str (get item "type") "thinking".

Definition isToolItem (item : value) : bool :=
  is_str (get item "type") "tool_use" || is_str (get item "type") "tool_result".

(** The message contains a non-empty narrative text block. *)
Definition hasNarrativeText (m : value) : bool :=
  existsb isNarrativeItem (Grouping.contentItems m).

(** The message mixes reasoning and tool content in one record. *)
Definition isMixed (m : value) : bool :=
  existsb isThinkingItem (Grouping.contentItems m)
  && existsb isToolItem (Grouping.contentItems m).

(** A node of the intermediate sequence: normal or sub-agent group. *)
Definition isIntermediate (g : Grouping.MessageGroup) : bool :=
  match g with
  | Grouping.GAggregated _ _ => false
  | _ => true
  end.

(** All messages of a run classify to one technical kind. *)
Definition uniformRun (ty : Grouping.AggType) (ms : list value) : Prop :=
  Forall (fun m => Grouping.getTechnicalMessageType m = Some ty) ms.

(** What the fourth pass maintains: every aggregate already emitted, and
    the open one, is a uniform run. *)
Definition CompactionInvariant
  (st : list Grouping.MessageGroup * option Grouping.Aggregation) : Prop :=
  (forall ms idx, In (Grouping.GAggregated ms idx) (fst st) -> exists ty, uniformRun ty ms)
  /\ (forall agg, snd st = Some agg -> uniformRun (Grouping.aggType agg) (Grouping.agg_messages agg)).

(** The closed kind set of the data model. *)
Definition closedKinds : list string :=
  ["user"; "assistant"; "system"; "result"; "thinking"; "tool_use"].

End Shapes.

(** ** Views of the grouped output *)

Module Views.

Import Grouping.

(** The content of a node, in order: the messages it shows, or the
    sub-agent group it stands for. *)
Definition expand (g : MessageGroup)
  : list (ClaudeStreamMessage + SubagentGroup) :=
  match g with
  | GNormal m _ => [inl m]
  | GSubagent group => [inr group]
  | GAggregated ms _ => map inl ms
  end.

(** The messages a node sequence shows outside sub-agent groups. *)
Definition shownMessages (groups : list MessageGroup)
  : list ClaudeStreamMessage :=
  flat_map (fun g => match g with
                     | GNormal m _ => [m]
                     | GSubagent _ => []
                     | GAggregated ms _ => ms
                     end) groups.

(** The sub-agent groups of a node sequence. *)
Definition emittedGroups (groups : list MessageGroup) : list SubagentGroup :=
  flat_map (fun g => match g with
                     | GSubagent group => [group]
                     | _ => []
                     end) groups.

(** [subagentGroups.has(id)]. *)
Definition hasCollected (subagentGroups : gmap string SubagentGroup)
  (id : string) : bool :=
  bool_decide (is_Some (subagentGroups !! id)).

(** The message is neither attributed to a collected group nor the
    spawning message of one: the third pass emits it as a normal node. *)
Definition standsAlone (subagentGroups : gmap string SubagentGroup)
  (m : ClaudeStreamMessage) : bool :=
  negb (hasGroupFor subagentGroups (getParentToolUseId m))
  && negb (existsb (hasCollected subagentGroups) (extractTaskToolUseIds m)).

(** A node sits where its first message is in the input. *)
Definition anchored (messages : list ClaudeStreamMessage) (g : MessageGroup)
  : Prop :=
  match g with
  | GNormal m i => messages !! i = Some m
  | GSubagent _ => True
  | GAggregated ms i =>
      match ms with
      | m :: _ => messages !! i = Some m
      | [] => False
      end
  end.

(** The technical kind of an aggregate, read off its first message. *)
Definition kindOfNode (g : MessageGroup) : option AggType :=
  match g with
  | GAggregated (m :: _) _ => getTechnicalMessageType m
  | _ => None
  end.

End Views.

(** ** Invariants of the third pass *)

Module ThirdPassInvariants.

Import Grouping Views.

(** The groups emitted so far are those of the ids in [addedTaskGroups],
    each once, in the order the ids were added. *)
Definition GroupsEmitted (subagentGroups : gmap string SubagentGroup)
  (st : gset string * list MessageGroup) : Prop :=
  exists ids : list string,
    NoDup ids
    /\ (forall id, id ∈ fst st <-> In id ids)
    /\ Forall2 (fun id g => subagentGroups !! id = Some g)
         ids (emittedGroups (snd st)).

(** Every normal node carries the message of its index, and there is no
    aggregate yet. *)
Definition normalAt (messages : list ClaudeStreamMessage) (g : MessageGroup)
  : Prop :=
  match g with
  | GNormal m i => messages !! i = Some m
  | GSubagent _ => True
  | GAggregated _ _ => False
  end.

(** How the two index structures of [groupMessages] describe a message
    sequence: an index is processed exactly when its message is
    attributed to a collected group, and the ids recorded for an index
    are the Task ids of its message. *)
Definition Describes (subagentGroups : gmap string SubagentGroup)
  (processedIndices : gset nat) (indexToTaskIds : gmap nat (list string))
  (messages : list ClaudeStreamMessage) : Prop :=
  forall i m, messages !! i = Some m ->
    (i ∈ processedIndices
     <-> hasGroupFor subagentGroups (getParentToolUseId m) = true)
    /\ default [] (indexToTaskIds !! i) = extractTaskToolUseIds m.

End ThirdPassInvariants.

(** ** Invariants of the fourth pass *)

Module FourthPassInvariants.

Import Grouping Views Shapes.

(** A node of the output is in order: a normal node carries the message
    of its index, which is not aggregable; an aggregate is a non-empty
    run of one technical kind that starts at its index. *)
Definition nodeOk (messages : list ClaudeStreamMessage) (g : MessageGroup)
  : Prop :=
  match g with
  | GNormal m i =>
      messages !! i = Some m /\ getTechnicalMessageType m = None
  | GSubagent _ => True
  | GAggregated ms i =>
      exists ty m rest,
        ms = m :: rest /\ messages !! i = Some m /\ uniformRun ty ms
  end.

(** The open aggregate is in order. *)
Definition openOk (messages : list ClaudeStreamMessage)
  (cur : option Aggregation) : Prop :=
  match cur with
  | None => True
  | Some agg =>
      exists m rest,
        agg_messages agg = m :: rest
        /\ messages !! agg_startIndex agg = Some m
        /\ uniformRun (aggType agg) (agg_messages agg)
  end.

(** Two neighbouring nodes are not aggregates of the same kind. *)
Definition differ (g1 g2 : MessageGroup) : Prop :=
  kindOfNode g1 = None \/ kindOfNode g1 <> kindOfNode g2.

Fixpoint separated (l : list MessageGroup) : Prop :=
  match l with
  | [] => True
  | g1 :: rest =>
      match rest with
      | [] => True
      | g2 :: _ => differ g1 g2
      end /\ separated rest
  end.

(** What the fourth pass maintains. *)
Definition Compacted (messages : list ClaudeStreamMessage)
  (st : list MessageGroup * option Aggregation) : Prop :=
  Forall (nodeOk messages) (fst st)
  /\ openOk messages (snd st)
  /\ separated (fst st)
  /\ (forall g ty, last (fst st) = Some g -> kindOfNode g = Some ty ->
        exists agg, snd st = Some agg /\ aggType agg <> ty).

End FourthPassInvariants.

(** ** Parts of a converted Gemini turn *)

Module GeminiViews.

(** [msg.toolCalls] when it is an array. *)
Definition toolCallsOf (msg : value) : list value :=
  match get msg "toolCalls" with
  | Arr toolCalls => toolCalls
  | _ => []
  end.

(** [toolCall.result !== undefined]. *)
Definition hasResult (toolCall : value) : bool := defined (get toolCall "result").

(** The [tool_use] block pushed for a tool call. *)
Definition toolUseBlock (toolCall : value) : value :=
  Obj [("type", Str "tool_use");
       ("id", get toolCall "id");
       ("name", get toolCall "name");
       ("input", get toolCall "args")].

(** The blocks collected for the assistant message of a model turn. *)
Definition assistantBlocks (msg : value) : list value :=
  map toolUseBlock (toolCallsOf msg)
  ++ (if truthy (get msg "content")
      then [Obj [("type", Str "text"); ("text", get msg "content")]]
      else []).

(** The kinds the converter produces. *)
Definition convertedKinds : list string := ["user"; "assistant"; "result"].

(** What every converted message satisfies. *)
Definition convertedOk (m : value) : Prop :=
  get m "engine" = Str "gemini"
  /\ (exists k, get m "type" = Str k /\ In k convertedKinds)
  /\ (get m "type" = Str "assistant" ->
      exists block blocks,
        get (get m "message") "content" = Arr (block :: blocks)).

End GeminiViews.

(** ** Recognising Gemini messages (types/gemini.ts) *)

Module GeminiTypes.

(** ['k' in o] for an object. *)
Definition hasProperty (k : string) (o : value) : bool :=
  match o with
  | Obj fs => existsb (fun kv => String.eqb k (fst kv)) fs
  | _ => false
  end.

(** [typeof msg === "object" && msg !== null]. *)
Definition isObject (msg : value) : bool :=
  match msg with
  | Obj _ | Arr _ => true
  | _ => false
  end.

Definition isGeminiMessage (msg : value) : bool :=
  isObject msg
  && hasProperty "geminiMetadata" msg
  && is_str (get (get msg "geminiMetadata") "provider") "gemini".

End GeminiTypes.

(** ** Sums over the ledger *)

Module BillingViews.

(** The sum of a count over a list of events. *)
Definition sumOver {A : Type} (f : A -> Z) (l : list A) : Z :=
  fold_right Z.add 0 (map f l).

(** The message carries none of the four identities a billing key is
    derived from. *)
Definition unkeyed (message : value) : Prop :=
  Billing.nonblankString (get (get message "message") "id") = None
  /\ Billing.nonblankString (get message "id") = None
  /\ Billing.nonblankString (get message "uuid") = None
  /\ Billing.nonblankString
       (coalesce (get message "timestamp") (get message "receivedAt")) = None.

End BillingViews.

(** ** What a load shows *)

Module LifecycleViews.

(** What the component renders from: the messages, the raw log, the
    loading flag and the error. *)
Definition published {CodexState : Type}
  (st : Lifecycle.HookState CodexState)
  : list value * list string * bool * option string :=
  (Lifecycle.messages _ st, Lifecycle.rawJsonlOutput _ st,
   Lifecycle.isLoading _ st, Lifecycle.error _ st).

(** The four markers of slash-command traffic. *)
Definition commandMarkers : list string :=
  ["<local-command-stdout>"; "<command-name>"; "<command-message>";
   "Unknown slash command:"].

End LifecycleViews.

(** ** A converted session downstream *)

Module PipelineViews.

(** What the history loader and the billing pass make of a message: the
    loader keeps it and leaves its kind alone, and the billing pass
    considers it exactly when it is a [result] message. *)
Definition passesThrough (m : value) : Prop :=
  Lifecycle.keepEntry m = true
  /\ Lifecycle.withType m = m
  /\ Billing.getEngineType m = Str "gemini"
  /\ Billing.isBillable m = is_str (get m "type") "result".

End PipelineViews.

(* ===================================================================== *)
(** * Part II: properties                                                 *)
(* ===================================================================== *)

(** ** Visibility of sidechain messages *)

Section VisibilityFacts.

Import Grouping Scenarios.

(** C10. A message whose [isSidechain] flag is set and whose
    [parent_tool_use_id] is absent counts as a sub-agent message, and
    [shouldHideMessage] answers [false] for it whatever the grouping
    output is. *)
Theorem C10_sidechain_only_never_hidden
  (message : ClaudeStreamMessage) (groups : list MessageGroup) :
  truthy (get message "isSidechain") = true ->
  truthy (get message "parent_tool_use_id") = false ->
  isSubagentMessage message = true /\ shouldHideMessage message groups = false.
Proof.
  intros Hside Hparent.
  unfold shouldHideMessage, isSubagentMessage, getParentToolUseId, or_else.
  rewrite Hside, Hparent. cbn. split; reflexivity.
Qed.

Lemma C10_sidechain_only_never_hidden_witness :
  isSubagentMessage sidechainOnly = true
  /\ shouldHideMessage sidechainOnly (groupMessages [spawnOne; subagentReply])
     = false.
Proof.
  apply C10_sidechain_only_never_hidden; reflexivity.
Defined.

End VisibilityFacts.

(** ** The Gemini usage normalizer and history converter *)

Section GeminiFacts.

Import Gemini Scenarios.

Variable Number_of_string : string -> number.
Variable JSON_stringify : value -> string.

Abbreviation toNumber := (toNumber Number_of_string).
Abbreviation promptOf := (promptOf Number_of_string).
Abbreviation candidatesOf := (candidatesOf Number_of_string).
Abbreviation thoughtsOf := (thoughtsOf Number_of_string).
Abbreviation toolOf := (toolOf Number_of_string).
Abbreviation cachedOf := (cachedOf Number_of_string).
Abbreviation derivedInput := (derivedInput Number_of_string).
Abbreviation derivedOutput := (derivedOutput Number_of_string).
Abbreviation extractGeminiUsage := (extractGeminiUsage Number_of_string).

Lemma derivedInput_components (tokens : value) (prompt : Z) :
  toNumber (get tokens "input_tokens") = None ->
  promptOf tokens = Some prompt ->
  derivedInput tokens = Some (prompt + toolOf tokens).
Proof.
  intros Hdirect Hprompt. unfold Gemini.derivedInput.
  rewrite Hdirect, Hprompt. reflexivity.
Qed.

Lemma derivedOutput_components (tokens : value) (candidates : Z) :
  toNumber (get tokens "output_tokens") = None ->
  candidatesOf tokens = Some candidates ->
  derivedOutput tokens = Some (candidates + thoughtsOf tokens).
Proof.
  intros Hdirect Hcand. unfold Gemini.derivedOutput.
  rewrite Hdirect, Hcand. reflexivity.
Qed.

Lemma extractGeminiUsage_null (tokens : value) :
  default 0 (derivedInput tokens) <= 0 ->
  default 0 (derivedOutput tokens) <= 0 ->
  cachedOf tokens <= 0 ->
  extractGeminiUsage tokens = None.
Proof.
  intros Hi Ho Hc. unfold Gemini.extractGeminiUsage.
  destruct (notAnObject tokens); [reflexivity |].
  apply Z.leb_le in Hi, Ho, Hc. rewrite Hi, Ho, Hc. reflexivity.
Qed.

Lemma extractGeminiUsage_fields (tokens : value) (u : GeminiUsage) :
  extractGeminiUsage tokens = Some u ->
  input_tokens u = Z.max (default 0 (derivedInput tokens)) 0
  /\ output_tokens u = Z.max (default 0 (derivedOutput tokens)) 0
  /\ cached_input_tokens u
     = (if 0 <? cachedOf tokens then Some (cachedOf tokens) else None).
Proof.
  unfold Gemini.extractGeminiUsage.
  destruct (notAnObject tokens); [discriminate |].
  destruct (_ && _); [discriminate |].
  intros [= <-]. cbn. auto.
Qed.

Lemma extractGeminiUsage_some (tokens : value) :
  notAnObject tokens = false ->
  0 < default 0 (derivedInput tokens) \/ 0 < default 0 (derivedOutput tokens)
  \/ 0 < cachedOf tokens ->
  extractGeminiUsage tokens
  = Some {| input_tokens := Z.max (default 0 (derivedInput tokens)) 0;
            output_tokens := Z.max (default 0 (derivedOutput tokens)) 0;
            cached_input_tokens :=
              if 0 <? cachedOf tokens then Some (cachedOf tokens) else None |}.
Proof.
  intros Hobj Hpos. unfold Gemini.extractGeminiUsage. rewrite Hobj.
  destruct (Z.leb_spec (default 0 (derivedInput tokens)) 0);
    destruct (Z.leb_spec (default 0 (derivedOutput tokens)) 0);
    destruct (Z.leb_spec (cachedOf tokens) 0); cbn [andb]; try reflexivity.
  lia.
Qed.

Lemma extractGeminiUsage_none (tokens : value) :
  extractGeminiUsage tokens = None ->
  notAnObject tokens = true
  \/ (default 0 (derivedInput tokens) <= 0
      /\ default 0 (derivedOutput tokens) <= 0 /\ cachedOf tokens <= 0).
Proof.
  intros Hnone. destruct (notAnObject tokens) eqn:Hobj; [left; reflexivity |].
  right.
  destruct (Z.leb_spec (default 0 (derivedInput tokens)) 0) as [Hi | Hi];
    [| rewrite extractGeminiUsage_some in Hnone by auto; discriminate].
  destruct (Z.leb_spec (default 0 (derivedOutput tokens)) 0) as [Ho | Ho];
    [| rewrite extractGeminiUsage_some in Hnone by auto; discriminate].
  destruct (Z.leb_spec (cachedOf tokens) 0) as [Hc | Hc];
    [| rewrite extractGeminiUsage_some in Hnone by auto; discriminate].
  auto.
Qed.

(** C6, amended.  For every raw token record.  With no direct count, the
    input signal is [prompt + toolUse] when a prompt count is present and
    is missing otherwise, whatever the tool count; the output signal is
    [candidates + thoughts] when a candidates count is present and is
    missing otherwise.  A record that has component counts only, with both
    base counts present, sums that are not negative and one of the two
    sums or the cached count strictly positive, is normalized to the
    record holding exactly the two sums and the cached count when that is
    strictly positive.  In general a record is returned exactly when the
    token value is an object and the input signal, the output signal or
    the cached count is strictly positive, and null otherwise, so null
    is returned when every signal is zero or missing.  A returned record
    carries the two signals clamped at zero, carries the cached count
    exactly when it is strictly positive, and has no negative field. *)
Theorem C6_usage_normalizer (tokens : value) :
  (toNumber (get tokens "input_tokens") = None ->
   derivedInput tokens
   = match promptOf tokens with
     | Some prompt => Some (prompt + toolOf tokens)
     | None => None
     end)
  /\ (toNumber (get tokens "output_tokens") = None ->
      derivedOutput tokens
      = match candidatesOf tokens with
        | Some candidates => Some (candidates + thoughtsOf tokens)
        | None => None
        end)
  /\ (forall prompt candidates,
      notAnObject tokens = false ->
      toNumber (get tokens "input_tokens") = None ->
      toNumber (get tokens "output_tokens") = None ->
      promptOf tokens = Some prompt ->
      candidatesOf tokens = Some candidates ->
      0 <= prompt + toolOf tokens ->
      0 <= candidates + thoughtsOf tokens ->
      0 < prompt + toolOf tokens \/ 0 < candidates + thoughtsOf tokens
      \/ 0 < cachedOf tokens ->
      extractGeminiUsage tokens
      = Some {| input_tokens := prompt + toolOf tokens;
                output_tokens := candidates + thoughtsOf tokens;
                cached_input_tokens :=
                  if 0 <? cachedOf tokens then Some (cachedOf tokens)
                  else None |})
  /\ (notAnObject tokens = false ->
      0 < default 0 (derivedInput tokens)
      \/ 0 < default 0 (derivedOutput tokens) \/ 0 < cachedOf tokens ->
      extractGeminiUsage tokens
      = Some {| input_tokens := Z.max (default 0 (derivedInput tokens)) 0;
                output_tokens := Z.max (default 0 (derivedOutput tokens)) 0;
                cached_input_tokens :=
                  if 0 <? cachedOf tokens then Some (cachedOf tokens)
                  else None |})
  /\ (extractGeminiUsage tokens = None
      <-> notAnObject tokens = true
          \/ (default 0 (derivedInput tokens) <= 0
              /\ default 0 (derivedOutput tokens) <= 0
              /\ cachedOf tokens <= 0))
  /\ ((derivedInput tokens = None \/ derivedInput tokens = Some 0) ->
      (derivedOutput tokens = None \/ derivedOutput tokens = Some 0) ->
      cachedOf tokens = 0 ->
      extractGeminiUsage tokens = None)
  /\ (forall u,
      extractGeminiUsage tokens = Some u ->
      input_tokens u = Z.max (default 0 (derivedInput tokens)) 0
      /\ output_tokens u = Z.max (default 0 (derivedOutput tokens)) 0
      /\ (forall i, derivedInput tokens = Some i -> 0 <= i -> input_tokens u = i)
      /\ (forall o, derivedOutput tokens = Some o -> 0 <= o -> output_tokens u = o)
      /\ (forall c, cached_input_tokens u = Some c <->
                    c = cachedOf tokens /\ 0 < c)
      /\ 0 <= input_tokens u
      /\ 0 <= output_tokens u
      /\ (forall c, cached_input_tokens u = Some c -> 0 <= c)).
Proof.
  split; [| split; [| split; [| split; [| split; [| split]]]]].
  - intros Hdirect. unfold Gemini.derivedInput. rewrite Hdirect. reflexivity.
  - intros Hdirect. unfold Gemini.derivedOutput. rewrite Hdirect. reflexivity.
  - intros prompt candidates Hobj Hin Hout Hprompt Hcand Hi Ho Hpos.
    pose proof (derivedInput_components tokens prompt Hin Hprompt) as HdI.
    pose proof (derivedOutput_components tokens candidates Hout Hcand) as HdO.
    rewrite extractGeminiUsage_some.
    + rewrite HdI, HdO. cbn [default].
      rewrite !Z.max_l by assumption. reflexivity.
    + exact Hobj.
    + rewrite HdI, HdO. exact Hpos.
  - apply extractGeminiUsage_some.
  - split; [apply extractGeminiUsage_none |].
    intros [Hobj | (Hi & Ho & Hc)].
    + unfold Gemini.extractGeminiUsage. rewrite Hobj. reflexivity.
    + apply extractGeminiUsage_null; assumption.
  - intros Hi Ho Hc. apply extractGeminiUsage_null.
    + destruct Hi as [-> | ->]; cbn; lia.
    + destruct Ho as [-> | ->]; cbn; lia.
    + lia.
  - intros u Hu.
    destruct (extractGeminiUsage_fields tokens u Hu) as (Hin & Hout & Hcached).
    assert (Hc : forall c, cached_input_tokens u = Some c <->
                           c = cachedOf tokens /\ 0 < c).
    { intros c. rewrite Hcached. destruct (Z.ltb_spec 0 (cachedOf tokens)).
      - split; [intros [= <-]; auto | intros [-> _]; reflexivity].
      - split; [discriminate | intros [-> ?]; lia]. }
    split; [exact Hin |]. split; [exact Hout |].
    split; [intros i Hi Hpos; rewrite Hin, Hi; cbn; lia |].
    split; [intros o Ho Hpos; rewrite Hout, Ho; cbn; lia |].
    split; [exact Hc |].
    split; [lia |]. split; [lia |].
    intros c Hsome. apply Hc in Hsome. lia.
Qed.

End GeminiFacts.

Section GeminiScenarios.

Import Gemini Scenarios Shapes.

(** C6, as stated, fails where a base count is missing.  A usage record
    with a prompt count of 100 and a thoughts count of 50, its candidates
    count left out, has component counts only, yet its output is 0 and
    not [candidates + thoughts]; a record with a tool count of 7 and no
    prompt count has input 0, not [prompt + toolUse]; and a record with
    only a tool count of 7 and a thoughts count of 50 is normalized to
    null. *)
Lemma C6_missing_base_count_counterexample :
  toNumber Number_of_digits (get thoughtsWithoutCandidates "input_tokens") = None
  /\ toNumber Number_of_digits (get thoughtsWithoutCandidates "output_tokens")
     = None
  /\ thoughtsOf Number_of_digits thoughtsWithoutCandidates = 50
  /\ extractGeminiUsage Number_of_digits thoughtsWithoutCandidates
     = Some {| input_tokens := 100; output_tokens := 0;
               cached_input_tokens := None |}
  /\ toolOf Number_of_digits toolWithoutPrompt = 7
  /\ extractGeminiUsage Number_of_digits toolWithoutPrompt
     = Some {| input_tokens := 0; output_tokens := 23;
               cached_input_tokens := None |}
  /\ extractGeminiUsage Number_of_digits toolAndThoughts = None
  /\ ~ (forall tokens u,
          toNumber Number_of_digits (get tokens "input_tokens") = None ->
          toNumber Number_of_digits (get tokens "output_tokens") = None ->
          extractGeminiUsage Number_of_digits tokens = Some u ->
          input_tokens u
          = default 0 (promptOf Number_of_digits tokens)
            + toolOf Number_of_digits tokens
          /\ output_tokens u
             = default 0 (candidatesOf Number_of_digits tokens)
               + thoughtsOf Number_of_digits tokens).
Proof.
  do 7 (split; [reflexivity |]).
  intros Hclaim.
  destruct (Hclaim thoughtsWithoutCandidates
              {| input_tokens := 100; output_tokens := 0;
                 cached_input_tokens := None |} eq_refl eq_refl eq_refl)
    as [_ Hout].
  vm_compute in Hout. discriminate.
Qed.

(** The normalizer at a record of plain component counts, which it returns
    with the two sums and the cached count, and at a record whose only
    count is zero. *)
Lemma C6_usage_normalizer_witness :
  extractGeminiUsage Number_of_digits plainCounts
  = Some {| input_tokens := 100 + 7; output_tokens := 20 + 3;
            cached_input_tokens := Some 4 |}
  /\ extractGeminiUsage Number_of_digits (Obj [("prompt", num 0)]) = None
  /\ derivedOutput Number_of_digits thoughtsWithoutCandidates = None.
Proof.
  destruct (C6_usage_normalizer Number_of_digits plainCounts)
    as (_ & _ & Hrecord & _).
  destruct (C6_usage_normalizer Number_of_digits (Obj [("prompt", num 0)]))
    as (_ & _ & _ & _ & _ & Hnull & _).
  destruct (C6_usage_normalizer Number_of_digits thoughtsWithoutCandidates)
    as (_ & Hmissing & _).
  split; [| split].
  - apply (Hrecord 100 20); try reflexivity.
    + cbn. lia.
    + cbn. lia.
    + left. cbn. lia.
  - apply Hnull; [right | left |]; reflexivity.
  - apply Hmissing. reflexivity.
Defined.

(** A negative component count is clamped: the prompt count -5 yields
    the input signal -5 and the field 0. *)
Example negative_prompt_is_clamped :
  derivedInput Number_of_digits negativePrompt = Some (-5)
  /\ extractGeminiUsage Number_of_digits negativePrompt
     = Some {| input_tokens := 0; output_tokens := 10;
               cached_input_tokens := None |}.
Proof. split; reflexivity. Qed.

(** C3, as stated, fails on the scenario: the conversion yields four
    messages, not five, and no assistant message carrying a [tool_use]
    block stands before the synthesized [tool_result] message.  When the
    call has its display summary but no [result], no [tool_result]
    message is synthesized at all. *)
Lemma C3_scenario_order_counterexample :
  let out :=
    convertGeminiSessionDetailToClaudeMessages
      Number_of_digits stringifyKind fixBugDetail in
  let outNoResult :=
    convertGeminiSessionDetailToClaudeMessages
      Number_of_digits stringifyKind fixBugDetailNoResult in
  ~ (exists user toolUse toolResult narrative result,
        out = [user; toolUse; toolResult; narrative; result]
        /\ isAssistantWithToolUse toolUse = true
        /\ isToolResultMessage toolResult = true)
  /\ ~ (exists (i j : nat) toolUse toolResult,
        (i < j)%nat
        /\ out !! i = Some toolUse /\ out !! j = Some toolResult
        /\ isAssistantWithToolUse toolUse = true
        /\ isToolResultMessage toolResult = true)
  /\ length outNoResult = 3%nat
  /\ existsb isToolResultMessage outNoResult = false.
Proof.
  cbv zeta. split; [| split; [| split]].
  - intros (u & a & r & n & res & Hout & _). vm_compute in Hout. discriminate.
  - intros (i & j & a & r & Hlt & Hi & Hj & Ha & Hr).
    destruct i as [| [| [| [| i]]]]; cbn in Hi; try discriminate;
      injection Hi as <-; vm_compute in Ha; try discriminate.
    destruct j as [| [| [| [| j]]]]; cbn in Hj; try discriminate; try lia;
      injection Hj as <-; vm_compute in Hr; discriminate.
  - reflexivity.
  - reflexivity.
Qed.

(** C3, amended.  The scenario converts to exactly four messages in this
    order: the user text message; the synthesized [tool_result] user
    message with content "ok"; one assistant message holding the
    [tool_use] block followed by the narrative text "Fixed it"; the
    [result] message with usage [{input_tokens: 100, output_tokens: 20}]. *)
Theorem C3_scenario_conversion
  (Number_of_string : string -> number) (JSON_stringify : value -> string) :
  convertGeminiSessionDetailToClaudeMessages
    Number_of_string JSON_stringify fixBugDetail
  = [ Obj [("type", Str "user");
           ("message",
            Obj [("content",
                  Arr [Obj [("type", Str "text"); ("text", Str "fix bug")]]);
                 ("role", Str "user")]);
           ("timestamp", Str "2025-01-01T00:00:00Z");
           ("engine", Str "gemini")];
      Obj [("type", Str "user");
           ("message",
            Obj [("content",
                  Arr [Obj [("type", Str "tool_result");
                            ("tool_use_id", Str "call-1");
                            ("content", Str "ok");
                            ("is_error", Bool false)]]);
                 ("role", Str "user")]);
           ("timestamp", Str "2025-01-01T00:00:01Z");
           ("engine", Str "gemini")];
      Obj [("type", Str "assistant");
           ("message",
            Obj [("content",
                  Arr [Obj [("type", Str "tool_use");
                            ("id", Str "call-1");
                            ("name", Str "readFile");
                            ("input", Obj [("path", Str "main.ts")])];
                       Obj [("type", Str "text"); ("text", Str "Fixed it")]]);
                 ("role", Str "assistant")]);
           ("timestamp", Str "2025-01-01T00:00:01Z");
           ("engine", Str "gemini");
           ("model", Undefined)];
      Obj [("type", Str "result");
           ("subtype", Str "success");
           ("usage",
            Obj [("input_tokens", Num (Fin 100));
                 ("output_tokens", Num (Fin 20))]);
           ("timestamp", Str "2025-01-01T00:00:01Z");
           ("engine", Str "gemini");
           ("model", Undefined)] ].
Proof. reflexivity. Qed.

(** Whenever a tool call has a non-empty display summary, that summary is
    the content of the synthesized [tool_result] block. *)
Lemma toolResult_content_is_display
  (JSON_stringify : value -> string) (msg toolCall : value) :
  truthy (get toolCall "resultDisplay") = true ->
  exists rest,
    get (get (toolResultMessage JSON_stringify msg toolCall) "message") "content"
    = Arr [Obj (("type", Str "tool_result") :: ("tool_use_id", get toolCall "id")
                :: ("content", get toolCall "resultDisplay") :: rest)].
Proof.
  intros Hdisplay. unfold toolResultMessage, or_else. rewrite Hdisplay.
  cbn. eexists. reflexivity.
Qed.

(** C4, evaluated where it fails.  The call carries the function-response
    output "full file contents" and the display summary "Read 120 lines";
    the code extracts the former as [resultContent], yet the synthesized
    [tool_result] carries the summary. *)
Theorem C4_display_summary_shadows_function_response
  (Number_of_string : string -> number) (JSON_stringify : value -> string) :
  resultContentOf bothOutputsCall = Str "full file contents"
  /\ convertGeminiSessionDetailToClaudeMessages
       Number_of_string JSON_stringify (Obj [("messages", Arr [bothOutputsTurn])])
     = [ Obj [("type", Str "user");
              ("message",
               Obj [("content",
                     Arr [Obj [("type", Str "tool_result");
                               ("tool_use_id", Str "call-2");
                               ("content", Str "Read 120 lines");
                               ("is_error", Bool false)]]);
                    ("role", Str "user")]);
              ("timestamp", Str "2025-01-01T00:00:02Z");
              ("engine", Str "gemini")];
         Obj [("type", Str "assistant");
              ("message",
               Obj [("content",
                     Arr [Obj [("type", Str "tool_use");
                               ("id", Str "call-2");
                               ("name", Str "readFile");
                               ("input", Obj [])]]);
                    ("role", Str "assistant")]);
              ("timestamp", Str "2025-01-01T00:00:02Z");
              ("engine", Str "gemini");
              ("model", Undefined)] ].
Proof. split; reflexivity. Qed.

End GeminiScenarios.

(** ** Loading persisted history *)

Section HistoryFilterFacts.

Import Lifecycle Scenarios Shapes.

Lemma lookup_set_field (k : string) (v : value) (fs : list (string * value)) :
  lookup_field k (set_field k v fs) = v.
Proof.
  induction fs as [| [k' v'] fs IH]; cbn.
  - rewrite String.eqb_refl. reflexivity.
  - destruct (String.eqb k k') eqn:Hk; cbn.
    + rewrite String.eqb_refl. reflexivity.
    + rewrite Hk. exact IH.
Qed.

Lemma get_set_same (o : value) (k : string) (v : value) :
  get (set o k v) k = v.
Proof.
  destruct o; cbn; try (rewrite String.eqb_refl; reflexivity).
  apply lookup_set_field.
Qed.

Lemma isValidType_spec (type : value) :
  isValidType type = true <-> exists k, type = Str k /\ In k validTypes.
Proof.
  unfold isValidType. split.
  - destruct type; try discriminate. intros H.
    apply existsb_exists in H as (k & Hin & Heq).
    apply String.eqb_eq in Heq. subst. eauto.
  - intros (k & -> & Hin). apply existsb_exists. exists k.
    split; [exact Hin | apply String.eqb_refl].
Qed.

Lemma keepEntry_spec (entry : value) :
  keepEntry entry = true
  <-> truthy (get entry "type") = false
      \/ exists k, get entry "type" = Str k /\ In k validTypes.
Proof.
  unfold keepEntry. rewrite <- isValidType_spec.
  destruct (truthy (get entry "type")), (isValidType (get entry "type"));
    cbn; intuition congruence.
Qed.

(** C8, as stated, fails: a record of kind [summary] lies outside the
    six-kind set and is kept, and so is a record without a kind, which is
    loaded as [assistant]. *)
Lemma C8_summary_kept_counterexample :
  ~ In "summary" closedKinds
  /\ loadedMessagesOf [summaryRecord; queueRecord] = [summaryRecord]
  /\ loadedMessagesOf [untypedRecord]
     = [Obj [("message", Obj [("content", Str "legacy")]);
             ("type", Str "assistant")]]
  /\ ~ (forall history entry k,
          In entry history -> get entry "type" = Str k ->
          ~ In k closedKinds ->
          ~ In (withType entry) (loadedMessagesOf history)).
Proof.
  split; [| split; [| split]].
  - cbn. intros H. repeat destruct H as [H | H]; try discriminate; exact H.
  - reflexivity.
  - reflexivity.
  - intros Hclaim.
    apply (Hclaim [summaryRecord] summaryRecord "summary").
    + left. reflexivity.
    + reflexivity.
    + cbn. intros H. repeat destruct H as [H | H]; try discriminate; exact H.
    + left. reflexivity.
Qed.

(** C8, amended.  A record is kept exactly when its kind is absent (or
    otherwise falsy) or is one of user, assistant, system, result,
    summary, thinking, tool_use; the loaded sequence consists of the kept
    records, in order, each with an absent kind replaced by [assistant];
    so every loaded message has one of those seven kinds and every record
    of any other kind is filtered out. *)
Theorem C8_loaded_history_filter (history : list value) :
  (forall entry,
      keepEntry entry = true
      <-> truthy (get entry "type") = false
          \/ exists k, get entry "type" = Str k /\ In k validTypes)
  /\ (forall entry,
        In entry history -> keepEntry entry = true ->
        In (withType entry) (loadedMessagesOf history))
  /\ (forall m,
        In m (loadedMessagesOf history) ->
        exists entry,
          In entry history /\ keepEntry entry = true /\ m = withType entry)
  /\ (forall m,
        In m (loadedMessagesOf history) ->
        exists k, get m "type" = Str k /\ In k validTypes)
  /\ length (loadedMessagesOf history)
     = length (List.filter keepEntry history).
Proof.
  split; [exact keepEntry_spec |].
  split; [| split; [| split]].
  - intros entry Hin Hkeep. unfold loadedMessagesOf.
    apply in_map. apply List.filter_In. auto.
  - intros m Hin. unfold loadedMessagesOf in Hin.
    apply in_map_iff in Hin as (entry & <- & Hin).
    apply List.filter_In in Hin as [Hin Hkeep]. eauto.
  - intros m Hin. unfold loadedMessagesOf in Hin.
    apply in_map_iff in Hin as (entry & <- & Hin).
    apply List.filter_In in Hin as [_ Hkeep].
    unfold withType. rewrite get_set_same. unfold or_else.
    apply keepEntry_spec in Hkeep as [Hfalsy | (k & Hk & Hvalid)].
    + rewrite Hfalsy. exists "assistant". split; [reflexivity |].
      cbn. auto.
    + rewrite Hk. exists k. destruct (truthy (Str k)) eqn:Ht.
      * auto.
      * cbn in Ht. destruct (String.eqb_spec k ""); [| discriminate].
        subst. cbn in Hvalid.
        repeat destruct Hvalid as [Hvalid | Hvalid];
          try discriminate; contradiction.
  - unfold loadedMessagesOf. apply length_map.
Qed.

Lemma C8_loaded_history_filter_witness :
  In (withType userRecord)
     (loadedMessagesOf [queueRecord; userRecord; summaryRecord]).
Proof.
  destruct (C8_loaded_history_filter [queueRecord; userRecord; summaryRecord])
    as (_ & Hkept & _).
  apply Hkept.
  - right. left. reflexivity.
  - reflexivity.
Defined.

End HistoryFilterFacts.

(** ** The race guard of history loading *)

Section RaceGuardFacts.

Import Lifecycle Scenarios.

Variable Number_of_string : string -> number.
Variable JSON_stringify : value -> string.
Variable String_of : value -> string.
Variable normalizeUsageData : value -> value.
Variable CodexState : Type.
Variable codex_reset : CodexState.
Variable convertEventObject : CodexState -> value -> CodexState * value.
Variable getRateLimits : CodexState -> value.

Abbreviation State := (HookState CodexState).
Abbreviation settle :=
  (loadSettle Number_of_string JSON_stringify String_of normalizeUsageData
     CodexState codex_reset convertEventObject getRateLimits).
Abbreviation fetched :=
  (fetchedHistory Number_of_string JSON_stringify CodexState codex_reset
     convertEventObject getRateLimits).
Abbreviation processed :=
  (processedMessagesOf String_of normalizeUsageData).

(** A later request for another session supersedes the earlier one. *)
Lemma loadStart_supersedes (a b : Session) (st : State) :
  id a <> id b ->
  superseded CodexState a (loadStart CodexState (Some b) st) = true.
Proof.
  intros Hne. unfold superseded. cbn.
  destruct (String.eqb_spec (id b) (id a)); [congruence | reflexivity].
Qed.

Lemma loadStart_latest (b : Session) (st : State) :
  superseded CodexState b (loadStart CodexState (Some b) st) = false.
Proof. unfold superseded. cbn. rewrite String.eqb_refl. reflexivity. Qed.

(** A superseded failure changes nothing. *)
Lemma superseded_rejection_discarded
  (cfg : Config) (s : Session) (errorMessage : string) (st : State) :
  superseded CodexState s st = true ->
  settle cfg s (Rejected errorMessage) st = st.
Proof. intros Hsup. cbn. rewrite Hsup. reflexivity. Qed.

(** A superseded success of a session that is not a Codex one changes
    nothing. *)
Lemma superseded_success_discarded
  (cfg : Config) (s : Session) (payload : value) (st : State) :
  superseded CodexState s st = true ->
  is_str (engine s) "codex" = false ->
  settle cfg s (Fulfilled payload) st = st.
Proof.
  intros Hsup Hcodex. unfold loadSettle, fetchedHistory.
  rewrite Hcodex. destruct (is_str (engine s) "gemini"); rewrite Hsup;
    reflexivity.
Qed.

(** A superseded success of a Codex session has already reset the shared
    converter, run it over the fetched events and, when the setter is
    given, published the rate limits it accumulated. *)
Lemma superseded_codex_success_effect
  (cfg : Config) (s : Session) (payload : value) (st : State) :
  superseded CodexState s st = true ->
  is_str (engine s) "codex" = true ->
  let cs :=
    fst (fold_left (convertCodexEvent CodexState convertEventObject)
           (itemsOf payload) (codex_reset, [])) in
  let st' := settle cfg s (Fulfilled payload) st in
  codexConverter _ st' = cs
  /\ codexRateLimits _ st'
     = (if hasSetCodexRateLimits cfg then getRateLimits cs
        else codexRateLimits _ st)
  /\ messages _ st' = messages _ st
  /\ rawJsonlOutput _ st' = rawJsonlOutput _ st
  /\ isLoading _ st' = isLoading _ st
  /\ error _ st' = error _ st.
Proof.
  intros Hsup Hcodex. cbv zeta. unfold loadSettle, fetchedHistory.
  rewrite Hcodex.
  assert (Hg : is_str (engine s) "gemini" = false).
  { destruct (engine s); try reflexivity. cbn in Hcodex |- *.
    apply String.eqb_eq in Hcodex. subst. reflexivity. }
  rewrite Hg.
  destruct (fold_left _ _ _) as [cs converted]. cbn.
  unfold superseded in Hsup |- *. cbn. rewrite Hsup. cbn.
  repeat split; reflexivity.
Qed.

(** The completion of the latest request is applied while the component
    is mounted. *)
Lemma latest_success_applied
  (cfg : Config) (s : Session) (payload : value) (st : State) :
  superseded CodexState s st = false ->
  isMounted _ st = true ->
  let st' := settle cfg s (Fulfilled payload) st in
  messages _ st' = processed (fst (fetched cfg s payload st))
  /\ isLoading _ st' = false.
Proof.
  intros Hsup Hmounted. cbv zeta. unfold loadSettle.
  destruct (fetchedHistory _ _ _ _ _ _ cfg s payload st) as [history st1] eqn:Hf.
  assert (Hsame : loadingSessionIdRef _ st1 = loadingSessionIdRef _ st
                  /\ isMounted _ st1 = isMounted _ st).
  { unfold fetchedHistory in Hf.
    destruct (is_str (engine s) "gemini"); [injection Hf as _ <-; auto |].
    destruct (is_str (engine s) "codex"); [| injection Hf as _ <-; auto].
    destruct (fold_left _ _ _). injection Hf as _ <-. auto. }
  destruct Hsame as [Href Hm].
  unfold superseded in Hsup |- *. rewrite Href, Hsup, Hm, Hmounted. cbn. auto.
Qed.

End RaceGuardFacts.

Section RaceGuardScenario.

Import Lifecycle Scenarios.

(** C9, evaluated where it fails.  History is requested for the Codex
    session A and then for session B; A's fetch then resolves.  A is
    superseded and its messages are discarded, yet the rate limits shown
    and the state of the shared converter are now those of A; they stay
    so after B's result has been applied. *)
Theorem C9_superseded_codex_load_publishes_rate_limits :
  let settle :=
    loadSettle Number_of_digits stringifyKind stringifyKind (fun usage => usage)
      value Null lastRateLimits (fun st => st) bothCallbacks in
  let requested : HookState value :=
    loadStart value (Some sessionB) (loadStart value (Some sessionA) atRest) in
  let settledA := settle sessionA (Fulfilled historyA) requested in
  let settledB := settle sessionB (Fulfilled historyB) settledA in
  superseded value sessionA requested = true
  /\ messages _ settledA = messages _ requested
  /\ codexRateLimits _ requested = Null
  /\ codexRateLimits _ settledA = Obj [("used_percent", num 42)]
  /\ codexConverter _ settledA = Obj [("used_percent", num 42)]
  /\ settledA <> requested
  /\ messages _ settledB
     = [Obj [("type", Str "user");
             ("message", Obj [("content", Str "from B")])]]
  /\ isLoading _ settledB = false
  /\ codexRateLimits _ settledB = Obj [("used_percent", num 42)].
Proof.
  cbv zeta. repeat split; try reflexivity.
  intros Heq.
  apply (f_equal (codexRateLimits value)) in Heq. vm_compute in Heq.
  discriminate.
Qed.

End RaceGuardScenario.

(** ** Iteration with an index *)

Section IterationFacts.

Context {A St : Type} (f : St -> A -> nat -> St).

Lemma forEachFrom_app (l1 l2 : list A) (i : nat) (st : St) :
  forEachFrom f (l1 ++ l2) i st
  = forEachFrom f l2 (i + length l1) (forEachFrom f l1 i st).
Proof.
  revert i st. induction l1 as [| x l1 IH]; intros i st; cbn.
  - rewrite Nat.add_0_r. reflexivity.
  - rewrite IH. f_equal. lia.
Qed.

Lemma forEach_snoc (l : list A) (x : A) (st : St) :
  forEach f (l ++ [x]) st = f (forEach f l st) x (length l).
Proof. unfold forEach. rewrite forEachFrom_app. reflexivity. Qed.

(** An invariant that every step maintains holds at the end. *)
Lemma forEach_invariant (P : list A -> St -> Prop) (l : list A) (st : St) :
  P [] st ->
  (forall done x st',
      P done st' -> P (done ++ [x]) (f st' x (length done))) ->
  P l (forEach f l st).
Proof.
  intros Hinit Hstep. induction l as [| x l IH] using rev_ind.
  - exact Hinit.
  - rewrite forEach_snoc. apply Hstep. exact IH.
Qed.

End IterationFacts.

(** ** The billing ledger *)

Section EventMapFacts.

Import Billing.

Context {Cost : Type}.

Abbreviation Event := (BillingEvent Cost).
Abbreviation Ledger := (list (string * BillingEvent Cost)).

Lemma mapGet_mapSet_same (k : string) (e : Event) (m : Ledger) :
  mapGet Cost k (mapSet Cost k e m) = Some e.
Proof.
  induction m as [| [k' e'] m IH]; cbn.
  - rewrite String.eqb_refl. reflexivity.
  - destruct (String.eqb k k') eqn:Hk; cbn.
    + rewrite String.eqb_refl. reflexivity.
    + rewrite Hk. exact IH.
Qed.

Lemma mapGet_mapSet_other (k k' : string) (e : Event) (m : Ledger) :
  k <> k' -> mapGet Cost k' (mapSet Cost k e m) = mapGet Cost k' m.
Proof.
  intros Hne. induction m as [| [k0 e0] m IH]; cbn.
  - destruct (String.eqb_spec k' k); [congruence | reflexivity].
  - destruct (String.eqb_spec k k0) as [-> | Hk0]; cbn.
    + destruct (String.eqb_spec k' k0); [congruence | reflexivity].
    + destruct (String.eqb_spec k' k0); [reflexivity | exact IH].
Qed.

Lemma mapGet_None_keys (k : string) (m : Ledger) :
  mapGet Cost k m = None <-> ~ In k (map fst m).
Proof.
  induction m as [| [k' e'] m IH]; cbn.
  - tauto.
  - destruct (String.eqb_spec k k') as [-> | Hk].
    + split; [discriminate | tauto].
    + rewrite IH. split; [intros H [Heq | Hin]; congruence | tauto].
Qed.

(** A write keeps the keys where they are, or appends a fresh one. *)
Lemma keys_mapSet (k : string) (e : Event) (m : Ledger) :
  map fst (mapSet Cost k e m)
  = match mapGet Cost k m with
    | Some _ => map fst m
    | None => map fst m ++ [k]
    end.
Proof.
  induction m as [| [k' e'] m IH]; cbn.
  - reflexivity.
  - destruct (String.eqb_spec k k') as [-> | Hk]; cbn.
    + reflexivity.
    + rewrite IH. destruct (mapGet Cost k m); reflexivity.
Qed.

Lemma NoDup_keys_mapSet (k : string) (e : Event) (m : Ledger) :
  NoDup (map fst m) -> NoDup (map fst (mapSet Cost k e m)).
Proof.
  intros Hnd. rewrite keys_mapSet.
  destruct (mapGet Cost k m) eqn:Hget; [exact Hnd |].
  apply mapGet_None_keys in Hget.
  apply NoDup_ListNoDup. apply NoDup_ListNoDup in Hnd.
  apply Permutation_NoDup with (l := k :: map fst m).
  - apply Permutation_cons_append.
  - constructor; assumption.
Qed.

Lemma mapGet_In (k : string) (e : Event) (m : Ledger) :
  mapGet Cost k m = Some e -> In (k, e) m.
Proof.
  induction m as [| [k' e'] m IH]; cbn; [discriminate |].
  destruct (String.eqb_spec k k') as [-> | Hk].
  - intros [= ->]. auto.
  - auto.
Qed.

Lemma In_mapGet (k : string) (e : Event) (m : Ledger) :
  NoDup (map fst m) -> In (k, e) m -> mapGet Cost k m = Some e.
Proof.
  induction m as [| [k' e'] m IH]; cbn; [tauto |].
  intros Hnd%NoDup_ListNoDup [Heq | Hin].
  - injection Heq as -> ->. rewrite String.eqb_refl. reflexivity.
  - inversion Hnd as [| ? ? Hnotin Hnd']; subst.
    destruct (String.eqb_spec k k') as [-> | Hk].
    + exfalso. apply Hnotin. apply (in_map fst) in Hin. exact Hin.
    + apply IH; [apply NoDup_ListNoDup; exact Hnd' | exact Hin].
Qed.

End EventMapFacts.

Section LedgerFacts.

Import Billing.

Variable extract : value -> StandardizedTokenUsage.
Variable Cost : Type.
Variable calculateMessageCost :
  StandardizedTokenUsage -> string -> value -> Cost.
Variable Date_parse : string -> option Z.

Abbreviation candidate :=
  (candidateEvent extract Cost calculateMessageCost Date_parse).
Abbreviation scan :=
  (scanMessage extract Cost calculateMessageCost Date_parse).
Abbreviation ledgerMap :=
  (scanAll extract Cost calculateMessageCost Date_parse).
Abbreviation Invariant :=
  (ScanInvariant extract Cost calculateMessageCost Date_parse).
Abbreviation candidateOk := (isCandidate extract).

Lemma In_mapSet (k k' : string) (e e' : BillingEvent Cost)
  (m : list (string * BillingEvent Cost)) :
  In (k', e') (mapSet Cost k e m) -> (k' = k /\ e' = e) \/ In (k', e') m.
Proof.
  induction m as [| [k0 e0] m IH]; cbn.
  - intros [[= <- <-] | []]. auto.
  - destruct (String.eqb_spec k k0) as [-> | Hk]; cbn.
    + intros [[= <- <-] | Hin]; auto.
    + intros [Heq | Hin]; [auto |]. apply IH in Hin. tauto.
Qed.

Lemma outranks_refl (e : BillingEvent Cost) : outranks Cost e e.
Proof. unfold outranks. lia. Qed.

(** A candidate that is written outranks whatever the entry it replaces
    outranked, provided it was scanned later. *)
Lemma supersedes_outranks (c ex old : BillingEvent Cost) :
  supersedes Cost c (Some ex) = true ->
  outranks Cost ex old ->
  (order Cost old <= order Cost c)%nat ->
  outranks Cost c old.
Proof.
  unfold supersedes, outranks. intros Hsup (Htok & Hts) Hord.
  apply orb_true_iff in Hsup as [Hlt%Z.ltb_lt | Heq].
  - lia.
  - apply andb_true_iff in Heq as [Heq%Z.eqb_eq Hle%Z.leb_le].
    split; [lia |]. intros Hsame.
    destruct Hts as [Hms Hsc]; lia.
Qed.

(** A candidate that is not written is outranked by the entry. *)
Lemma not_supersedes_outranks (c ex : BillingEvent Cost) :
  supersedes Cost c (Some ex) = false -> outranks Cost ex c.
Proof.
  unfold supersedes, outranks. intros Hsup.
  apply orb_false_iff in Hsup as [Hlt%Z.ltb_ge Heq].
  apply andb_false_iff in Heq as [Hne%Z.eqb_neq | Hgt%Z.leb_gt]; lia.
Qed.

Lemma key_candidate (msg : value) (i : nat) :
  key Cost (candidate msg i) = getBillingKey msg i.
Proof. reflexivity. Qed.

Lemma order_candidate (msg : value) (i : nat) :
  order Cost (candidate msg i) = i.
Proof. reflexivity. Qed.

Lemma scan_skips (m : list (string * BillingEvent Cost)) (x : value) (n : nat) :
  candidateOk x = false -> scan m x n = m.
Proof.
  unfold isCandidate, scanMessage. intros H.
  destruct (isBillable x); cbn in *; [| reflexivity].
  apply negb_false_iff in H. rewrite H. reflexivity.
Qed.

Lemma scan_candidate (m : list (string * BillingEvent Cost)) (x : value) (n : nat) :
  candidateOk x = true ->
  scan m x n
  = if supersedes Cost (candidate x n) (mapGet Cost (getBillingKey x n) m)
    then mapSet Cost (getBillingKey x n) (candidate x n) m
    else m.
Proof.
  unfold isCandidate, scanMessage. intros H.
  apply andb_true_iff in H as [Hb Hz]. rewrite Hb. cbn.
  apply negb_true_iff in Hz. rewrite Hz. reflexivity.
Qed.

(** One step of the scan maintains the invariant. *)
Lemma scan_step (scanned : list value) (x : value)
  (m : list (string * BillingEvent Cost)) :
  Invariant scanned m ->
  Invariant (scanned ++ [x]) (scan m x (length scanned)).
Proof.
  intros [Hkeys Hsound Hcomplete].
  assert (Hsound' : forall k s, In (k, s) m ->
            exists i msg, (scanned ++ [x]) !! i = Some msg
              /\ candidateOk msg = true
              /\ s = candidate msg i /\ k = getBillingKey msg i).
  { intros k s Hin. destruct (Hsound k s Hin) as (i & msg & Hi & Hrest).
    exists i, msg. split; [apply lookup_app_l_Some; exact Hi | exact Hrest]. }
  assert (Hlast : forall i msg, (scanned ++ [x]) !! i = Some msg ->
            scanned !! i = Some msg \/ (i = length scanned /\ msg = x)).
  { intros i msg Hi. apply lookup_app_Some in Hi as [Hi | [Hge Hi]]; [auto |].
    right. apply list_lookup_singleton_Some in Hi as [Hz ->].
    split; [lia | reflexivity]. }
  destruct (candidateOk x) eqn:Hcand.
  2:{ rewrite scan_skips by exact Hcand. split; [exact Hkeys | exact Hsound' |].
      intros i msg Hi Hok. apply Hlast in Hi as [Hi | [-> ->]].
      - apply Hcomplete; assumption.
      - congruence. }
  rewrite scan_candidate by exact Hcand.
  set (k := getBillingKey x (length scanned)).
  set (c := candidate x (length scanned)).
  destruct (mapGet Cost k m) as [ex |] eqn:Hget.
  - (* the key is taken *)
    destruct (supersedes Cost c (Some ex)) eqn:Hsup.
    + split.
      * apply NoDup_keys_mapSet. exact Hkeys.
      * intros k' s Hin. apply In_mapSet in Hin as [[-> ->] | Hin].
        -- exists (length scanned), x. split; [| auto].
           apply lookup_app_Some. right. split; [lia |].
           rewrite Nat.sub_diag. reflexivity.
        -- apply Hsound'. exact Hin.
      * intros i msg Hi Hok. apply Hlast in Hi as [Hi | [-> ->]].
        -- destruct (Hcomplete i msg Hi Hok) as (s & Hs & Hout).
           destruct (String.eqb_spec k (getBillingKey msg i)) as [Hk | Hk].
           ++ exists c. rewrite <- Hk. split; [apply mapGet_mapSet_same |].
              rewrite <- Hk, Hget in Hs. injection Hs as <-.
              apply supersedes_outranks with (ex := ex); [exact Hsup | exact Hout |].
              rewrite order_candidate. subst c. rewrite order_candidate.
              apply lookup_lt_Some in Hi. lia.
           ++ exists s. split; [| exact Hout].
              rewrite mapGet_mapSet_other by exact Hk. exact Hs.
        -- exists c. split; [apply mapGet_mapSet_same | apply outranks_refl].
    + split; [exact Hkeys | exact Hsound' |].
      intros i msg Hi Hok. apply Hlast in Hi as [Hi | [-> ->]].
      * apply Hcomplete; assumption.
      * exists ex. split; [exact Hget |].
        apply not_supersedes_outranks. exact Hsup.
  - (* the key is fresh *)
    cbn [supersedes]. split.
    + apply NoDup_keys_mapSet. exact Hkeys.
    + intros k' s Hin. apply In_mapSet in Hin as [[-> ->] | Hin].
      * exists (length scanned), x. split; [| auto].
        apply lookup_app_Some. right. split; [lia |].
        rewrite Nat.sub_diag. reflexivity.
      * apply Hsound'. exact Hin.
    + intros i msg Hi Hok. apply Hlast in Hi as [Hi | [-> ->]].
      * destruct (Hcomplete i msg Hi Hok) as (s & Hs & Hout).
        exists s. split; [| exact Hout].
        rewrite mapGet_mapSet_other; [exact Hs |].
        intros Hk. fold k in Hk. rewrite <- Hk, Hget in Hs. discriminate.
      * exists c. split; [apply mapGet_mapSet_same | apply outranks_refl].
Qed.

Lemma scanAll_invariant (messages : list value) :
  Invariant messages (ledgerMap messages).
Proof.
  unfold scanAll. apply forEach_invariant.
  - split.
    + constructor.
    + intros k s [].
    + intros i msg Hi. rewrite lookup_nil in Hi. discriminate.
  - intros scanned x m. apply scan_step.
Qed.

End LedgerFacts.

(** ** Sorting by a comparator *)

Section InsertionSortFacts.

Import Billing.

Context {A : Type} (compare : A -> A -> Z) (R : A -> A -> Prop).

Hypothesis R_trans : forall a b c, R a b -> R b c -> R a c.
Hypothesis below : forall x e, compare x e < 0 -> R x e.
Hypothesis not_below : forall x e, ~ compare x e < 0 -> R e x.

Lemma insertBy_perm (x : A) (l : list A) :
  Permutation (insertBy compare x l) (x :: l).
Proof.
  induction l as [| e l IH]; cbn.
  - reflexivity.
  - destruct (compare x e <? 0).
    + reflexivity.
    + rewrite IH. apply perm_swap.
Qed.

Lemma sortBy_perm (l : list A) : Permutation (sortBy compare l) l.
Proof.
  unfold sortBy.
  enough (H : forall acc,
             Permutation
               (fold_left (fun sorted x => insertBy compare x sorted) l acc)
               (acc ++ l)) by apply (H []).
  induction l as [| x l IH]; intros acc; cbn.
  - rewrite app_nil_r. reflexivity.
  - rewrite IH, insertBy_perm. apply Permutation_middle.
Qed.

Lemma insertBy_sorted (x : A) (l : list A) :
  StronglySorted R l -> StronglySorted R (insertBy compare x l).
Proof.
  induction 1 as [| e l Hsorted IH Hall]; cbn.
  - repeat constructor.
  - destruct (Z.ltb_spec (compare x e) 0) as [Hlt | Hge].
    + constructor; [constructor; assumption |].
      constructor; [apply below; exact Hlt |].
      eapply List.Forall_impl; [| exact Hall].
      intros y Hy. apply R_trans with e; [apply below; exact Hlt | exact Hy].
    + constructor; [exact IH |].
      apply List.Forall_forall. intros y Hy.
      apply (Permutation_in _ (insertBy_perm x l)) in Hy as [<- | Hy].
      * apply not_below. lia.
      * revert y Hy. apply List.Forall_forall. exact Hall.
Qed.

Lemma sortBy_sorted (l : list A) : StronglySorted R (sortBy compare l).
Proof.
  unfold sortBy.
  enough (H : forall acc, StronglySorted R acc ->
             StronglySorted R
               (fold_left (fun sorted x => insertBy compare x sorted) l acc))
    by (apply H; constructor).
  induction l as [| x l IH]; intros acc Hacc; cbn.
  - exact Hacc.
  - apply IH. apply insertBy_sorted. exact Hacc.
Qed.

Lemma StronglySorted_lookup (l : list A) (i j : nat) (a b : A) :
  StronglySorted R l -> (i < j)%nat ->
  l !! i = Some a -> l !! j = Some b -> R a b.
Proof.
  intros Hsorted. revert i j.
  induction Hsorted as [| e l Hsorted IH Hall]; intros i j Hlt Hi Hj.
  - rewrite lookup_nil in Hi. discriminate.
  - destruct j as [| j]; [lia |]. cbn in Hj.
    destruct i as [| i]; cbn in Hi.
    + injection Hi as <-.
      apply (proj1 (List.Forall_forall _ _) Hall).
      apply list_elem_of_In. eapply list_elem_of_lookup_2. exact Hj.
    + apply (IH i j); [lia | assumption | assumption].
Qed.

End InsertionSortFacts.

Section LedgerTheorems.

Import Billing.

Variable extract : value -> StandardizedTokenUsage.
Variable Cost : Type.
Variable cost_zero : Cost.
Variable cost_add : Cost -> Cost -> Cost.
Variable calculateMessageCost :
  StandardizedTokenUsage -> string -> value -> Cost.
Variable Date_parse : string -> option Z.

Abbreviation candidate' :=
  (candidateEvent extract Cost calculateMessageCost Date_parse).
Abbreviation ledgerMap' :=
  (scanAll extract Cost calculateMessageCost Date_parse).
Abbreviation aggregate' :=
  (aggregateSessionCost extract Cost cost_zero cost_add calculateMessageCost
     Date_parse).

Lemma events_perm (messages : list value) :
  Permutation (events Cost (aggregate' messages))
    (mapValues Cost (ledgerMap' messages)).
Proof. cbn. apply sortBy_perm. Qed.

Lemma ledger_keys (messages : list value) :
  map (key Cost) (mapValues Cost (ledgerMap' messages))
  = map fst (ledgerMap' messages).
Proof.
  destruct (scanAll_invariant extract Cost calculateMessageCost Date_parse
              messages) as [_ Hsound _].
  unfold mapValues. rewrite List.map_map. apply List.map_ext_in.
  intros [k s] Hin. destruct (Hsound k s Hin) as (i & msg & _ & _ & -> & ->).
  reflexivity.
Qed.

(** Distinct entries of the map were scanned at distinct positions. *)
Lemma ledger_orders_NoDup (messages : list value) :
  NoDup (map (order Cost) (mapValues Cost (ledgerMap' messages))).
Proof.
  destruct (scanAll_invariant extract Cost calculateMessageCost Date_parse
              messages) as [Hkeys Hsound _].
  unfold mapValues. rewrite List.map_map.
  set (m := ledgerMap' messages) in *. clearbody m.
  induction m as [| [k s] m IH]; cbn.
  - constructor.
  - apply NoDup_cons in Hkeys as [Hfresh Hkeys]. apply NoDup_cons. split.
    + intros Hin. apply list_elem_of_In, in_map_iff in Hin
        as ([k' s'] & Horder & Hin'). cbn in Horder.
      destruct (Hsound k s (or_introl eq_refl))
        as (i & msg & Hi & _ & Hs & Hk).
      destruct (Hsound k' s' (or_intror Hin'))
        as (i' & msg' & Hi' & _ & Hs' & Hk').
      subst s s'. cbn in Horder. subst i'.
      assert (msg' = msg) by congruence. subst msg'.
      apply Hfresh. apply list_elem_of_In.
      apply (in_map fst) in Hin'. cbn in Hin'.
      change (In k (map fst m)). rewrite Hk, <- Hk'. exact Hin'.
    + apply IH; [exact Hkeys |].
      intros k' s' Hin. apply Hsound. right. exact Hin.
Qed.

(** C1. The ledger holds at most one event per deduplication key, every
    event in it is the candidate of a scanned billable message, and the
    event under a key outranks every candidate that shares the key: it has
    the greatest total-token count; among candidates of that count it has
    the latest timestamp; and among those that also tie on the timestamp,
    or all lack one, it is the one scanned last. *)
Theorem C1_ledger_dedup (messages : list value) :
  let ledger := events Cost (aggregate' messages) in
  NoDup (map (key Cost) ledger)
  /\ (forall s, In s ledger ->
        exists i msg,
          messages !! i = Some msg /\ isCandidate extract msg = true
          /\ s = candidate' msg i)
  /\ (forall i msg,
        messages !! i = Some msg -> isCandidate extract msg = true ->
        exists s,
          In s ledger /\ key Cost s = getBillingKey msg i
          /\ totalTokenCount Cost (candidate' msg i) <= totalTokenCount Cost s
          /\ (totalTokenCount Cost (candidate' msg i) = totalTokenCount Cost s ->
              msOrZero Cost (candidate' msg i) <= msOrZero Cost s
              /\ (forall tc ts,
                     timestampMs Cost (candidate' msg i) = Some tc ->
                     timestampMs Cost s = Some ts -> tc <= ts)
              /\ (timestampMs Cost (candidate' msg i) = timestampMs Cost s ->
                  (i <= order Cost s)%nat))).
Proof.
  cbv zeta.
  pose proof (events_perm messages) as Hperm.
  destruct (scanAll_invariant extract Cost calculateMessageCost Date_parse
              messages) as [Hkeys Hsound Hcomplete].
  split; [| split].
  - rewrite Hperm, ledger_keys. exact Hkeys.
  - intros s Hin. apply (Permutation_in _ Hperm) in Hin.
    apply in_map_iff in Hin as ([k s'] & <- & Hin).
    destruct (Hsound k s' Hin) as (i & msg & Hi & Hok & Hs & _). eauto.
  - intros i msg Hi Hok.
    destruct (Hcomplete i msg Hi Hok) as (s & Hget & Htok & Hties).
    exists s. split.
    { apply (Permutation_in _ (Permutation_sym Hperm)).
      apply mapGet_In in Hget. apply (in_map snd) in Hget. exact Hget. }
    split.
    { apply mapGet_In in Hget.
      destruct (Hsound _ s Hget) as (i' & msg' & _ & _ & -> & ->).
      reflexivity. }
    split; [exact Htok |].
    intros Heq. destruct (Hties Heq) as [Hms Hscan].
    split; [exact Hms |]. split.
    + intros tc ts Hc Hs. unfold msOrZero in Hms. rewrite Hc, Hs in Hms.
      exact Hms.
    + intros Hsame. apply Hscan. unfold msOrZero. rewrite Hsame. reflexivity.
Qed.

Lemma sortsBefore_trans (a b c : BillingEvent Cost) :
  sortsBefore Cost a b -> sortsBefore Cost b c -> sortsBefore Cost a c.
Proof.
  unfold sortsBefore.
  destruct (timestampMs Cost a), (timestampMs Cost b), (timestampMs Cost c);
    try tauto; lia.
Qed.

Lemma compareEvents_below (a b : BillingEvent Cost) :
  compareEvents Cost a b < 0 -> sortsBefore Cost a b.
Proof.
  unfold compareEvents, sortsBefore.
  destruct (timestampMs Cost a) as [ta |], (timestampMs Cost b) as [tb |];
    try tauto; try lia.
  destruct (Z.eqb_spec ta tb); cbn; lia.
Qed.

Lemma compareEvents_not_below (a b : BillingEvent Cost) :
  ~ compareEvents Cost a b < 0 -> sortsBefore Cost b a.
Proof.
  unfold compareEvents, sortsBefore.
  destruct (timestampMs Cost a) as [ta |], (timestampMs Cost b) as [tb |];
    try tauto; try lia.
  destruct (Z.eqb_spec ta tb); cbn; lia.
Qed.

Lemma events_sorted (messages : list value) :
  StronglySorted (sortsBefore Cost) (events Cost (aggregate' messages)).
Proof.
  cbn. apply sortBy_sorted.
  - exact sortsBefore_trans.
  - exact compareEvents_below.
  - exact compareEvents_not_below.
Qed.

(** C7. In the final event list, of two events the earlier-placed one [a]
    and the later-placed one [b]: when both have a timestamp, [a]'s is not
    after [b]'s; [a] lacks a timestamp only if [b] lacks one too, so an
    event with a timestamp stands before every event without; and when
    both lack one, [a] was scanned before [b]. *)
Theorem C7_ledger_order (messages : list value) (i j : nat)
  (a b : BillingEvent Cost) :
  (i < j)%nat ->
  events Cost (aggregate' messages) !! i = Some a ->
  events Cost (aggregate' messages) !! j = Some b ->
  (forall ta tb,
      timestampMs Cost a = Some ta -> timestampMs Cost b = Some tb -> ta <= tb)
  /\ (timestampMs Cost a = None -> timestampMs Cost b = None)
  /\ (timestampMs Cost a = None -> timestampMs Cost b = None ->
      (order Cost a < order Cost b)%nat).
Proof.
  intros Hlt Hi Hj.
  pose proof (StronglySorted_lookup (sortsBefore Cost) _ i j a b
                (events_sorted messages) Hlt Hi Hj) as Hab.
  unfold sortsBefore in Hab.
  split; [| split].
  - intros ta tb Ha Hb. rewrite Ha, Hb in Hab. exact Hab.
  - intros Ha. rewrite Ha in Hab.
    destruct (timestampMs Cost b); [contradiction | reflexivity].
  - intros Ha Hb. rewrite Ha, Hb in Hab.
    assert (Hnd : NoDup (map (order Cost) (events Cost (aggregate' messages)))).
    { rewrite (events_perm messages). apply ledger_orders_NoDup. }
    assert (Hne : order Cost a <> order Cost b).
    { intros Heq.
      assert (i = j); [| lia].
      apply (NoDup_lookup _ i j (order Cost a) Hnd).
      - rewrite list_lookup_fmap, Hi. reflexivity.
      - rewrite list_lookup_fmap, Hj, Heq. reflexivity. }
    lia.
Qed.

End LedgerTheorems.

Section LedgerScenario.

Import Billing Scenarios.

(** The ledger of [billedTurns]: the first snapshot of [msg_1] is
    represented by a survivor with at least its fifteen tokens. *)
Lemma C1_ledger_dedup_witness :
  exists s,
    In s (events Z (aggregateSessionCost usageTokens Z 0 Z.add unitCost
                      parseMillis billedTurns))
    /\ key Z s = "message:msg_1"
    /\ 15 <= totalTokenCount Z s.
Proof.
  destruct (C1_ledger_dedup usageTokens Z 0 Z.add unitCost parseMillis
              billedTurns) as (_ & _ & Hsurvivor).
  destruct (Hsurvivor 0%nat (assistantTurn "msg_1" 10 5 (Str "2000"))
              eq_refl eq_refl) as (s & Hin & Hkey & Htok & _).
  exists s. split; [exact Hin |]. split; [exact Hkey | exact Htok].
Defined.

(** The first two events of that ledger: [msg_4], stamped 1000 and scanned
    last, stands before the survivor of [msg_1], stamped 3000. *)
Lemma C7_ledger_order_witness :
  let a := candidateEvent usageTokens Z unitCost parseMillis
             (assistantTurn "msg_4" 4 4 (Str "1000")) 4 in
  let b := candidateEvent usageTokens Z unitCost parseMillis
             (assistantTurn "msg_1" 10 9 (Str "3000")) 1 in
  (forall ta tb,
      timestampMs Z a = Some ta -> timestampMs Z b = Some tb -> ta <= tb)
  /\ (timestampMs Z a = None -> timestampMs Z b = None)
  /\ (timestampMs Z a = None -> timestampMs Z b = None ->
      (order Z a < order Z b)%nat).
Proof.
  cbv zeta.
  apply (C7_ledger_order usageTokens Z 0 Z.add unitCost parseMillis
           billedTurns 0 1); [lia | reflexivity | reflexivity].
Defined.

(** The whole ledger of [billedTurns], as keys, token counts, timestamps
    and scan positions. *)
Example billedTurns_ledger :
  map (fun e => (key Z e, totalTokenCount Z e, timestampMs Z e, order Z e))
    (events Z (aggregateSessionCost usageTokens Z 0 Z.add unitCost
                 parseMillis billedTurns))
  = [("message:msg_4", 8, Some 1000, 4%nat);
     ("message:msg_1", 19, Some 3000, 1%nat);
     ("message:msg_2", 2, None, 2%nat);
     ("message:msg_3", 4, None, 3%nat)].
Proof. reflexivity. Qed.

End LedgerScenario.

(** ** Classification of technical messages *)

Section ClassificationFacts.

Import Grouping Shapes.

Lemma is_str_unique (v : value) (a b : string) :
  is_str v a = true -> is_str v b = true -> a = b.
Proof.
  destruct v; cbn; try discriminate.
  intros Ha%String.eqb_eq Hb%String.eqb_eq. congruence.
Qed.

Lemma is_str_other (v : value) (a b : string) :
  is_str v a = true -> a <> b -> is_str v b = false.
Proof.
  intros Ha Hne. destruct (is_str v b) eqn:Hb; [| reflexivity].
  exfalso. apply Hne. exact (is_str_unique v a b Ha Hb).
Qed.

(** The flags of the content scan are the three block tests. *)
Lemma scanItem_flags (item : value) (hasThinking hasTool hasText : bool) :
  scanItem (hasThinking, hasTool, hasText) item
  = (hasThinking || isThinkingItem item,
     hasTool || isToolItem item,
     hasText || isNarrativeItem item).
Proof.
  unfold scanItem, isThinkingItem, isToolItem, isNarrativeItem.
  destruct (is_str (get item "type") "thinking") eqn:Hth.
  { rewrite (is_str_other _ _ "tool_use" Hth), (is_str_other _ _ "tool_result" Hth),
      (is_str_other _ _ "text" Hth) by discriminate.
    cbn. rewrite !orb_false_r, orb_true_r. reflexivity. }
  destruct (is_str (get item "type") "tool_use") eqn:Htu.
  { rewrite (is_str_other _ _ "text" Htu) by discriminate.
    cbn. rewrite !orb_false_r, orb_true_r. reflexivity. }
  destruct (is_str (get item "type") "tool_result") eqn:Htr.
  { rewrite (is_str_other _ _ "text" Htr) by discriminate.
    cbn. rewrite !orb_false_r, orb_true_r. reflexivity. }
  destruct (is_str (get item "type") "text") eqn:Htx; cbn.
  - destruct (get item "text") as [| | | | t | |];
      rewrite ?orb_false_r; try reflexivity.
    destruct (nonblank t); rewrite ?orb_false_r, ?orb_true_r; reflexivity.
  - rewrite !orb_false_r. reflexivity.
Qed.

Lemma scan_flags (content : list value) (hasThinking hasTool hasText : bool) :
  fold_left scanItem content (hasThinking, hasTool, hasText)
  = (hasThinking || existsb isThinkingItem content,
     hasTool || existsb isToolItem content,
     hasText || existsb isNarrativeItem content).
Proof.
  revert hasThinking hasTool hasText.
  induction content as [| item content IH]; intros a b c;
    cbn [fold_left existsb].
  - rewrite !orb_false_r. reflexivity.
  - rewrite scanItem_flags, IH, !orb_assoc. reflexivity.
Qed.

(** Outside the [thinking] kind, the classification is decided by the
    three block tests on an assistant message. *)
Lemma getTechnicalMessageType_blocks (m : ClaudeStreamMessage) :
  is_str (get m "type") "thinking" = false ->
  getTechnicalMessageType m
  = if negb (is_str (get m "type") "assistant") then None
    else if hasNarrativeText m then None
    else if isMixed m then None
    else if existsb isThinkingItem (contentItems m) then Some AggThinking
    else if existsb isToolItem (contentItems m) then Some AggTool
    else None.
Proof.
  intros Hkind. unfold getTechnicalMessageType, hasNarrativeText, isMixed,
    contentItems.
  rewrite Hkind. destruct (negb _); [reflexivity |].
  destruct (get (get m "message") "content"); try reflexivity.
  rewrite scan_flags. cbn [orb]. reflexivity.
Qed.

Lemma narrative_not_technical (m : ClaudeStreamMessage) :
  is_str (get m "type") "thinking" = false ->
  hasNarrativeText m = true \/ isMixed m = true ->
  getTechnicalMessageType m = None.
Proof.
  intros Hkind Hshape. rewrite getTechnicalMessageType_blocks by exact Hkind.
  destruct (negb _); [reflexivity |].
  destruct (hasNarrativeText m); [reflexivity |].
  destruct Hshape as [Hn | ->]; [discriminate | reflexivity].
Qed.

End ClassificationFacts.

(** ** The compaction pass *)

Section CompactionFacts.

Import Grouping Shapes.

Lemma AggType_eqb_eq (a b : AggType) : AggType_eqb a b = true -> a = b.
Proof. destruct a, b; cbn; congruence. Qed.

Lemma In_closeAggregation (g : MessageGroup) (finalGroups : list MessageGroup)
  (cur : option Aggregation) :
  In g (closeAggregation finalGroups cur)
  <-> In g finalGroups
      \/ exists agg, cur = Some agg
                     /\ g = GAggregated (agg_messages agg) (agg_startIndex agg).
Proof.
  unfold closeAggregation. destruct cur as [agg |].
  - rewrite in_app_iff. cbn. split.
    + intros [H | [<- | []]]; eauto.
    + intros [H | (agg' & [= <-] & ->)]; auto.
  - split; [auto | intros [H | (agg & Hc & _)]; [exact H | discriminate]].
Qed.

Lemma aggregateStep_invariant
  (st : list MessageGroup * option Aggregation) (g : MessageGroup) :
  isIntermediate g = true ->
  CompactionInvariant st -> CompactionInvariant (aggregateStep st g).
Proof.
  destruct st as [finalGroups cur]. intros Hg [Hfinal Hcur]. cbn in Hfinal, Hcur.
  assert (Hclosed : forall ms idx,
             In (GAggregated ms idx) (closeAggregation finalGroups cur) ->
             exists ty, uniformRun ty ms).
  { intros ms idx Hin. apply In_closeAggregation in Hin
      as [Hin | (agg & -> & [= -> ->])]; eauto. }
  destruct g as [msg index | group | ms idx]; [| | discriminate]; cbn.
  - destruct (getTechnicalMessageType msg) as [msgType |] eqn:Hty.
    + destruct cur as [agg |].
      * destruct (AggType_eqb (aggType agg) msgType) eqn:Heq.
        -- apply AggType_eqb_eq in Heq. split; cbn; [exact Hfinal |].
           intros agg' [= <-]. cbn. apply Forall_app.
           split; [apply Hcur; reflexivity |].
           constructor; [congruence | constructor].
        -- split; cbn; [exact Hclosed |].
           intros agg' [= <-]. cbn. constructor; [exact Hty | constructor].
      * split; cbn; [exact Hfinal |].
        intros agg' [= <-]. cbn. constructor; [exact Hty | constructor].
    + split; cbn; [| discriminate].
      intros ms idx Hin. apply in_app_iff in Hin as [Hin | [Hin | []]];
        [eauto | discriminate].
  - split; cbn; [| discriminate].
    intros ms idx Hin. apply in_app_iff in Hin as [Hin | [Hin | []]];
      [eauto | discriminate].
Qed.

Lemma fold_aggregateStep_invariant (l : list MessageGroup)
  (st : list MessageGroup * option Aggregation) :
  forallb isIntermediate l = true ->
  CompactionInvariant st ->
  CompactionInvariant (fold_left aggregateStep l st).
Proof.
  revert st. induction l as [| g l IH]; intros st Hl Hst; cbn.
  - exact Hst.
  - cbn in Hl. apply andb_true_iff in Hl as [Hg Hl].
    apply IH; [exact Hl |]. apply aggregateStep_invariant; assumption.
Qed.

(** Every aggregate of the compacted sequence is a uniform run. *)
Lemma aggregateTechnical_uniform (l : list MessageGroup)
  (ms : list ClaudeStreamMessage) (idx : nat) :
  forallb isIntermediate l = true ->
  In (GAggregated ms idx) (aggregateTechnical l) ->
  exists ty, uniformRun ty ms.
Proof.
  intros Hl Hin. unfold aggregateTechnical in Hin.
  assert (Hinv : CompactionInvariant (fold_left aggregateStep l ([], None))).
  { apply fold_aggregateStep_invariant; [exact Hl |].
    split; cbn; [intros ? ? [] | discriminate]. }
  destruct (fold_left aggregateStep l ([], None)) as [finalGroups cur].
  destruct Hinv as [Hfinal Hcur]. cbn in Hfinal, Hcur.
  apply In_closeAggregation in Hin as [Hin | (agg & -> & [= -> ->])]; eauto.
Qed.

(** Emitted nodes stay emitted. *)
Lemma aggregateStep_keeps (st : list MessageGroup * option Aggregation)
  (g g' : MessageGroup) :
  In g (fst st) -> In g (fst (aggregateStep st g')).
Proof.
  destruct st as [finalGroups cur]. cbn. intros Hin.
  assert (Hclosed : In g (closeAggregation finalGroups cur))
    by (apply In_closeAggregation; auto).
  destruct g' as [msg index | group | ms idx]; cbn.
  - destruct (getTechnicalMessageType msg); [| apply in_app_iff; auto].
    destruct cur as [agg |]; [| exact Hin].
    destruct (AggType_eqb _ _); [exact Hin | exact Hclosed].
  - apply in_app_iff; auto.
  - apply in_app_iff; auto.
Qed.

Lemma fold_aggregateStep_keeps (l : list MessageGroup)
  (st : list MessageGroup * option Aggregation) (g : MessageGroup) :
  In g (fst st) -> In g (fst (fold_left aggregateStep l st)).
Proof.
  revert st. induction l as [| g' l IH]; intros st Hin; cbn.
  - exact Hin.
  - apply IH. apply aggregateStep_keeps. exact Hin.
Qed.

(** A normal node whose message is not aggregable passes through. *)
Lemma aggregateTechnical_passes (l : list MessageGroup)
  (m : ClaudeStreamMessage) (i : nat) :
  getTechnicalMessageType m = None ->
  In (GNormal m i) l -> In (GNormal m i) (aggregateTechnical l).
Proof.
  intros Hty Hin. unfold aggregateTechnical.
  enough (H : forall st, In (GNormal m i) (fst (fold_left aggregateStep l st))).
  { specialize (H ([], None)).
    destruct (fold_left aggregateStep l ([], None)) as [finalGroups cur].
    apply In_closeAggregation. auto. }
  induction l as [| g l IH]; intros st; [destruct Hin |].
  destruct Hin as [-> | Hin]; cbn [fold_left].
  - apply fold_aggregateStep_keeps. destruct st as [finalGroups cur].
    cbn. rewrite Hty. cbn. apply in_app_iff. cbn. auto.
  - apply IH. exact Hin.
Qed.

End CompactionFacts.

(** ** The first three passes *)

Section IntermediateFacts.

Import Grouping Shapes.

Lemma recordTask_indexToTaskIds (message : ClaudeStreamMessage) (index : nat)
  (details : gmap string value) (taskIds : list string) (st : TaskScan) :
  indexToTaskIds (fold_left (recordTask message index details) taskIds st)
  = indexToTaskIds st.
Proof.
  revert st. induction taskIds as [| taskId taskIds IH]; intros st; cbn.
  - reflexivity.
  - rewrite IH. reflexivity.
Qed.

(** After the first pass, the ids recorded for an index are the Task ids
    of the message at that index. *)
Lemma indexToTaskIds_spec (messages : list ClaudeStreamMessage) (i : nat) :
  default [] (indexToTaskIds (forEach scanTasks messages emptyScan) !! i)
  = match messages !! i with
    | Some m => extractTaskToolUseIds m
    | None => []
    end.
Proof.
  revert i.
  apply (forEach_invariant scanTasks
           (fun scanned st => forall i,
                default [] (indexToTaskIds st !! i)
                = match scanned !! i with
                  | Some m => extractTaskToolUseIds m
                  | None => []
                  end)).
  - intros i. unfold emptyScan. cbn [indexToTaskIds].
    rewrite lookup_nil, lookup_empty. reflexivity.
  - intros scanned x st IH i. unfold scanTasks.
    destruct (extractTaskToolUseIds x) as [| id ids] eqn:Hids; cbn [length Nat.ltb Nat.leb].
    + destruct (decide (i = length scanned)) as [-> | Hne].
      * rewrite IH, lookup_ge_None_2 by lia.
        rewrite lookup_app_r, Nat.sub_diag by lia. cbn. auto.
      * rewrite IH. destruct (decide (i < length scanned)%nat).
        -- rewrite lookup_app_l by lia. reflexivity.
        -- rewrite !lookup_ge_None_2; [reflexivity | | lia].
           rewrite length_app. cbn. lia.
    + rewrite recordTask_indexToTaskIds. cbn [indexToTaskIds].
      destruct (decide (i = length scanned)) as [-> | Hne].
      * rewrite lookup_insert_eq, lookup_app_r, Nat.sub_diag by lia.
        cbn. auto.
      * rewrite lookup_insert_ne by congruence. rewrite IH.
        destruct (decide (i < length scanned)%nat).
        -- rewrite lookup_app_l by lia. reflexivity.
        -- rewrite !lookup_ge_None_2; [reflexivity | | lia].
           rewrite length_app. cbn. lia.
Qed.

(** The processed indices are those of the messages whose parent id has a
    collected group. *)
Lemma processedIndices_spec (groups : gmap string SubagentGroup)
  (messages : list ClaudeStreamMessage) (i : nat) :
  i ∈ forEach (markProcessed groups) messages ∅
  <-> exists m, messages !! i = Some m
                /\ hasGroupFor groups (getParentToolUseId m) = true.
Proof.
  revert i.
  apply (forEach_invariant (markProcessed groups)
           (fun scanned (st : gset nat) => forall i,
                i ∈ st <-> exists m, scanned !! i = Some m
                  /\ hasGroupFor groups (getParentToolUseId m) = true)).
  - intros i. split; [set_solver |]. intros (m & Hm & _).
    rewrite lookup_nil in Hm. discriminate.
  - intros scanned x st IH i. unfold markProcessed.
    assert (Hsplit : forall m, (scanned ++ [x]) !! i = Some m
              <-> scanned !! i = Some m \/ (i = length scanned /\ m = x)).
    { intros m. rewrite lookup_app_Some, list_lookup_singleton_Some.
      split; [intros [H | [H1 [H2 H3]]] | intros [H | [-> ->]]]; auto.
      - right. split; [lia | congruence].
      - right. split; [lia |]. rewrite Nat.sub_diag. auto. }
    destruct (hasGroupFor groups (getParentToolUseId x)) eqn:Hx.
    + rewrite elem_of_union, elem_of_singleton, IH. split.
      * intros [-> | (m & Hm & Hg)].
        -- exists x. split; [apply Hsplit; auto | exact Hx].
        -- exists m. split; [apply Hsplit; auto | exact Hg].
      * intros (m & Hm & Hg). apply Hsplit in Hm as [Hm | [-> ->]]; eauto.
    + rewrite IH. split.
      * intros (m & Hm & Hg). exists m. split; [apply Hsplit; auto | exact Hg].
      * intros (m & Hm & Hg). apply Hsplit in Hm as [Hm | [-> ->]]; [eauto |].
        congruence.
Qed.

Section ThirdPass.

Variable groups : gmap string SubagentGroup.
Variable processed : gset nat.
Variable taskIdsAt : gmap nat (list string).

Abbreviation build := (buildIntermediate groups processed taskIdsAt).

Lemma emitTaskGroup_keeps (taskIds : list string)
  (st : gset string * list MessageGroup) (g : MessageGroup) :
  In g (snd st) -> In g (snd (fold_left (emitTaskGroup groups) taskIds st)).
Proof.
  revert st. induction taskIds as [| id ids IH]; intros st Hin; cbn.
  - exact Hin.
  - apply IH. unfold emitTaskGroup. destruct (groups !! id); [| exact Hin].
    destruct (bool_decide _); [exact Hin |]. cbn. apply in_app_iff. auto.
Qed.

Lemma emitTaskGroup_intermediate (taskIds : list string)
  (st : gset string * list MessageGroup) :
  forallb isIntermediate (snd st) = true ->
  forallb isIntermediate (snd (fold_left (emitTaskGroup groups) taskIds st))
  = true.
Proof.
  revert st. induction taskIds as [| id ids IH]; intros st Hst; cbn.
  - exact Hst.
  - apply IH. unfold emitTaskGroup. destruct (groups !! id); [| exact Hst].
    destruct (bool_decide _); [exact Hst |]. cbn.
    rewrite forallb_app, Hst. reflexivity.
Qed.

Lemma build_keeps (st : gset string * list MessageGroup)
  (x : ClaudeStreamMessage) (n : nat) (g : MessageGroup) :
  In g (snd st) -> In g (snd (build st x n)).
Proof.
  intros Hin. unfold buildIntermediate.
  destruct (bool_decide _); [exact Hin |].
  destruct (0 <? _)%nat.
  - destruct (negb _); cbn; [apply in_app_iff; left |];
      apply emitTaskGroup_keeps; exact Hin.
  - cbn. apply in_app_iff. auto.
Qed.

Lemma forEachFrom_build_keeps (l : list ClaudeStreamMessage) (n : nat)
  (st : gset string * list MessageGroup) (g : MessageGroup) :
  In g (snd st) -> In g (snd (forEachFrom build l n st)).
Proof.
  revert n st. induction l as [| x l IH]; intros n st Hin; cbn.
  - exact Hin.
  - apply IH. apply build_keeps. exact Hin.
Qed.

Lemma build_intermediate (st : gset string * list MessageGroup)
  (x : ClaudeStreamMessage) (n : nat) :
  forallb isIntermediate (snd st) = true ->
  forallb isIntermediate (snd (build st x n)) = true.
Proof.
  intros Hst. unfold buildIntermediate.
  destruct (bool_decide _); [exact Hst |].
  destruct (0 <? _)%nat.
  - pose proof (emitTaskGroup_intermediate
                  (default [] (taskIdsAt !! n)) st Hst) as Hemit.
    destruct (negb _); cbn; [| exact Hemit].
    rewrite forallb_app, Hemit. reflexivity.
  - cbn. rewrite forallb_app, Hst. reflexivity.
Qed.

Lemma forEachFrom_build_intermediate (l : list ClaudeStreamMessage) (n : nat)
  (st : gset string * list MessageGroup) :
  forallb isIntermediate (snd st) = true ->
  forallb isIntermediate (snd (forEachFrom build l n st)) = true.
Proof.
  revert n st. induction l as [| x l IH]; intros n st Hst; cbn.
  - exact Hst.
  - apply IH. apply build_intermediate. exact Hst.
Qed.

(** A message that is not processed and none of whose Task ids has a
    group is emitted as a normal node at its index. *)
Lemma build_emits (st : gset string * list MessageGroup)
  (x : ClaudeStreamMessage) (n : nat) :
  n ∉ processed ->
  (forall id, In id (default [] (taskIdsAt !! n)) -> groups !! id = None) ->
  In (GNormal x n) (snd (build st x n)).
Proof.
  intros Hn Hnone. unfold buildIntermediate.
  rewrite bool_decide_eq_false_2 by exact Hn.
  destruct (0 <? _)%nat; [| cbn; apply in_app_iff; cbn; auto].
  assert (Hany : existsb (fun id => bool_decide (is_Some (groups !! id)))
                   (default [] (taskIdsAt !! n)) = false).
  { apply not_true_is_false. intros Hex.
    apply existsb_exists in Hex as (id & Hin & Hsome).
    apply bool_decide_eq_true in Hsome. rewrite (Hnone id Hin) in Hsome.
    destruct Hsome as [? ?]. discriminate. }
  rewrite Hany. cbn. apply in_app_iff. cbn. auto.
Qed.

End ThirdPass.

Lemma intermediate_nodes (messages : list ClaudeStreamMessage) :
  forallb isIntermediate (intermediateGroupsOf messages) = true.
Proof.
  unfold intermediateGroupsOf, forEach.
  apply forEachFrom_build_intermediate. reflexivity.
Qed.

Lemma intermediate_normal (messages : list ClaudeStreamMessage) (i : nat)
  (m : ClaudeStreamMessage) :
  messages !! i = Some m ->
  hasGroupFor (subagentGroupsOf messages) (getParentToolUseId m) = false ->
  (forall id, In id (extractTaskToolUseIds m) ->
              subagentGroupsOf messages !! id = None) ->
  In (GNormal m i) (intermediateGroupsOf messages).
Proof.
  intros Hi Hparent Hspawn. unfold intermediateGroupsOf.
  assert (Hproc : i ∉ processedIndicesOf messages).
  { unfold processedIndicesOf. rewrite processedIndices_spec.
    intros (m' & Hm' & Hg). congruence. }
  assert (Hids : forall id,
             In id (default [] (indexToTaskIds
                                  (forEach scanTasks messages emptyScan) !! i)) ->
             subagentGroupsOf messages !! id = None).
  { rewrite indexToTaskIds_spec, Hi. exact Hspawn. }
  set (groups := subagentGroupsOf messages) in *.
  set (processed := processedIndicesOf messages) in *.
  set (taskIdsAt := indexToTaskIds (forEach scanTasks messages emptyScan)) in *.
  clearbody groups processed taskIdsAt. unfold forEach.
  rewrite <- (take_drop_middle messages i m Hi).
  rewrite forEachFrom_app. cbn [forEachFrom].
  apply forEachFrom_build_keeps.
  assert (Hlen : (0 + length (take i messages))%nat = i).
  { rewrite length_take. apply lookup_lt_Some in Hi. lia. }
  rewrite Hlen. apply build_emits; assumption.
Qed.

End IntermediateFacts.

(** ** Narrative and mixed messages in the grouped output *)

Section NarrativeFacts.

Import Grouping Shapes Scenarios.

(** C2, as stated, fails.  A sub-agent reply with narrative text is folded
    into its sub-agent group and is no normal node of the output; so is a
    spawning message with narrative text whose spawn collected a group;
    and a record of kind [thinking] with a narrative text block is put
    into an aggregate. *)
Lemma C2_narrative_counterexample :
  ~ (forall (messages : list ClaudeStreamMessage) i m,
        messages !! i = Some m -> hasNarrativeText m = true ->
        In (GNormal m i) (groupMessages messages))
  /\ (hasNarrativeText spawnWithText = true
      /\ ~ In (GNormal spawnWithText 0)
             (groupMessages [spawnWithText; subagentReply]))
  /\ ~ (forall (messages : list ClaudeStreamMessage) i m ms idx,
        messages !! i = Some m -> hasNarrativeText m = true ->
        In (GAggregated ms idx) (groupMessages messages) -> ~ In m ms).
Proof.
  split; [| split].
  - intros Hclaim.
    specialize (Hclaim [spawnOne; subagentReply] 1%nat subagentReply
                  eq_refl eq_refl).
    vm_compute in Hclaim. destruct Hclaim as [Heq | []]. discriminate.
  - split; [reflexivity |]. intros Hin.
    vm_compute in Hin. destruct Hin as [Heq | []]. discriminate.
  - intros Hclaim.
    apply (Hclaim [thinkingWithText] 0%nat thinkingWithText
             [thinkingWithText] 0%nat eq_refl eq_refl).
    + vm_compute. auto.
    + left. reflexivity.
Qed.

(** C2, amended.  Let a message not of kind [thinking] contain a non-blank
    narrative text block, or mix reasoning and tool blocks.  Then no
    aggregate of the grouped output contains it; and if it is not
    attributed to a collected sub-agent group and none of its own Task
    calls collected a group, the output has it as a standalone normal
    node at its index. *)
Theorem C2_narrative_stands_alone (messages : list ClaudeStreamMessage)
  (i : nat) (m : ClaudeStreamMessage) :
  messages !! i = Some m ->
  is_str (get m "type") "thinking" = false ->
  hasNarrativeText m = true \/ isMixed m = true ->
  (forall ms idx,
      In (GAggregated ms idx) (groupMessages messages) -> ~ In m ms)
  /\ (hasGroupFor (subagentGroupsOf messages) (getParentToolUseId m) = false ->
      (forall id, In id (extractTaskToolUseIds m) ->
                  subagentGroupsOf messages !! id = None) ->
      In (GNormal m i) (groupMessages messages)).
Proof.
  intros Hi Hkind Hshape.
  pose proof (narrative_not_technical m Hkind Hshape) as Hnone.
  split.
  - intros ms idx Hagg Hin. unfold groupMessages in Hagg.
    apply aggregateTechnical_uniform in Hagg as [ty Hrun];
      [| apply intermediate_nodes].
    apply (proj1 (List.Forall_forall _ _) Hrun) in Hin. congruence.
  - intros Hparent Hspawn. unfold groupMessages.
    apply aggregateTechnical_passes; [exact Hnone |].
    apply intermediate_normal; assumption.
Qed.

Lemma C2_narrative_stands_alone_witness :
  (forall ms idx,
      In (GAggregated ms idx)
         (groupMessages [spawnOne; subagentReply; sidechainOnly; subagentReply])
      -> ~ In subagentReply ms)
  /\ In (GNormal subagentReply 0) (groupMessages [subagentReply]).
Proof.
  split.
  - refine (proj1 (C2_narrative_stands_alone
                     [spawnOne; subagentReply; sidechainOnly; subagentReply]
                     1%nat subagentReply _ _ _)).
    + reflexivity.
    + reflexivity.
    + left. vm_compute. reflexivity.
  - refine (proj2 (C2_narrative_stands_alone [subagentReply] 0%nat
                     subagentReply _ _ _) _ _).
    + reflexivity.
    + reflexivity.
    + left. vm_compute. reflexivity.
    + vm_compute. reflexivity.
    + intros id Hin. vm_compute in Hin. destruct Hin.
Defined.

End NarrativeFacts.

(** ** Two parallel spawns *)

Section ParallelSpawnFacts.

Import Grouping Shapes Scenarios.

(** Recording a Task leaves the entries of every other id as they are. *)
Lemma recordTask_other (message : ClaudeStreamMessage) (index : nat)
  (details : gmap string value) (taskIds : list string) (st : TaskScan)
  (id : string) :
  ~ In id taskIds ->
  taskToolUseMap (fold_left (recordTask message index details) taskIds st) !! id
  = taskToolUseMap st !! id
  /\ taskSubagentTypes
       (fold_left (recordTask message index details) taskIds st) !! id
     = taskSubagentTypes st !! id.
Proof.
  revert st. induction taskIds as [| taskId taskIds IH]; intros st Hfresh.
  - split; reflexivity.
  - cbn [fold_left].
    destruct (IH (recordTask message index details st taskId)) as [Hmap Htypes].
    { intros Hin. apply Hfresh. right. exact Hin. }
    rewrite Hmap, Htypes.
    assert (Hne : taskId <> id) by (intros ->; apply Hfresh; left; reflexivity).
    unfold recordTask. cbn [taskToolUseMap taskSubagentTypes].
    split; [apply lookup_insert_ne; exact Hne |].
    destruct (details !! taskId) as [ty |]; [| reflexivity].
    destruct (truthy ty); [apply lookup_insert_ne; exact Hne | reflexivity].
Qed.

Lemma scanTasks_other (st : TaskScan) (m : ClaudeStreamMessage) (n : nat)
  (id : string) :
  ~ In id (extractTaskToolUseIds m) ->
  taskToolUseMap (scanTasks st m n) !! id = taskToolUseMap st !! id
  /\ taskSubagentTypes (scanTasks st m n) !! id = taskSubagentTypes st !! id.
Proof.
  intros Hfresh. unfold scanTasks.
  destruct (0 <? _)%nat; [| split; reflexivity].
  exact (recordTask_other m n (extractTaskToolDetails m)
           (extractTaskToolUseIds m)
           {| taskToolUseMap := taskToolUseMap st;
              indexToTaskIds :=
                <[n := extractTaskToolUseIds m]> (indexToTaskIds st);
              taskSubagentTypes := taskSubagentTypes st |}
           id Hfresh).
Qed.

Lemma forEachFrom_scanTasks_other (l : list ClaudeStreamMessage)
  (n : nat) (st : TaskScan) (id : string) :
  Forall (fun m => ~ In id (extractTaskToolUseIds m)) l ->
  taskToolUseMap (forEachFrom scanTasks l n st) !! id = taskToolUseMap st !! id
  /\ taskSubagentTypes (forEachFrom scanTasks l n st) !! id
     = taskSubagentTypes st !! id.
Proof.
  intros Hl. revert n st.
  induction Hl as [| m l Hm Hl IH]; intros n st; cbn [forEachFrom].
  - split; reflexivity.
  - destruct (IH (S n) (scanTasks st m n)) as [Hmap Htypes].
    destruct (scanTasks_other st m n id Hm) as [Hmap' Htypes'].
    split; congruence.
Qed.

(** The second pass collects, in order, the later messages whose parent
    id is the Task id. *)
Lemma collect_messages (taskId : string) (l : list ClaudeStreamMessage)
  (n : nat) (acc : list ClaudeStreamMessage * nat) :
  fst (forEachFrom (collectStep taskId) l n acc)
  = fst acc ++ List.filter (parentIs taskId) l.
Proof.
  revert n acc. induction l as [| m l IH]; intros n acc; cbn.
  - rewrite app_nil_r. reflexivity.
  - rewrite IH. unfold collectStep. destruct (parentIs taskId m); cbn.
    + rewrite <- app_assoc. reflexivity.
    + reflexivity.
Qed.

Lemma collectSubagent_spec (messages : list ClaudeStreamMessage)
  (types : gmap string value) (taskId : string)
  (taskMsg : ClaudeStreamMessage) (index : nat) :
  List.filter (parentIs taskId) (drop (S index) messages) <> [] ->
  exists last,
    collectSubagent messages types taskId (taskMsg, index)
    = Some {| sg_id := taskId;
              taskMessage := taskMsg;
              taskToolUseId := taskId;
              subagentMessages :=
                List.filter (parentIs taskId) (drop (S index) messages);
              startIndex := index;
              endIndex := last;
              subagentType := default Undefined (types !! taskId) |}.
Proof.
  intros Hsome. unfold collectSubagent. cbn [fst snd].
  pose proof (collect_messages taskId (drop (S index) messages) (S index)
                ([], index)) as Hfst.
  destruct (forEachFrom _ _ _ _) as [collected last]. cbn in Hfst. subst.
  destruct (List.filter _ _) eqn:Hf; [contradiction |].
  exists last. reflexivity.
Qed.

Lemma is_str_eq (v : value) (lit : string) : is_str v lit = true -> v = Str lit.
Proof.
  destruct v; cbn; try discriminate. intros H%String.eqb_eq. congruence.
Qed.

Section SkippedTail.

Variable groups : gmap string SubagentGroup.
Variable processed : gset nat.
Variable taskIdsAt : gmap nat (list string).

(** Messages at processed indices leave the intermediate sequence as it
    is. *)
Lemma forEachFrom_build_skips (l : list ClaudeStreamMessage) (n : nat)
  (st : gset string * list MessageGroup) :
  (forall j, (j < length l)%nat -> (n + j)%nat ∈ processed) ->
  forEachFrom (buildIntermediate groups processed taskIdsAt) l n st = st.
Proof.
  revert n. induction l as [| m l IH]; intros n Hall; cbn.
  - reflexivity.
  - unfold buildIntermediate at 2. rewrite bool_decide_eq_true_2.
    + apply IH. intros j Hj. replace (S n + j)%nat with (n + S j)%nat by lia.
      apply Hall. cbn. lia.
    + specialize (Hall 0%nat). rewrite Nat.add_0_r in Hall. apply Hall.
      cbn. lia.
Qed.

End SkippedTail.

Section TwoSpawns.

(** The messages that follow the spawning message: none of them issues
    a Task call under the id [t1] or [t2], each belongs to [t1] or to
    [t2], and both have descendants. *)
Variable tail : list ClaudeStreamMessage.

Hypothesis tail_fresh :
  Forall (fun m => ~ In "t1" (extractTaskToolUseIds m)
                   /\ ~ In "t2" (extractTaskToolUseIds m)) tail.
Hypothesis tail_parents :
  Forall (fun m => parentIs "t1" m = true \/ parentIs "t2" m = true) tail.
Hypothesis tail_t1 : List.filter (parentIs "t1") tail <> [].
Hypothesis tail_t2 : List.filter (parentIs "t2") tail <> [].

Abbreviation sequence := (spawnTwo :: tail).

Lemma scan_sequence (taskId : string) :
  taskId = "t1" \/ taskId = "t2" ->
  taskToolUseMap (forEach scanTasks sequence emptyScan) !! taskId
  = Some (spawnTwo, 0%nat)
  /\ taskSubagentTypes (forEach scanTasks sequence emptyScan) !! taskId
     = Some (Str "general-purpose").
Proof.
  intros Hid. unfold forEach. cbn [forEachFrom].
  destruct (forEachFrom_scanTasks_other tail 1
              (scanTasks emptyScan spawnTwo 0) taskId) as [-> ->].
  { eapply List.Forall_impl; [| exact tail_fresh].
    intros m [H1 H2]. destruct Hid as [-> | ->]; assumption. }
  destruct Hid as [-> | ->]; split; vm_compute; reflexivity.
Qed.

Lemma groups_sequence (taskId : string) :
  taskId = "t1" \/ taskId = "t2" ->
  List.filter (parentIs taskId) tail <> [] ->
  exists last,
    subagentGroupsOf sequence !! taskId
    = Some {| sg_id := taskId;
              taskMessage := spawnTwo;
              taskToolUseId := taskId;
              subagentMessages := List.filter (parentIs taskId) tail;
              startIndex := 0;
              endIndex := last;
              subagentType := Str "general-purpose" |}.
Proof.
  intros Hid Hsome. unfold subagentGroupsOf, collectGroups.
  destruct (scan_sequence taskId Hid) as [Hmap Htypes].
  rewrite map_lookup_imap, Hmap. cbn [mbind option_bind].
  destruct (collectSubagent_spec sequence
              (taskSubagentTypes (forEach scanTasks sequence emptyScan))
              taskId spawnTwo 0 Hsome) as [last Hgroup].
  exists last. rewrite Hgroup, Htypes. reflexivity.
Qed.

Lemma tail_processed (j : nat) :
  (j < length tail)%nat -> (1 + j)%nat ∈ processedIndicesOf sequence.
Proof.
  intros Hj. unfold processedIndicesOf. rewrite processedIndices_spec.
  destruct (lookup_lt_is_Some_2 tail j Hj) as [m Hm].
  exists m. split; [exact Hm |].
  pose proof (proj1 (List.Forall_forall _ _) tail_parents m) as Hparent.
  destruct (groups_sequence "t1" (or_introl eq_refl) tail_t1) as [l1 H1].
  destruct (groups_sequence "t2" (or_intror eq_refl) tail_t2) as [l2 H2].
  unfold hasGroupFor.
  destruct Hparent as [Hp | Hp].
  - apply list_elem_of_In. eapply list_elem_of_lookup_2. exact Hm.
  - apply is_str_eq in Hp. rewrite Hp, H1. reflexivity.
  - apply is_str_eq in Hp. rewrite Hp, H2. reflexivity.
Qed.

Lemma head_not_processed : 0%nat ∉ processedIndicesOf sequence.
Proof.
  unfold processedIndicesOf. rewrite processedIndices_spec.
  intros (m & Hm & Hg). injection Hm as <-. vm_compute in Hg. discriminate.
Qed.

(** The grouped output of the sequence is the two sub-agent groups. *)
Lemma groupMessages_two_spawns :
  exists last1 last2,
    groupMessages sequence
    = [GSubagent {| sg_id := "t1";
                    taskMessage := spawnTwo;
                    taskToolUseId := "t1";
                    subagentMessages := List.filter (parentIs "t1") tail;
                    startIndex := 0;
                    endIndex := last1;
                    subagentType := Str "general-purpose" |};
       GSubagent {| sg_id := "t2";
                    taskMessage := spawnTwo;
                    taskToolUseId := "t2";
                    subagentMessages := List.filter (parentIs "t2") tail;
                    startIndex := 0;
                    endIndex := last2;
                    subagentType := Str "general-purpose" |}].
Proof.
  destruct (groups_sequence "t1" (or_introl eq_refl) tail_t1) as [last1 H1].
  destruct (groups_sequence "t2" (or_intror eq_refl) tail_t2) as [last2 H2].
  exists last1, last2.
  pose proof head_not_processed as Hhead.
  pose proof tail_processed as Htail.
  assert (Hids : default [] (indexToTaskIds
                               (forEach scanTasks sequence emptyScan) !! 0%nat)
                 = ["t1"; "t2"]).
  { rewrite indexToTaskIds_spec. vm_compute. reflexivity. }
  unfold groupMessages, intermediateGroupsOf.
  set (groups := subagentGroupsOf sequence) in *.
  set (processed := processedIndicesOf sequence) in *.
  set (taskIdsAt := indexToTaskIds (forEach scanTasks sequence emptyScan)) in *.
  clearbody groups processed taskIdsAt.
  unfold forEach. cbn [forEachFrom].
  rewrite forEachFrom_build_skips by exact Htail.
  unfold buildIntermediate.
  rewrite bool_decide_eq_false_2 by exact Hhead.
  rewrite Hids.
  cbn [length Nat.ltb Nat.leb fold_left existsb].
  unfold emitTaskGroup. rewrite H1, H2. cbn [fst snd].
  rewrite (bool_decide_eq_false_2 ("t1" ∈ (∅ : gset string)))
    by apply not_elem_of_empty.
  cbn [fst snd].
  rewrite (bool_decide_eq_false_2 ("t2" ∈ ({["t1"]} ∪ ∅ : gset string))).
  2:{ rewrite elem_of_union, elem_of_singleton, elem_of_empty.
      intros [Heq | []]. discriminate. }
  rewrite !bool_decide_eq_true_2 by eauto.
  reflexivity.
Qed.

End TwoSpawns.

End ParallelSpawnFacts.

Section ParallelSpawnScenario.

Import Grouping Shapes Scenarios.

(** C5. Let the assistant message with the two parallel Task calls [t1]
    and [t2] be followed by messages of which three have parent id [t1]
    and two have parent id [t2], in any interleaving (none of them issuing
    a Task call of its own under one of the two ids).  The grouped output
    consists of exactly two sub-agent groups, the first holding the three
    messages of [t1] and the second the two messages of [t2], each in
    their original relative order; no other node is produced. *)
Theorem C5_parallel_spawns_grouped (tail : list ClaudeStreamMessage) :
  Forall (fun m => ~ In "t1" (extractTaskToolUseIds m)
                   /\ ~ In "t2" (extractTaskToolUseIds m)) tail ->
  Forall (fun m => parentIs "t1" m = true \/ parentIs "t2" m = true) tail ->
  length (List.filter (parentIs "t1") tail) = 3%nat ->
  length (List.filter (parentIs "t2") tail) = 2%nat ->
  exists last1 last2,
    groupMessages (spawnTwo :: tail)
    = [GSubagent {| sg_id := "t1";
                    taskMessage := spawnTwo;
                    taskToolUseId := "t1";
                    subagentMessages := List.filter (parentIs "t1") tail;
                    startIndex := 0;
                    endIndex := last1;
                    subagentType := Str "general-purpose" |};
       GSubagent {| sg_id := "t2";
                    taskMessage := spawnTwo;
                    taskToolUseId := "t2";
                    subagentMessages := List.filter (parentIs "t2") tail;
                    startIndex := 0;
                    endIndex := last2;
                    subagentType := Str "general-purpose" |}].
Proof.
  intros Hfresh Hparents Hthree Htwo.
  apply groupMessages_two_spawns; try assumption.
  - intros Hnil. rewrite Hnil in Hthree. discriminate.
  - intros Hnil. rewrite Hnil in Htwo. discriminate.
Qed.

Lemma C5_parallel_spawns_grouped_witness :
  exists last1 last2,
    groupMessages (spawnTwo :: interleaved)
    = [GSubagent {| sg_id := "t1";
                    taskMessage := spawnTwo;
                    taskToolUseId := "t1";
                    subagentMessages :=
                      [childOf "t1" "a1"; childOf "t1" "a2"; childOf "t1" "a3"];
                    startIndex := 0;
                    endIndex := last1;
                    subagentType := Str "general-purpose" |};
       GSubagent {| sg_id := "t2";
                    taskMessage := spawnTwo;
                    taskToolUseId := "t2";
                    subagentMessages := [childOf "t2" "b1"; childOf "t2" "b2"];
                    startIndex := 0;
                    endIndex := last2;
                    subagentType := Str "general-purpose" |}].
Proof.
  apply (C5_parallel_spawns_grouped interleaved).
  - repeat (apply List.Forall_cons; [split; intros [] |]).
    apply List.Forall_nil.
  - repeat (apply List.Forall_cons;
            [first [left; reflexivity | right; reflexivity] |]).
    apply List.Forall_nil.
  - reflexivity.
  - reflexivity.
Defined.

(** The same sequence evaluated: the groups end at the last message of
    each sub-agent. *)
Example interleaved_grouping :
  groupMessages (spawnTwo :: interleaved)
  = [GSubagent {| sg_id := "t1";
                  taskMessage := spawnTwo;
                  taskToolUseId := "t1";
                  subagentMessages :=
                    [childOf "t1" "a1"; childOf "t1" "a2"; childOf "t1" "a3"];
                  startIndex := 0;
                  endIndex := 5;
                  subagentType := Str "general-purpose" |};
     GSubagent {| sg_id := "t2";
                  taskMessage := spawnTwo;
                  taskToolUseId := "t2";
                  subagentMessages := [childOf "t2" "b1"; childOf "t2" "b2"];
                  startIndex := 0;
                  endIndex := 4;
                  subagentType := Str "general-purpose" |}].
Proof. vm_compute. reflexivity. Qed.

End ParallelSpawnScenario.

(** ** What the compaction pass keeps *)

Section CompactionConservation.

Import Grouping Shapes Views.

Abbreviation closed st := (closeAggregation (fst st) (snd st)).

Lemma expand_closeAggregation (finalGroups : list MessageGroup)
  (cur : option Aggregation) :
  flat_map expand (closeAggregation finalGroups cur)
  = flat_map expand finalGroups
    ++ match cur with
       | Some agg => map inl (agg_messages agg)
       | None => []
       end.
Proof.
  unfold closeAggregation. destruct cur as [agg |].
  - rewrite flat_map_app. cbn. rewrite app_nil_r. reflexivity.
  - rewrite app_nil_r. reflexivity.
Qed.

Lemma aggregateStep_expand (st : list MessageGroup * option Aggregation)
  (g : MessageGroup) :
  isIntermediate g = true ->
  flat_map expand (closed (aggregateStep st g))
  = flat_map expand (closed st) ++ expand g.
Proof.
  destruct st as [finalGroups cur]. intros Hg.
  destruct g as [msg index | group | ms idx]; [| | discriminate]; cbn [aggregateStep].
  - destruct (getTechnicalMessageType msg) as [msgType |].
    + destruct cur as [agg |].
      * destruct (AggType_eqb (aggType agg) msgType); cbn [fst snd].
        -- rewrite !expand_closeAggregation. cbn [agg_messages].
           rewrite map_app, app_assoc. reflexivity.
        -- rewrite expand_closeAggregation. cbn [agg_messages].
           reflexivity.
      * cbn [fst snd]. rewrite !expand_closeAggregation. cbn.
        rewrite app_nil_r. reflexivity.
    + cbn [fst snd]. rewrite expand_closeAggregation, flat_map_app.
      cbn. rewrite !app_nil_r. reflexivity.
  - cbn [fst snd]. rewrite expand_closeAggregation, flat_map_app.
    cbn. rewrite !app_nil_r. reflexivity.
Qed.

Lemma fold_aggregateStep_expand (l : list MessageGroup)
  (st : list MessageGroup * option Aggregation) :
  forallb isIntermediate l = true ->
  flat_map expand (closed (fold_left aggregateStep l st))
  = flat_map expand (closed st) ++ flat_map expand l.
Proof.
  revert st. induction l as [| g l IH]; intros st Hl; cbn [fold_left flat_map].
  - rewrite app_nil_r. reflexivity.
  - cbn in Hl. apply andb_true_iff in Hl as [Hg Hl].
    rewrite IH by exact Hl. rewrite aggregateStep_expand by exact Hg.
    rewrite <- app_assoc. reflexivity.
Qed.

Lemma aggregateTechnical_expand (l : list MessageGroup) :
  forallb isIntermediate l = true ->
  flat_map expand (aggregateTechnical l) = flat_map expand l.
Proof.
  intros Hl. unfold aggregateTechnical.
  pose proof (fold_aggregateStep_expand l ([], None) Hl) as H.
  destruct (fold_left aggregateStep l ([], None)) as [finalGroups cur].
  exact H.
Qed.

Lemma shownMessages_expand (l : list MessageGroup) :
  shownMessages l
  = omap (fun x => match x with inl m => Some m | inr _ => None end)
      (flat_map expand l).
Proof.
  unfold shownMessages. induction l as [| g l IH]; cbn [flat_map].
  - reflexivity.
  - rewrite omap_app, <- IH. f_equal.
    destruct g as [m i | group | ms i]; cbn; try reflexivity.
    induction ms as [| m ms IHms]; cbn; [reflexivity | f_equal; exact IHms].
Qed.

Lemma emittedGroups_expand (l : list MessageGroup) :
  emittedGroups l
  = omap (fun x => match x with inl _ => None | inr g => Some g end)
      (flat_map expand l).
Proof.
  unfold emittedGroups. induction l as [| g l IH]; cbn [flat_map].
  - reflexivity.
  - rewrite omap_app, <- IH. f_equal.
    destruct g as [m i | group | ms i]; cbn; try reflexivity.
    induction ms as [| m ms IHms]; cbn; [reflexivity | exact IHms].
Qed.

End CompactionConservation.

(** ** What the third pass emits *)

Section ThirdPassFacts.

Import Grouping Shapes Views ThirdPassInvariants.

Variable groups : gmap string SubagentGroup.
Variable processed : gset nat.
Variable taskIdsAt : gmap nat (list string).

Abbreviation build3 := (buildIntermediate groups processed taskIdsAt).

Lemma shownMessages_app (l1 l2 : list MessageGroup) :
  shownMessages (l1 ++ l2) = shownMessages l1 ++ shownMessages l2.
Proof. apply flat_map_app. Qed.

Lemma emittedGroups_app (l1 l2 : list MessageGroup) :
  emittedGroups (l1 ++ l2) = emittedGroups l1 ++ emittedGroups l2.
Proof. apply flat_map_app. Qed.

Lemma emit_shownMessages (taskIds : list string)
  (st : gset string * list MessageGroup) :
  shownMessages (snd (fold_left (emitTaskGroup groups) taskIds st))
  = shownMessages (snd st).
Proof.
  revert st. induction taskIds as [| id ids IH]; intros st; cbn [fold_left].
  - reflexivity.
  - rewrite IH. unfold emitTaskGroup. destruct (groups !! id); [| reflexivity].
    destruct (bool_decide _); [reflexivity |]. cbn [snd].
    rewrite shownMessages_app. cbn. apply app_nil_r.
Qed.

Lemma emit_normalAt (messages : list ClaudeStreamMessage)
  (taskIds : list string) (st : gset string * list MessageGroup) :
  Forall (normalAt messages) (snd st) ->
  Forall (normalAt messages) (snd (fold_left (emitTaskGroup groups) taskIds st)).
Proof.
  revert st. induction taskIds as [| id ids IH]; intros st Hst; cbn [fold_left].
  - exact Hst.
  - apply IH. unfold emitTaskGroup. destruct (groups !! id); [| exact Hst].
    destruct (bool_decide _); [exact Hst |]. cbn [snd].
    apply Forall_app. split; [exact Hst |]. repeat constructor.
Qed.

Lemma emit_GroupsEmitted (taskIds : list string)
  (st : gset string * list MessageGroup) :
  GroupsEmitted groups st ->
  GroupsEmitted groups (fold_left (emitTaskGroup groups) taskIds st).
Proof.
  revert st. induction taskIds as [| id ids IH]; intros st Hst; cbn [fold_left].
  - exact Hst.
  - apply IH. unfold emitTaskGroup.
    destruct (groups !! id) as [g |] eqn:Hg; [| exact Hst].
    destruct (bool_decide (id ∈ fst st)) eqn:Hadded; [exact Hst |].
    apply bool_decide_eq_false in Hadded.
    destruct Hst as (added & Hnodup & Hmem & Hall).
    exists (added ++ [id]). cbn [fst snd]. split; [| split].
    + apply NoDup_app. split; [exact Hnodup |]. split.
      * intros x Hx Hx'. apply list_elem_of_In in Hx.
        apply list_elem_of_singleton in Hx'. subst x.
        apply Hadded. apply Hmem. exact Hx.
      * apply NoDup_singleton.
    + intros x. rewrite elem_of_union, elem_of_singleton, in_app_iff, Hmem.
      cbn. split; intros [H | H]; auto. destruct H as [-> | []]. auto.
    + rewrite emittedGroups_app. cbn. apply Forall2_app; [exact Hall |].
      repeat constructor. exact Hg.
Qed.

(** One step of the third pass, for a message that the index structures
    describe. *)
Lemma build_step (messages : list ClaudeStreamMessage)
  (st : gset string * list MessageGroup) (x : ClaudeStreamMessage) (n : nat) :
  (n ∈ processed <-> hasGroupFor groups (getParentToolUseId x) = true) ->
  default [] (taskIdsAt !! n) = extractTaskToolUseIds x ->
  messages !! n = Some x ->
  GroupsEmitted groups st ->
  Forall (normalAt messages) (snd st) ->
  shownMessages (snd (build3 st x n))
  = shownMessages (snd st) ++ (if standsAlone groups x then [x] else [])
  /\ GroupsEmitted groups (build3 st x n)
  /\ Forall (normalAt messages) (snd (build3 st x n)).
Proof.
  intros Hproc Hids Hx Hgroups Hnormal. unfold buildIntermediate, standsAlone.
  destruct (bool_decide (n ∈ processed)) eqn:Hn.
  { apply bool_decide_eq_true in Hn. apply Hproc in Hn. rewrite Hn. cbn.
    rewrite app_nil_r. auto. }
  apply bool_decide_eq_false in Hn.
  assert (Hfalse : hasGroupFor groups (getParentToolUseId x) = false).
  { destruct (hasGroupFor groups (getParentToolUseId x)) eqn:H; [| reflexivity].
    exfalso. apply Hn, Hproc. reflexivity. }
  rewrite Hfalse, Hids. cbn [negb andb].
  assert (Hone : Forall (normalAt messages) [GNormal x n])
    by (repeat constructor; exact Hx).
  destruct (extractTaskToolUseIds x) as [| id ids] eqn:Hx_ids.
  - cbn. split; [apply shownMessages_app |]. split.
    + destruct Hgroups as (added & H1 & H2 & H3). exists added.
      cbn [fst snd]. rewrite emittedGroups_app. cbn. rewrite app_nil_r. auto.
    + apply Forall_app. auto.
  - cbn [length Nat.ltb Nat.leb].
    change (existsb (fun id0 => bool_decide (is_Some (groups !! id0))) (id :: ids))
      with (existsb (hasCollected groups) (id :: ids)).
    pose proof (emit_shownMessages (id :: ids) st) as Hshown.
    pose proof (emit_GroupsEmitted (id :: ids) st Hgroups) as Hemit.
    pose proof (emit_normalAt messages (id :: ids) st Hnormal) as Hnorm.
    destruct (negb (existsb (hasCollected groups) (id :: ids))); cbn [fst snd].
    + split; [rewrite shownMessages_app, Hshown; reflexivity |]. split.
      * destruct Hemit as (added & H1 & H2 & H3). exists added.
        cbn [fst snd]. rewrite emittedGroups_app. cbn. rewrite app_nil_r. auto.
      * apply Forall_app. auto.
    + rewrite Hshown, app_nil_r. auto.
Qed.

End ThirdPassFacts.

Section ThirdPassWhole.

Import Grouping Shapes Views ThirdPassInvariants.

Lemma normalAt_app (l extra : list ClaudeStreamMessage) (g : MessageGroup) :
  normalAt l g -> normalAt (l ++ extra) g.
Proof.
  destruct g as [m i | group | ms i]; cbn; try tauto.
  apply lookup_app_l_Some.
Qed.

Lemma Describes_prefix (groups : gmap string SubagentGroup)
  (processed : gset nat) (taskIdsAt : gmap nat (list string))
  (l extra : list ClaudeStreamMessage) :
  Describes groups processed taskIdsAt (l ++ extra) ->
  Describes groups processed taskIdsAt l.
Proof.
  intros H i m Hi. apply H. apply lookup_app_l_Some. exact Hi.
Qed.

(** The third pass over a described sequence: it shows the messages that
    stand alone, in order; it emits every group once; and each normal
    node carries the message of its index. *)
Lemma third_pass (groups : gmap string SubagentGroup)
  (processed : gset nat) (taskIdsAt : gmap nat (list string))
  (l : list ClaudeStreamMessage) :
  Describes groups processed taskIdsAt l ->
  let st := forEach (buildIntermediate groups processed taskIdsAt) l (∅, []) in
  shownMessages (snd st) = List.filter (standsAlone groups) l
  /\ GroupsEmitted groups st
  /\ Forall (normalAt l) (snd st).
Proof.
  induction l as [| x l IH] using rev_ind; intros Hdesc; cbv zeta.
  - split; [reflexivity |]. split; [| constructor].
    exists []. cbn. split; [constructor |]. split; [| constructor].
    intros id. split; [intros H; apply elem_of_empty in H; exact H | tauto].
  - destruct (IH (Describes_prefix _ _ _ _ _ Hdesc)) as (Hshown & Hgroups & Hnormal).
    rewrite forEach_snoc.
    assert (Hx : (l ++ [x]) !! length l = Some x).
    { rewrite lookup_app_r, Nat.sub_diag by lia. reflexivity. }
    destruct (Hdesc (length l) x Hx) as [Hproc Hids].
    destruct (build_step groups processed taskIdsAt (l ++ [x]) _ x (length l)
                Hproc Hids Hx Hgroups) as (Hshown' & Hgroups' & Hnormal').
    { eapply List.Forall_impl; [| exact Hnormal].
      intros g. apply normalAt_app. }
    split; [| split; assumption].
    rewrite Hshown', Hshown, List.filter_app. cbn.
    destruct (standsAlone groups x); reflexivity.
Qed.

Lemma describes_groupMessages (messages : list ClaudeStreamMessage) :
  Describes (subagentGroupsOf messages) (processedIndicesOf messages)
    (indexToTaskIds (forEach scanTasks messages emptyScan)) messages.
Proof.
  intros i m Hi. split.
  - unfold processedIndicesOf. rewrite processedIndices_spec. split.
    + intros (m' & Hm' & Hg). congruence.
    + intros Hg. eauto.
  - rewrite indexToTaskIds_spec, Hi. reflexivity.
Qed.

Lemma intermediate_facts (messages : list ClaudeStreamMessage) :
  shownMessages (intermediateGroupsOf messages)
  = List.filter (standsAlone (subagentGroupsOf messages)) messages
  /\ (exists ids : list string,
        NoDup ids
        /\ Forall2 (fun id g => subagentGroupsOf messages !! id = Some g)
             ids (emittedGroups (intermediateGroupsOf messages)))
  /\ Forall (normalAt messages) (intermediateGroupsOf messages).
Proof.
  destruct (third_pass _ _ _ messages (describes_groupMessages messages))
    as (Hshown & (ids & Hnodup & _ & Hall) & Hnormal).
  unfold intermediateGroupsOf. eauto.
Qed.

(** X1. Grouping neither drops, repeats nor reorders what it shows: the
    messages of the normal nodes and aggregates of the output, read in
    output order, are the input messages that stand alone (not attributed
    to a collected sub-agent group, not spawning one), in input order. *)
Theorem groupMessages_shows_standalone (messages : list ClaudeStreamMessage) :
  shownMessages (groupMessages messages)
  = List.filter (standsAlone (subagentGroupsOf messages)) messages.
Proof.
  unfold groupMessages.
  rewrite shownMessages_expand, aggregateTechnical_expand
    by apply intermediate_nodes.
  rewrite <- shownMessages_expand. apply intermediate_facts.
Qed.

End ThirdPassWhole.

(** ** The collected sub-agent groups *)

Section CollectedGroupFacts.

Import Grouping Shapes Views ThirdPassInvariants.

Lemma In_emittedGroups (l : list MessageGroup) (g : SubagentGroup) :
  In g (emittedGroups l) <-> In (GSubagent g) l.
Proof.
  unfold emittedGroups. rewrite in_flat_map. split.
  - intros (node & Hnode & Hin). destruct node; cbn in Hin; try tauto.
    destruct Hin as [-> | []]. exact Hnode.
  - intros Hin. exists (GSubagent g). split; [exact Hin | left; reflexivity].
Qed.

Lemma emittedGroups_groupMessages (messages : list ClaudeStreamMessage) :
  emittedGroups (groupMessages messages)
  = emittedGroups (intermediateGroupsOf messages).
Proof.
  unfold groupMessages.
  rewrite !emittedGroups_expand, aggregateTechnical_expand
    by apply intermediate_nodes.
  reflexivity.
Qed.

(** The first pass files a Task id under the message that issued it. *)
Lemma recordTask_lookup (message : ClaudeStreamMessage) (index : nat)
  (details : gmap string value) (taskIds : list string) (st : TaskScan)
  (id : string) (m : ClaudeStreamMessage) (i : nat) :
  taskToolUseMap (fold_left (recordTask message index details) taskIds st) !! id
  = Some (m, i) ->
  (In id taskIds /\ m = message /\ i = index)
  \/ taskToolUseMap st !! id = Some (m, i).
Proof.
  revert st. induction taskIds as [| taskId taskIds IH]; intros st; cbn [fold_left].
  - auto.
  - intros H. apply IH in H as [(Hin & -> & ->) | H].
    + left. split; [right; exact Hin | auto].
    + unfold recordTask in H. cbn [taskToolUseMap] in H.
      destruct (decide (taskId = id)) as [-> | Hne].
      * rewrite lookup_insert_eq in H. injection H as <- <-.
        left. split; [left; reflexivity | auto].
      * rewrite lookup_insert_ne in H by exact Hne. auto.
Qed.

Lemma taskToolUseMap_spec (messages : list ClaudeStreamMessage)
  (id : string) (m : ClaudeStreamMessage) (i : nat) :
  taskToolUseMap (forEach scanTasks messages emptyScan) !! id = Some (m, i) ->
  messages !! i = Some m /\ In id (extractTaskToolUseIds m).
Proof.
  revert id m i.
  apply (forEach_invariant scanTasks
           (fun scanned st => forall id m i,
                taskToolUseMap st !! id = Some (m, i) ->
                scanned !! i = Some m /\ In id (extractTaskToolUseIds m))).
  - intros id m i H. unfold emptyScan in H. cbn [taskToolUseMap] in H.
    rewrite lookup_empty in H. discriminate.
  - intros scanned x st IH id m i H.
    assert (Hold : taskToolUseMap st !! id = Some (m, i) ->
                   (scanned ++ [x]) !! i = Some m
                   /\ In id (extractTaskToolUseIds m)).
    { intros Hst. destruct (IH id m i Hst) as [Hi Hin].
      split; [apply lookup_app_l_Some; exact Hi | exact Hin]. }
    unfold scanTasks in H. destruct (0 <? _)%nat; [| auto].
    apply recordTask_lookup in H as [(Hin & -> & ->) | H]; [| auto].
    split; [| exact Hin].
    rewrite lookup_app_r, Nat.sub_diag by lia. reflexivity.
Qed.

(** The last index the collecting loop touches. *)
Lemma collect_maxIndex (taskId : string) (l : list ClaudeStreamMessage)
  (n : nat) (acc : list ClaudeStreamMessage) (mx : nat) :
  (mx < n)%nat ->
  let last := snd (forEachFrom (collectStep taskId) l n (acc, mx)) in
  (List.filter (parentIs taskId) l = [] /\ last = mx)
  \/ ((n <= last < n + length l)%nat
      /\ exists m, l !! (last - n)%nat = Some m /\ parentIs taskId m = true).
Proof.
  revert n acc mx. induction l as [| x l IH]; intros n acc mx Hlt; cbv zeta.
  - left. auto.
  - cbn [forEachFrom List.filter].
    change (collectStep taskId (acc, mx) x n)
      with (if parentIs taskId x then (acc ++ [x], Nat.max mx n) else (acc, mx)).
    destruct (parentIs taskId x) eqn:Hx.
    + right. replace (Nat.max mx n) with n by lia.
      specialize (IH (S n) (acc ++ [x]) n (Nat.lt_succ_diag_r n)).
      cbv zeta in IH.
      remember (snd (forEachFrom (collectStep taskId) l (S n) (acc ++ [x], n)))
        as last eqn:Hlast. clear Hlast.
      destruct IH as [[Hnil ->] | (Hrange & m & Hm & Hp)].
      * split; [cbn; lia |]. exists x. rewrite Nat.sub_diag. auto.
      * split; [cbn; lia |]. exists m. split; [| exact Hp].
        replace (last - n)%nat with (S (last - S n)) by lia. exact Hm.
    + specialize (IH (S n) acc mx (Nat.lt_lt_succ_r _ _ Hlt)).
      cbv zeta in IH.
      remember (snd (forEachFrom (collectStep taskId) l (S n) (acc, mx)))
        as last eqn:Hlast. clear Hlast.
      destruct IH as [[Hnil ->] | (Hrange & m & Hm & Hp)].
      * left. auto.
      * right. split; [cbn; lia |]. exists m. split; [| exact Hp].
        replace (last - n)%nat with (S (last - S n)) by lia. exact Hm.
Qed.

(** What a collected group records. *)
Lemma collected_group (messages : list ClaudeStreamMessage)
  (id : string) (g : SubagentGroup) :
  subagentGroupsOf messages !! id = Some g ->
  taskToolUseId g = id /\ sg_id g = id
  /\ messages !! startIndex g = Some (taskMessage g)
  /\ In id (extractTaskToolUseIds (taskMessage g))
  /\ subagentMessages g
     = List.filter (parentIs id) (drop (S (startIndex g)) messages)
  /\ subagentMessages g <> []
  /\ (startIndex g < endIndex g < length messages)%nat
  /\ exists m, messages !! endIndex g = Some m /\ parentIs id m = true.
Proof.
  unfold subagentGroupsOf, collectGroups. rewrite map_lookup_imap.
  destruct (taskToolUseMap (forEach scanTasks messages emptyScan) !! id)
    as [[taskMsg index] |] eqn:Hmap; [| discriminate].
  cbn [mbind option_bind]. intros Hg.
  destruct (taskToolUseMap_spec messages id taskMsg index Hmap) as [Hat Hin].
  unfold collectSubagent in Hg. cbn [fst snd] in Hg.
  pose proof (collect_messages id (drop (S index) messages) (S index)
                ([], index)) as Hfst.
  pose proof (collect_maxIndex id (drop (S index) messages) (S index) [] index
                (Nat.lt_succ_diag_r index)) as Hmax.
  cbv zeta in Hmax.
  destruct (forEachFrom _ _ _ _) as [collected last]. cbn [fst snd] in *.
  cbn in Hfst. subst collected.
  destruct (List.filter (parentIs id) (drop (S index) messages)) as [| c cs] eqn:Hf;
    [discriminate |].
  cbn in Hg. injection Hg as <-. cbn.
  destruct Hmax as [[Hnil _] | (Hrange & m & Hm & Hp)]; [discriminate |].
  rewrite length_drop in Hrange. rewrite lookup_drop in Hm.
  replace (S index + (last - S index))%nat with last in Hm by lia.
  apply lookup_lt_Some in Hat as Hlen.
  repeat (split; [first [reflexivity | assumption] |]).
  split; [symmetry; exact Hf |]. split; [discriminate |].
  split; [lia |]. eauto.
Qed.

End CollectedGroupFacts.

(** ** Sub-agent groups of the grouped output *)

Section EmittedGroupFacts.

Import Grouping Shapes Views ThirdPassInvariants Scenarios.

Lemma emitted_ids (messages : list ClaudeStreamMessage) :
  exists ids : list string,
    NoDup ids
    /\ Forall2 (fun id g => subagentGroupsOf messages !! id = Some g)
         ids (emittedGroups (groupMessages messages)).
Proof.
  rewrite emittedGroups_groupMessages. apply intermediate_facts.
Qed.

Lemma emitted_collected (messages : list ClaudeStreamMessage)
  (g : SubagentGroup) :
  In (GSubagent g) (groupMessages messages) ->
  subagentGroupsOf messages !! taskToolUseId g = Some g.
Proof.
  intros Hin. apply In_emittedGroups in Hin.
  destruct (emitted_ids messages) as (ids & _ & Hall).
  induction Hall as [| id g' ids gs Hg Hall IH]; [destruct Hin |].
  destruct Hin as [-> | Hin]; [| exact (IH Hin)].
  destruct (collected_group messages id g Hg) as (-> & _). exact Hg.
Qed.

(** X4. Every sub-agent group of the output is well formed: it is filed
    under the id of a Task call of its task message, which is the input
    message at its start index; its messages are exactly the later input
    messages whose parent id is that id, in input order, and there is at
    least one; and its end index is the index of the last of them. *)
Theorem emitted_group_well_formed (messages : list ClaudeStreamMessage)
  (g : SubagentGroup) :
  In (GSubagent g) (groupMessages messages) ->
  sg_id g = taskToolUseId g
  /\ messages !! startIndex g = Some (taskMessage g)
  /\ In (taskToolUseId g) (extractTaskToolUseIds (taskMessage g))
  /\ subagentMessages g
     = List.filter (parentIs (taskToolUseId g))
         (drop (S (startIndex g)) messages)
  /\ subagentMessages g <> []
  /\ (startIndex g < endIndex g < length messages)%nat
  /\ (exists m, messages !! endIndex g = Some m
                /\ parentIs (taskToolUseId g) m = true)
  /\ (forall i m, (endIndex g < i)%nat -> messages !! i = Some m ->
                  parentIs (taskToolUseId g) m = false).
Proof.
  intros Hin. apply emitted_collected in Hin.
  destruct (collected_group messages _ g Hin)
    as (_ & Hid & Hat & Htask & Hmsgs & Hsome & Hrange & Hlast).
  do 7 (split; [first [assumption | congruence] |]).
  intros i m Hi Hm.
  (* a later match would have moved the end index *)
  revert Hin. unfold subagentGroupsOf, collectGroups. rewrite map_lookup_imap.
  destruct (taskToolUseMap (forEach scanTasks messages emptyScan)
              !! taskToolUseId g) as [[taskMsg index] |]; [| discriminate].
  cbn [mbind option_bind]. unfold collectSubagent. cbn [fst snd].
  destruct (forEachFrom (collectStep (taskToolUseId g))
              (drop (S index) messages) (S index) ([], index))
    as [collected last] eqn:Hloop.
  destruct (0 <? length collected)%nat; [| discriminate].
  intros [= Hg]. rewrite <- Hg in Hi, Hrange. cbn in Hi, Hrange.
  destruct (parentIs (taskToolUseId g) m) eqn:Hp; [| reflexivity].
  exfalso.
  assert (Hbound : forall l n acc mx j x,
             l !! j = Some x -> parentIs (taskToolUseId g) x = true ->
             (n + j <= snd (forEachFrom (collectStep (taskToolUseId g)) l n
                              (acc, mx)))%nat).
  { clear. induction l as [| y l IH]; intros n acc mx j x Hj Hx.
    - rewrite lookup_nil in Hj. discriminate.
    - cbn [forEachFrom].
      change (collectStep (taskToolUseId g) (acc, mx) y n)
        with (if parentIs (taskToolUseId g) y
              then (acc ++ [y], Nat.max mx n) else (acc, mx)).
      destruct j as [| j].
      + injection Hj as ->. rewrite Hx.
        assert (Hmono : forall l' n' acc' mx',
                   (mx' <= snd (forEachFrom (collectStep (taskToolUseId g))
                                  l' n' (acc', mx')))%nat).
        { clear. induction l' as [| z l' IH']; intros n' acc' mx'; cbn [forEachFrom].
          - cbn. lia.
          - change (collectStep (taskToolUseId g) (acc', mx') z n')
              with (if parentIs (taskToolUseId g) z
                    then (acc' ++ [z], Nat.max mx' n') else (acc', mx')).
            destruct (parentIs (taskToolUseId g) z).
            + specialize (IH' (S n') (acc' ++ [z]) (Nat.max mx' n')). lia.
            + apply IH'. }
        specialize (Hmono l (S n) (acc ++ [x]) (Nat.max mx n)). lia.
      + cbn in Hj.
        destruct (parentIs (taskToolUseId g) y).
        * specialize (IH (S n) (acc ++ [y]) (Nat.max mx n) j x Hj Hx). lia.
        * specialize (IH (S n) acc mx j x Hj Hx). lia. }
  assert (Hdrop : drop (S index) messages !! (i - S index)%nat = Some m).
  { rewrite lookup_drop. replace (S index + (i - S index))%nat with i by lia.
    exact Hm. }
  specialize (Hbound _ (S index) [] index _ m Hdrop Hp).
  rewrite Hloop in Hbound. cbn in Hbound. lia.
Qed.

Lemma emitted_group_well_formed_witness :
  let g := {| sg_id := "t2";
              taskMessage := spawnTwo;
              taskToolUseId := "t2";
              subagentMessages := [childOf "t2" "b1"; childOf "t2" "b2"];
              startIndex := 0;
              endIndex := 4;
              subagentType := Str "general-purpose" |} in
  subagentMessages g
  = List.filter (parentIs "t2") (drop 1 (spawnTwo :: interleaved))
  /\ (startIndex g < endIndex g < length (spawnTwo :: interleaved))%nat.
Proof.
  cbv zeta.
  refine (let H := emitted_group_well_formed (spawnTwo :: interleaved) _ _ in
          conj (proj1 (proj2 (proj2 (proj2 H))))
               (proj1 (proj2 (proj2 (proj2 (proj2 (proj2 H))))))).
  vm_compute. right. left. reflexivity.
Defined.

(** X5. No sub-agent group is emitted twice: the groups of the output
    have pairwise distinct Task ids, also when several messages issue a
    Task call under the same id. *)
Theorem emitted_groups_once (messages : list ClaudeStreamMessage) :
  NoDup (map taskToolUseId (emittedGroups (groupMessages messages))).
Proof.
  destruct (emitted_ids messages) as (ids & Hnodup & Hall).
  enough (Heq : map taskToolUseId (emittedGroups (groupMessages messages)) = ids)
    by (rewrite Heq; exact Hnodup).
  clear Hnodup. induction Hall as [| id g ids gs Hg Hall IH]; cbn.
  - reflexivity.
  - destruct (collected_group messages id g Hg) as (-> & _).
    f_equal. exact IH.
Qed.

End EmittedGroupFacts.

(** ** Grouping and the visibility predicate *)

Section VisibilityOfGrouped.

Import Grouping Shapes Views ThirdPassInvariants Scenarios.

Lemma shown_are_standalone (messages : list ClaudeStreamMessage)
  (m : ClaudeStreamMessage) :
  In m (shownMessages (groupMessages messages)) ->
  standsAlone (subagentGroupsOf messages) m = true.
Proof.
  unfold groupMessages.
  rewrite shownMessages_expand, aggregateTechnical_expand
    by apply intermediate_nodes.
  rewrite <- shownMessages_expand.
  destruct (intermediate_facts messages) as (-> & _).
  intros Hin. apply List.filter_In in Hin. tauto.
Qed.

Lemma parent_of_or_else (m : ClaudeStreamMessage) (id : string) :
  getParentToolUseId m = Str id ->
  get m "parent_tool_use_id" = Str id /\ truthy (Str id) = true.
Proof.
  unfold getParentToolUseId, or_else.
  destruct (truthy (get m "parent_tool_use_id")) eqn:Ht; [| discriminate].
  intros Heq. rewrite Heq in Ht. auto.
Qed.

(** X6. The visibility predicate agrees with the grouping it is asked
    about: against the output of [groupMessages], every message inside a
    sub-agent group of the output is to be hidden, and no message shown
    by a normal node or an aggregate is. *)
Theorem shouldHideMessage_agrees (messages : list ClaudeStreamMessage) :
  (forall g m,
      In (GSubagent g) (groupMessages messages) ->
      In m (subagentMessages g) ->
      shouldHideMessage m (groupMessages messages) = true)
  /\ (forall m,
      In m (shownMessages (groupMessages messages)) ->
      shouldHideMessage m (groupMessages messages) = false).
Proof.
  split.
  - intros g m Hg Hm.
    pose proof (emitted_collected messages g Hg) as Hcollected.
    destruct (collected_group messages _ g Hcollected)
      as (_ & _ & _ & _ & Hmsgs & _).
    rewrite Hmsgs in Hm. apply List.filter_In in Hm as [_ Hparent].
    apply is_str_eq in Hparent.
    destruct (parent_of_or_else m _ Hparent) as [Hfield Htruthy].
    unfold shouldHideMessage, isSubagentMessage.
    rewrite Hparent, Hfield, Htruthy. cbn [orb].
    apply existsb_exists. exists (GSubagent g). split; [exact Hg |].
    cbn. apply String.eqb_refl.
  - intros m Hm. apply shown_are_standalone in Hm.
    unfold standsAlone in Hm. apply andb_true_iff in Hm as [Hm _].
    apply negb_true_iff in Hm.
    unfold shouldHideMessage.
    destruct (isSubagentMessage m); [| reflexivity].
    destruct (truthy (getParentToolUseId m)) eqn:Ht; [| reflexivity].
    apply not_true_is_false. intros Hex.
    apply existsb_exists in Hex as (node & Hnode & Hmatch).
    destruct node as [? ? | g | ? ?]; try discriminate.
    cbn in Hmatch. apply is_str_eq in Hmatch.
    pose proof (emitted_collected messages g Hnode) as Hcollected.
    unfold hasGroupFor in Hm. rewrite Ht, Hmatch, Hcollected in Hm.
    cbn in Hm. discriminate.
Qed.

Lemma shouldHideMessage_agrees_witness :
  shouldHideMessage (childOf "t1" "a2")
    (groupMessages (spawnTwo :: interleaved)) = true.
Proof.
  refine (proj1 (shouldHideMessage_agrees (spawnTwo :: interleaved))
            {| sg_id := "t1";
               taskMessage := spawnTwo;
               taskToolUseId := "t1";
               subagentMessages :=
                 [childOf "t1" "a1"; childOf "t1" "a2"; childOf "t1" "a3"];
               startIndex := 0;
               endIndex := 5;
               subagentType := Str "general-purpose" |}
            (childOf "t1" "a2") _ _).
  - vm_compute. left. reflexivity.
  - right. left. reflexivity.
Defined.

Lemma no_spawn_no_groups (messages : list ClaudeStreamMessage) (id : string) :
  Forall (fun m => hasTaskToolCall m = false) messages ->
  subagentGroupsOf messages !! id = None.
Proof.
  intros Hnone.
  destruct (subagentGroupsOf messages !! id) as [g |] eqn:Hg; [| reflexivity].
  exfalso.
  destruct (collected_group messages id g Hg) as (_ & _ & Hat & Hin & _).
  apply list_elem_of_lookup_2, list_elem_of_In in Hat.
  apply (proj1 (List.Forall_forall _ _) Hnone) in Hat.
  unfold extractTaskToolUseIds in Hin. rewrite Hat in Hin. destruct Hin.
Qed.

(** X7. A sequence in which no message issues a Task call is only
    partitioned: the output has no sub-agent group, and its normal nodes
    and aggregates show exactly the input messages, in order - also those
    that carry a parent id or a sidechain flag. *)
Theorem groupMessages_without_spawns (messages : list ClaudeStreamMessage) :
  Forall (fun m => hasTaskToolCall m = false) messages ->
  emittedGroups (groupMessages messages) = []
  /\ shownMessages (groupMessages messages) = messages.
Proof.
  intros Hnone. split.
  - destruct (emittedGroups (groupMessages messages)) as [| g gs] eqn:Hg;
      [reflexivity |].
    assert (Hin : In (GSubagent g) (groupMessages messages)).
    { apply In_emittedGroups. rewrite Hg. left. reflexivity. }
    apply emitted_collected in Hin.
    rewrite no_spawn_no_groups in Hin by exact Hnone. discriminate.
  - unfold groupMessages.
    rewrite shownMessages_expand, aggregateTechnical_expand
      by apply intermediate_nodes.
    rewrite <- shownMessages_expand.
    destruct (intermediate_facts messages) as (-> & _).
    apply List.forallb_filter_id. apply forallb_forall. intros m Hm.
    unfold standsAlone, hasGroupFor.
    assert (Hparent : match getParentToolUseId m with
                      | Str p => bool_decide
                                   (is_Some (subagentGroupsOf messages !! p))
                      | _ => false
                      end = false).
    { destruct (getParentToolUseId m); try reflexivity.
      rewrite no_spawn_no_groups by exact Hnone. reflexivity. }
    rewrite Hparent, andb_false_r. cbn [negb andb].
    apply negb_true_iff, not_true_is_false. intros Hex.
    apply existsb_exists in Hex as (id & _ & Hid).
    unfold hasCollected in Hid.
    rewrite no_spawn_no_groups in Hid by exact Hnone. discriminate.
Qed.

Lemma groupMessages_without_spawns_witness :
  emittedGroups (groupMessages [subagentReply; sidechainOnly; thinkingWithText])
  = []
  /\ shownMessages (groupMessages [subagentReply; sidechainOnly; thinkingWithText])
     = [subagentReply; sidechainOnly; thinkingWithText].
Proof.
  apply groupMessages_without_spawns.
  repeat (apply List.Forall_cons; [reflexivity |]). apply List.Forall_nil.
Defined.

End VisibilityOfGrouped.

(** ** The nodes of the grouped output *)

Section OutputNodeFacts.

Import Grouping Shapes Views ThirdPassInvariants FourthPassInvariants Scenarios.

Lemma separated_snoc (l : list MessageGroup) (g : MessageGroup) :
  separated l ->
  (forall g', last l = Some g' -> differ g' g) ->
  separated (l ++ [g]).
Proof.
  induction l as [| g1 l IH]; intros Hsep Hlast.
  - cbn. auto.
  - destruct l as [| g2 l].
    + cbn. split; [| auto]. apply Hlast. reflexivity.
    + cbn in Hsep. destruct Hsep as [Hd Hsep].
      change ((g1 :: g2 :: l) ++ [g]) with (g1 :: (g2 :: l) ++ [g]).
      cbn [separated app]. split; [exact Hd |].
      apply IH; [exact Hsep |]. intros g' Hg'. apply Hlast. exact Hg'.
Qed.

Lemma separated_middle (pre post : list MessageGroup) (g1 g2 : MessageGroup) :
  separated (pre ++ g1 :: g2 :: post) -> differ g1 g2.
Proof.
  induction pre as [| g pre IH]; cbn.
  - tauto.
  - intros [_ H]. apply IH. exact H.
Qed.

Lemma kindOfNode_uniform (ty : AggType) (m : ClaudeStreamMessage)
  (rest : list ClaudeStreamMessage) (i : nat) :
  uniformRun ty (m :: rest) -> kindOfNode (GAggregated (m :: rest) i) = Some ty.
Proof. intros Hrun. inversion Hrun; subst. assumption. Qed.

(** Closing the open aggregate keeps the emitted nodes in order. *)
Lemma closeAggregation_ok (messages : list ClaudeStreamMessage)
  (st : list MessageGroup * option Aggregation) :
  Compacted messages st ->
  Forall (nodeOk messages) (closeAggregation (fst st) (snd st))
  /\ separated (closeAggregation (fst st) (snd st)).
Proof.
  destruct st as [finalGroups cur]. intros (Hnodes & Hopen & Hsep & Hlast).
  cbn [fst snd] in *. unfold closeAggregation.
  destruct cur as [agg |]; [| auto].
  destruct Hopen as (m & rest & Hms & Hat & Hrun).
  split.
  - apply Forall_app. split; [exact Hnodes |]. repeat constructor.
    exists (aggType agg), m, rest. auto.
  - apply separated_snoc; [exact Hsep |]. intros g' Hg'.
    destruct (kindOfNode g') as [ty |] eqn:Hk; [| left; exact Hk].
    right. destruct (Hlast g' ty Hg' Hk) as (agg' & [= <-] & Hne).
    rewrite Hms in Hrun |- *.
    rewrite Hk, (kindOfNode_uniform _ _ _ _ Hrun). congruence.
Qed.

Lemma close_then_push (messages : list ClaudeStreamMessage)
  (st : list MessageGroup * option Aggregation) (g : MessageGroup) :
  Compacted messages st -> nodeOk messages g -> kindOfNode g = None ->
  Compacted messages (closeAggregation (fst st) (snd st) ++ [g], None).
Proof.
  intros Hst Hg Hkind. destruct (closeAggregation_ok messages st Hst) as [Hn Hs].
  split; [| split; [| split]]; cbn [fst snd].
  - apply Forall_app. split; [exact Hn | repeat constructor; exact Hg].
  - exact I.
  - apply separated_snoc; [exact Hs |]. intros g' _.
    destruct (kindOfNode g') eqn:Hk; [right | left; exact Hk].
    rewrite Hk, Hkind. discriminate.
  - intros g' ty Hlast Hk. rewrite last_snoc in Hlast. injection Hlast as <-.
    congruence.
Qed.

Lemma aggregateStep_compacted (messages : list ClaudeStreamMessage)
  (st : list MessageGroup * option Aggregation) (g : MessageGroup) :
  normalAt messages g ->
  Compacted messages st -> Compacted messages (aggregateStep st g).
Proof.
  intros Hg Hst.
  destruct g as [msg index | group | ms idx]; [| | destruct Hg].
  - cbn in Hg. destruct st as [finalGroups cur]. cbn [aggregateStep].
    destruct (getTechnicalMessageType msg) as [msgType |] eqn:Hty.
    + destruct Hst as (Hnodes & Hopen & Hsep & Hlast). cbn [fst snd] in *.
      destruct cur as [agg |].
      * destruct (AggType_eqb (aggType agg) msgType) eqn:Heq.
        -- apply AggType_eqb_eq in Heq.
           destruct Hopen as (m & rest & Hms & Hat & Hrun).
           split; [exact Hnodes |]. split; [| split; [exact Hsep |]];
             cbn [fst snd].
           ++ exists m, (rest ++ [msg]).
              cbn [agg_messages agg_startIndex aggType].
              split; [rewrite Hms; reflexivity |].
              split; [exact Hat |].
              apply Forall_app. split; [exact Hrun |].
              repeat constructor. congruence.
           ++ intros g' ty Hg' Hk.
              destruct (Hlast g' ty Hg' Hk) as (agg' & [= <-] & Hne).
              eexists. split; [reflexivity | exact Hne].
        -- destruct (closeAggregation_ok messages (finalGroups, Some agg))
             as [Hn Hs].
           { split; [| split; [| split]]; assumption. }
           cbn [fst snd] in Hn, Hs.
           split; [exact Hn |]. split; [| split; [exact Hs |]]; cbn [fst snd].
           ++ exists msg, []. cbn. split; [reflexivity |].
              split; [exact Hg | repeat constructor; exact Hty].
           ++ intros g' ty Hg' Hk. unfold closeAggregation in Hg'.
              rewrite last_snoc in Hg'. injection Hg' as <-.
              destruct Hopen as (m & rest & Hms & Hat & Hrun).
              rewrite Hms in Hk, Hrun.
              rewrite (kindOfNode_uniform _ _ _ _ Hrun) in Hk.
              injection Hk as <-.
              eexists. split; [reflexivity |]. cbn.
              intros Hsame. rewrite Hsame in Heq.
              destruct (aggType agg); discriminate.
      * split; [exact Hnodes |]. split; [| split; [exact Hsep |]];
          cbn [fst snd].
        -- exists msg, []. cbn. split; [reflexivity |].
           split; [exact Hg | repeat constructor; exact Hty].
        -- intros g' ty Hg' Hk.
           destruct (Hlast g' ty Hg' Hk) as (agg' & Habs & _). discriminate.
    + apply (close_then_push messages (finalGroups, cur)); [exact Hst | | reflexivity].
      cbn. auto.
  - destruct st as [finalGroups cur]. cbn [aggregateStep].
    apply (close_then_push messages (finalGroups, cur)); [exact Hst | | reflexivity].
    exact I.
Qed.

Lemma groupMessages_compacted (messages : list ClaudeStreamMessage) :
  Forall (nodeOk messages) (groupMessages messages)
  /\ separated (groupMessages messages).
Proof.
  unfold groupMessages, aggregateTechnical.
  destruct (intermediate_facts messages) as (_ & _ & Hnormal).
  assert (H : forall l st,
             Forall (normalAt messages) l -> Compacted messages st ->
             Compacted messages (fold_left aggregateStep l st)).
  { induction l as [| g l IH]; intros st Hl Hst; cbn [fold_left].
    - exact Hst.
    - inversion Hl; subst. apply IH; [assumption |].
      apply aggregateStep_compacted; assumption. }
  specialize (H (intermediateGroupsOf messages) ([], None) Hnormal).
  destruct (fold_left aggregateStep (intermediateGroupsOf messages) ([], None))
    as [finalGroups cur].
  apply (closeAggregation_ok messages (finalGroups, cur)). apply H.
  split; [constructor |]. split; [exact I |]. split; [exact I |].
  intros g ty Hg. discriminate.
Qed.

(** X2. Every node of the output is in its place.  A normal node carries
    the input message of its index, and that message is not aggregable,
    so no tool-only or thinking-only message is left standing alone.  An
    aggregate is non-empty, all its messages classify to one technical
    kind, and its index is the input index of its first message. *)
Theorem groupMessages_nodes_in_place (messages : list ClaudeStreamMessage) :
  (forall m i,
      In (GNormal m i) (groupMessages messages) ->
      messages !! i = Some m /\ getTechnicalMessageType m = None)
  /\ (forall ms i,
      In (GAggregated ms i) (groupMessages messages) ->
      exists ty m rest,
        ms = m :: rest /\ messages !! i = Some m /\ uniformRun ty ms).
Proof.
  destruct (groupMessages_compacted messages) as [Hnodes _].
  split.
  - intros m i Hin.
    exact (proj1 (List.Forall_forall _ _) Hnodes _ Hin).
  - intros ms i Hin.
    exact (proj1 (List.Forall_forall _ _) Hnodes _ Hin).
Qed.

(** X3. Aggregates are maximal: two neighbouring aggregates of the output
    are runs of different technical kinds. *)
Theorem adjacent_aggregates_differ (messages : list ClaudeStreamMessage)
  (pre post : list MessageGroup) (ms1 ms2 : list ClaudeStreamMessage)
  (i1 i2 : nat) :
  groupMessages messages
  = pre ++ GAggregated ms1 i1 :: GAggregated ms2 i2 :: post ->
  exists ty1 ty2,
    uniformRun ty1 ms1 /\ uniformRun ty2 ms2 /\ ty1 <> ty2.
Proof.
  intros Hout. destruct (groupMessages_compacted messages) as [Hnodes Hsep].
  rewrite Hout in Hnodes, Hsep.
  apply separated_middle in Hsep.
  apply Forall_app in Hnodes as [_ Hnodes].
  inversion Hnodes as [| ? ? H1 Hnodes']; subst.
  inversion Hnodes' as [| ? ? H2 _]; subst.
  destruct H1 as (ty1 & m1 & rest1 & -> & _ & Hrun1).
  destruct H2 as (ty2 & m2 & rest2 & -> & _ & Hrun2).
  exists ty1, ty2. split; [exact Hrun1 |]. split; [exact Hrun2 |].
  unfold differ in Hsep.
  rewrite (kindOfNode_uniform _ _ _ _ Hrun1),
    (kindOfNode_uniform _ _ _ _ Hrun2) in Hsep.
  destruct Hsep as [Hsep | Hsep]; congruence.
Qed.

End OutputNodeFacts.

(** ** Structure of the Gemini conversion *)

Section GeminiConversionFacts.

Import Gemini GeminiViews Scenarios.

Variable Number_of_string : string -> number.
Variable JSON_stringify : value -> string.

Abbreviation convertTurn' := (convertTurn Number_of_string JSON_stringify).
Abbreviation convert' :=
  (convertGeminiSessionDetailToClaudeMessages Number_of_string JSON_stringify).
Abbreviation extractUsage := (Gemini.extractGeminiUsage Number_of_string).

(** The loop over the tool calls, as a map and a filter. *)
Lemma fold_convertToolCall (msg : value) (toolCalls : list value)
  (assistantContent converted : list value) :
  fold_left (convertToolCall JSON_stringify msg) toolCalls
    (assistantContent, converted)
  = (assistantContent ++ map toolUseBlock toolCalls,
     converted ++ map (toolResultMessage JSON_stringify msg)
                    (List.filter hasResult toolCalls)).
Proof.
  revert assistantContent converted.
  induction toolCalls as [| c cs IH]; intros ac conv; cbn [fold_left].
  - cbn. rewrite !app_nil_r. reflexivity.
  - unfold convertToolCall at 2. cbn [map List.filter].
    fold (toolUseBlock c). fold (hasResult c).
    destruct (hasResult c); rewrite IH; cbn [map];
      rewrite <- !app_assoc; reflexivity.
Qed.

Lemma toolCalls_loop (msg : value) (converted : list value) :
  match get msg "toolCalls" with
  | Arr toolCalls =>
      fold_left (convertToolCall JSON_stringify msg) toolCalls ([], converted)
  | _ => ([], converted)
  end
  = (map toolUseBlock (toolCallsOf msg),
     converted ++ map (toolResultMessage JSON_stringify msg)
                    (List.filter hasResult (toolCallsOf msg))).
Proof.
  unfold toolCallsOf. destruct (get msg "toolCalls");
    try (cbn; rewrite app_nil_r; reflexivity).
  apply fold_convertToolCall.
Qed.

(** A model turn, appended to what was converted before. *)
Lemma convertTurn_model (converted : list value) (msg : value) :
  is_str (get msg "type") "user" = false ->
  convertTurn' converted msg
  = converted
    ++ map (toolResultMessage JSON_stringify msg)
         (List.filter hasResult (toolCallsOf msg))
    ++ Obj [("type", Str "assistant");
            ("message",
             Obj [("content",
                   Arr (if (0 <? length (assistantBlocks msg))%nat
                        then assistantBlocks msg
                        else [Obj [("type", Str "text"); ("text", Str "")]]));
                  ("role", Str "assistant")]);
            ("timestamp", get msg "timestamp");
            ("engine", Str "gemini");
            ("model", get msg "model")]
    :: match extractUsage (get msg "tokens") with
       | Some usage =>
           [Obj [("type", Str "result");
                 ("subtype", Str "success");
                 ("usage", usageValue usage);
                 ("timestamp", get msg "timestamp");
                 ("engine", Str "gemini");
                 ("model", get msg "model")]]
       | None => []
       end.
Proof.
  intros Hkind. unfold convertTurn. rewrite Hkind, toolCalls_loop.
  unfold assistantBlocks.
  destruct (truthy (get msg "content"));
    destruct (extractUsage (get msg "tokens"));
    rewrite <- ?app_assoc; cbn [app]; rewrite ?app_nil_r; reflexivity.
Qed.

(** X8. A model turn is converted to: one [tool_result] user message per
    tool call that has a result, in call order; then exactly one
    assistant message, whose content is one [tool_use] block per tool
    call followed by the narrative text if there is any (a single empty
    text block if there is neither); then one [result] message carrying
    the normalized usage exactly when the turn's tokens yield one. *)
Theorem convertTurn_model_turn (converted : list value) (msg : value) :
  is_str (get msg "type") "user" = false ->
  exists assistant tail,
    convertTurn' converted msg
    = converted
      ++ map (toolResultMessage JSON_stringify msg)
           (List.filter hasResult (toolCallsOf msg))
      ++ assistant :: tail
    /\ get assistant "type" = Str "assistant"
    /\ get (get assistant "message") "content"
       = Arr (match assistantBlocks msg with
              | [] => [Obj [("type", Str "text"); ("text", Str "")]]
              | blocks => blocks
              end)
    /\ match extractUsage (get msg "tokens") with
       | Some usage =>
           exists result,
             tail = [result] /\ get result "type" = Str "result"
             /\ get result "usage" = usageValue usage
       | None => tail = []
       end.
Proof.
  intros Hkind. rewrite (convertTurn_model converted msg Hkind).
  eexists. eexists. split; [reflexivity |]. split; [reflexivity |]. split.
  - cbn. destruct (assistantBlocks msg); reflexivity.
  - destruct (extractUsage (get msg "tokens")); [| reflexivity].
    eexists. split; [reflexivity |]. split; reflexivity.
Qed.

Lemma convertTurn_user (converted : list value) (msg : value) :
  is_str (get msg "type") "user" = true ->
  exists user,
    convertTurn' converted msg = converted ++ [user]
    /\ get user "type" = Str "user" /\ get user "engine" = Str "gemini".
Proof.
  intros Hkind. unfold convertTurn. rewrite Hkind.
  eexists. split; [reflexivity |]. split; reflexivity.
Qed.

Lemma toolResultMessage_ok (msg toolCall : value) :
  convertedOk (toolResultMessage JSON_stringify msg toolCall).
Proof.
  split; [reflexivity |]. split.
  - exists "user". split; [reflexivity | left; reflexivity].
  - cbn. discriminate.
Qed.

Lemma convertTurn_ok (converted : list value) (msg : value) :
  Forall convertedOk converted -> Forall convertedOk (convertTurn' converted msg).
Proof.
  intros Hold. destruct (is_str (get msg "type") "user") eqn:Hkind.
  - unfold convertTurn. rewrite Hkind. apply Forall_app. split; [exact Hold |].
    repeat constructor.
    + exists "user". split; [reflexivity | left; reflexivity].
    + cbn. discriminate.
  - rewrite (convertTurn_model converted msg Hkind).
    apply Forall_app. split; [exact Hold |].
    apply Forall_app. split.
    + apply List.Forall_forall. intros m Hm.
      apply in_map_iff in Hm as (c & <- & _). apply toolResultMessage_ok.
    + constructor.
      * split; [reflexivity |]. split.
        -- exists "assistant". split; [reflexivity | right; left; reflexivity].
        -- intros _. cbn.
           destruct (assistantBlocks msg) as [| b bs]; cbn; eauto.
      * destruct (extractUsage (get msg "tokens")); [| constructor].
        repeat constructor.
        -- exists "result". split; [reflexivity | right; right; left; reflexivity].
        -- cbn. discriminate.
Qed.

(** X9. Every message the converter produces carries the engine tag
    [gemini] and one of the kinds user, assistant, result; and no
    assistant message has an empty content array. *)
Theorem converted_messages_ok (detail m : value) :
  In m (convert' detail) ->
  get m "engine" = Str "gemini"
  /\ (exists k, get m "type" = Str k /\ In k convertedKinds)
  /\ (get m "type" = Str "assistant" ->
      exists block blocks,
        get (get m "message") "content" = Arr (block :: blocks)).
Proof.
  unfold convertGeminiSessionDetailToClaudeMessages.
  destruct (get detail "messages") as [| | | | | turns |]; try (intros []).
  assert (H : forall converted,
             Forall convertedOk converted ->
             Forall convertedOk (fold_left convertTurn' turns converted)).
  { induction turns as [| t ts IH]; intros converted Hc; cbn [fold_left].
    - exact Hc.
    - apply IH. apply convertTurn_ok. exact Hc. }
  intros Hin.
  exact (proj1 (List.Forall_forall _ _) (H [] (List.Forall_nil _)) m Hin).
Qed.

End GeminiConversionFacts.

(** ** The normalized usage *)

Section UsageFacts.

Import Gemini Scenarios.

Variable Number_of_string : string -> number.

Abbreviation extractUsage' := (Gemini.extractGeminiUsage Number_of_string).

(** X10. The normalizer never returns an all-zero record: a returned
    usage has a positive input count, a positive output count, or a
    positive cached count attached. *)
Theorem extracted_usage_positive (tokens : value) (u : GeminiUsage) :
  extractUsage' tokens = Some u ->
  0 < input_tokens u \/ 0 < output_tokens u
  \/ exists c, cached_input_tokens u = Some c /\ 0 < c.
Proof.
  unfold Gemini.extractGeminiUsage.
  destruct (notAnObject tokens); [discriminate |].
  destruct (Z.leb_spec (default 0 (Gemini.derivedInput Number_of_string tokens)) 0)
    as [Hi | Hi]; cbn [andb].
  - destruct (Z.leb_spec
                (default 0 (Gemini.derivedOutput Number_of_string tokens)) 0)
      as [Ho | Ho]; cbn [andb].
    + destruct (Z.leb_spec (Gemini.cachedOf Number_of_string tokens) 0)
        as [Hc | Hc]; [discriminate |].
      intros [= <-]. cbn. right. right.
      destruct (Z.ltb_spec 0 (Gemini.cachedOf Number_of_string tokens));
        [eauto | lia].
    + intros [= <-]. cbn. right. left. lia.
  - intros [= <-]. cbn. left. lia.
Qed.

(** X11. Reading a normalized usage back.  The usage object stored on a
    [result] message is itself accepted by the normalizer: it yields the
    same input and output counts when one of them is positive; the
    cached count is not read back, since it is stored under
    [cached_input_tokens], a name the normalizer does not look for, so a
    usage with only a cached count reads back as null. *)
Theorem usage_read_back (u : GeminiUsage) :
  0 <= input_tokens u -> 0 <= output_tokens u ->
  extractUsage' (usageValue u)
  = if (0 <? input_tokens u) || (0 <? output_tokens u)
    then Some {| input_tokens := input_tokens u;
                 output_tokens := output_tokens u;
                 cached_input_tokens := None |}
    else None.
Proof.
  intros Hi Ho. destruct u as [i o c]. cbn [input_tokens output_tokens] in *.
  assert (Hin : Gemini.derivedInput Number_of_string
                  (usageValue {| input_tokens := i; output_tokens := o;
                                 cached_input_tokens := c |}) = Some i)
    by (destruct c; reflexivity).
  assert (Hout : Gemini.derivedOutput Number_of_string
                   (usageValue {| input_tokens := i; output_tokens := o;
                                  cached_input_tokens := c |}) = Some o)
    by (destruct c; reflexivity).
  assert (Hcached : Gemini.cachedOf Number_of_string
                      (usageValue {| input_tokens := i; output_tokens := o;
                                     cached_input_tokens := c |}) = 0)
    by (destruct c; reflexivity).
  unfold Gemini.extractGeminiUsage. rewrite Hin, Hout, Hcached.
  change (default 0 (Some i)) with i. change (default 0 (Some o)) with o.
  change (notAnObject (usageValue {| input_tokens := i; output_tokens := o;
                                     cached_input_tokens := c |}))
    with false.
  change (0 <=? 0) with true. change (0 <? 0) with false.
  rewrite andb_true_r.
  destruct (Z.leb_spec i 0), (Z.leb_spec o 0), (Z.ltb_spec 0 i), (Z.ltb_spec 0 o);
    try lia; cbn [andb orb]; try reflexivity;
    rewrite !Z.max_l by lia; reflexivity.
Qed.

End UsageFacts.

Section UsageScenarios.

Import Gemini Scenarios.

Lemma extracted_usage_positive_witness :
  0 < 107 \/ 0 < 23 \/ exists c, Some 4 = Some c /\ 0 < c.
Proof.
  exact (extracted_usage_positive Number_of_digits plainCounts
           {| input_tokens := 107; output_tokens := 23;
              cached_input_tokens := Some 4 |} eq_refl).
Defined.

Lemma usage_read_back_witness :
  Gemini.extractGeminiUsage Number_of_digits
    (usageValue {| input_tokens := 100; output_tokens := 20;
                   cached_input_tokens := Some 4 |})
  = Some {| input_tokens := 100; output_tokens := 20;
            cached_input_tokens := None |}.
Proof.
  apply (usage_read_back Number_of_digits
           {| input_tokens := 100; output_tokens := 20;
              cached_input_tokens := Some 4 |}); cbn; lia.
Defined.

Lemma convertTurn_model_turn_witness :
  exists assistant tail,
    convertTurn Number_of_digits stringifyKind [] geminiTurn
    = [] ++ map (toolResultMessage stringifyKind geminiTurn)
              (List.filter GeminiViews.hasResult
                 (GeminiViews.toolCallsOf geminiTurn))
      ++ assistant :: tail
    /\ get assistant "type" = Str "assistant".
Proof.
  destruct (convertTurn_model_turn Number_of_digits stringifyKind []
              geminiTurn eq_refl) as (assistant & tail & Heq & Hkind & _).
  exists assistant, tail. split; [exact Heq | exact Hkind].
Defined.

Lemma converted_messages_ok_witness :
  get (toolResultMessage stringifyKind geminiTurn readFileCall) "engine"
  = Str "gemini".
Proof.
  refine (proj1 (converted_messages_ok Number_of_digits stringifyKind
                   fixBugDetail _ _)).
  vm_compute. right. left. reflexivity.
Defined.

End UsageScenarios.

(** ** Totals, counts and time span of the ledger *)

Section LedgerExtras.

Import Billing BillingViews.

Variable extract : value -> StandardizedTokenUsage.
Variable Cost : Type.
Variable cost_zero : Cost.
Variable cost_add : Cost -> Cost -> Cost.
Variable calculateMessageCost :
  StandardizedTokenUsage -> string -> value -> Cost.
Variable Date_parse : string -> option Z.

Abbreviation candidateX :=
  (candidateEvent extract Cost calculateMessageCost Date_parse).
Abbreviation ledgerMapX :=
  (scanAll extract Cost calculateMessageCost Date_parse).
Abbreviation aggregateX :=
  (aggregateSessionCost extract Cost cost_zero cost_add calculateMessageCost
     Date_parse).
Abbreviation addEventX := (addEvent Cost cost_add).

Lemma fold_addEvent (evs : list (BillingEvent Cost))
  (t : SessionCostTotals Cost) :
  let t' := fold_left addEventX evs t in
  totalTokens Cost t'
  = totalTokens Cost t
    + sumOver (fun e => calculateTotalTokens (tokens Cost e)) evs
  /\ inputTokens Cost t'
     = inputTokens Cost t + sumOver (fun e => input_tokens (tokens Cost e)) evs
  /\ outputTokens Cost t'
     = outputTokens Cost t + sumOver (fun e => output_tokens (tokens Cost e)) evs
  /\ cacheReadTokens Cost t'
     = cacheReadTokens Cost t
       + sumOver (fun e => cache_read_tokens (tokens Cost e)) evs
  /\ cacheWriteTokens Cost t'
     = cacheWriteTokens Cost t
       + sumOver (fun e => cache_creation_tokens (tokens Cost e)) evs.
Proof.
  revert t. induction evs as [| e evs IH]; intros t; cbv zeta; cbn [fold_left].
  - unfold sumOver. cbn. repeat split; lia.
  - destruct (IH (addEventX t e)) as (H1 & H2 & H3 & H4 & H5).
    rewrite H1, H2, H3, H4, H5. unfold sumOver. cbn. repeat split; lia.
Qed.

Lemma sumOver_total (evs : list (BillingEvent Cost)) :
  sumOver (fun e => calculateTotalTokens (tokens Cost e)) evs
  = sumOver (fun e => input_tokens (tokens Cost e)) evs
    + sumOver (fun e => output_tokens (tokens Cost e)) evs
    + sumOver (fun e => cache_read_tokens (tokens Cost e)) evs
    + sumOver (fun e => cache_creation_tokens (tokens Cost e)) evs.
Proof.
  unfold sumOver. induction evs as [| e evs IH]; cbn.
  - reflexivity.
  - rewrite IH. unfold calculateTotalTokens. lia.
Qed.

(** X12. The totals are sums over the final event list: each category
    total is the sum of that category over the events, and the total
    token count is both the sum of the events' totals and the sum of the
    four category totals. *)
Theorem totals_are_sums (messages : list value) :
  let result := aggregateX messages in
  let t := totals Cost result in
  let evs := events Cost result in
  totalTokens Cost t
  = sumOver (fun e => calculateTotalTokens (tokens Cost e)) evs
  /\ inputTokens Cost t = sumOver (fun e => input_tokens (tokens Cost e)) evs
  /\ outputTokens Cost t = sumOver (fun e => output_tokens (tokens Cost e)) evs
  /\ cacheReadTokens Cost t
     = sumOver (fun e => cache_read_tokens (tokens Cost e)) evs
  /\ cacheWriteTokens Cost t
     = sumOver (fun e => cache_creation_tokens (tokens Cost e)) evs
  /\ totalTokens Cost t
     = inputTokens Cost t + outputTokens Cost t
       + cacheReadTokens Cost t + cacheWriteTokens Cost t.
Proof.
  cbv zeta. cbn [totals events aggregateSessionCost].
  set (evs := sortBy (compareEvents Cost) (mapValues Cost (ledgerMapX messages))).
  destruct (fold_addEvent evs
              {| totalCost := cost_zero; totalTokens := 0; inputTokens := 0;
                 outputTokens := 0; cacheReadTokens := 0;
                 cacheWriteTokens := 0 |}) as (H1 & H2 & H3 & H4 & H5).
  cbn [totalTokens inputTokens outputTokens cacheReadTokens cacheWriteTokens]
    in *.
  rewrite H1, H2, H3, H4, H5, sumOver_total. repeat split; lia.
Qed.

(** X13. Every event of the ledger comes from a billable message with a
    non-zero token count: it records the message at its scan position,
    that message passes its engine's billability rule (so it is never a
    Codex [thread_token_usage_updated] record), and the event's tokens
    and total are those extracted from it. *)
Theorem events_are_billable (messages : list value) (e : BillingEvent Cost) :
  In e (events Cost (aggregateX messages)) ->
  messages !! order Cost e = Some (message Cost e)
  /\ isBillable (message Cost e) = true
  /\ tokens Cost e = extract (message Cost e)
  /\ totalTokenCount Cost e = calculateTotalTokens (tokens Cost e)
  /\ totalTokenCount Cost e <> 0
  /\ key Cost e = getBillingKey (message Cost e) (order Cost e)
  /\ ~ (is_str (getEngineType (message Cost e)) "codex" = true
        /\ is_str (get (get (message Cost e) "codexMetadata") "codexItemType")
             "thread_token_usage_updated" = true).
Proof.
  intros Hin.
  apply (Permutation_in _ (events_perm extract Cost cost_zero cost_add
                             calculateMessageCost Date_parse messages)) in Hin.
  apply in_map_iff in Hin as ([k s] & <- & Hin).
  destruct (scanAll_invariant extract Cost calculateMessageCost Date_parse
              messages) as [_ Hsound _].
  destruct (Hsound k s Hin) as (i & msg & Hi & Hok & -> & _).
  cbn [snd order message tokens totalTokenCount key candidateEvent].
  unfold isCandidate in Hok. apply andb_true_iff in Hok as [Hbill Hnz].
  apply negb_true_iff, Z.eqb_neq in Hnz.
  repeat (split; [first [assumption | reflexivity] |]).
  intros [Hcodex Hitem]. unfold isBillable in Hbill.
  rewrite Hcodex, Hitem in Hbill. discriminate.
Qed.

Lemma length_mapSet (k : string) (e : BillingEvent Cost)
  (m : list (string * BillingEvent Cost)) :
  (length (mapSet Cost k e m) <= S (length m))%nat.
Proof.
  induction m as [| [k' e'] m IH]; cbn.
  - lia.
  - destruct (String.eqb k k'); cbn; lia.
Qed.

(** X14. Deduplication only removes: the number of billed events (the
    [assistantMessageCount] of the result) is at most the number of
    messages that are billable with a non-zero token count, hence at most
    the number of messages. *)
Theorem event_count_bound (messages : list value) :
  assistantMessageCount Cost (aggregateX messages)
  = length (events Cost (aggregateX messages))
  /\ (length (events Cost (aggregateX messages))
      <= length (List.filter (isCandidate extract) messages)
      <= length messages)%nat.
Proof.
  split; [reflexivity |]. split; [| apply List.filter_length_le].
  rewrite (Permutation_length
             (events_perm extract Cost cost_zero cost_add calculateMessageCost
                Date_parse messages)).
  unfold mapValues. rewrite length_map. unfold scanAll.
  apply (forEach_invariant
           (scanMessage extract Cost calculateMessageCost Date_parse)
           (fun scanned m =>
              (length m <= length (List.filter (isCandidate extract) scanned))%nat)).
  - cbn. lia.
  - intros scanned x m IH. rewrite List.filter_app, length_app. cbn [List.filter].
    destruct (isCandidate extract x) eqn:Hx.
    + rewrite scan_candidate by exact Hx.
      destruct (supersedes _ _ _).
      * pose proof (length_mapSet (getBillingKey x (length scanned))
                      (candidateX x (length scanned)) m). cbn. lia.
      * cbn. lia.
    + rewrite scan_skips by exact Hx. cbn. lia.
Qed.

Lemma aggregate_snoc_unbilled (messages : list value) (x : value) :
  isCandidate extract x = false ->
  aggregateX (messages ++ [x]) = aggregateX messages.
Proof.
  intros Hx. unfold aggregateSessionCost, scanAll.
  rewrite forEach_snoc, scan_skips by exact Hx. reflexivity.
Qed.

(** X16. Messages that are not billable, or have no tokens, change
    nothing when they are appended: the aggregation is the same. *)
Theorem append_unbilled (messages tail : list value) :
  Forall (fun x => isCandidate extract x = false) tail ->
  aggregateX (messages ++ tail) = aggregateX messages.
Proof.
  induction tail as [| x tail IH] using rev_ind; intros Htail.
  - rewrite app_nil_r. reflexivity.
  - apply Forall_app in Htail as [Htail Hx].
    rewrite app_assoc, aggregate_snoc_unbilled; [exact (IH Htail) |].
    inversion Hx; assumption.
Qed.

End LedgerExtras.

Section TimeSpanFacts.

Import Billing BillingViews.

Lemma fold_min_spec (rest : list Z) (v : Z) :
  let f := fold_left Z.min rest v in
  f <= v /\ (forall t, In t rest -> f <= t) /\ In f (v :: rest).
Proof.
  revert v. induction rest as [| r rest IH]; intros v; cbv zeta; cbn [fold_left].
  - split; [lia |]. split; [intros t [] | left; reflexivity].
  - destruct (IH (Z.min v r)) as (Hle & Hall & Hin).
    split; [lia |]. split.
    + intros t [<- | Ht]; [lia | apply Hall; exact Ht].
    + destruct Hin as [Heq | Hin]; [| right; right; exact Hin].
      rewrite <- Heq.
      destruct (Z.min_spec v r) as [[_ Hm] | [_ Hm]]; rewrite Hm.
      * left. reflexivity.
      * right. left. reflexivity.
Qed.

Lemma fold_max_spec (rest : list Z) (v : Z) :
  let f := fold_left Z.max rest v in
  v <= f /\ (forall t, In t rest -> t <= f) /\ In f (v :: rest).
Proof.
  revert v. induction rest as [| r rest IH]; intros v; cbv zeta; cbn [fold_left].
  - split; [lia |]. split; [intros t [] | left; reflexivity].
  - destruct (IH (Z.max v r)) as (Hle & Hall & Hin).
    split; [lia |]. split.
    + intros t [<- | Ht]; [lia | apply Hall; exact Ht].
    + destruct Hin as [Heq | Hin]; [| right; right; exact Hin].
      rewrite <- Heq.
      destruct (Z.max_spec v r) as [[_ Hm] | [_ Hm]]; rewrite Hm.
      * right. left. reflexivity.
      * left. reflexivity.
Qed.

Lemma minOf_maxOf_spec (values : list Z) :
  match minOf values, maxOf values with
  | Some lo, Some hi =>
      In lo values /\ In hi values /\ forall t, In t values -> lo <= t <= hi
  | None, None => values = []
  | _, _ => False
  end.
Proof.
  destruct values as [| v rest]; cbn [minOf maxOf]; [reflexivity |].
  destruct (fold_min_spec rest v) as (Hlo & Hlos & Hlo_in).
  destruct (fold_max_spec rest v) as (Hhi & Hhis & Hhi_in).
  split; [exact Hlo_in |]. split; [exact Hhi_in |].
  intros t [<- | Ht]; [lia |]. split; [apply Hlos | apply Hhis]; exact Ht.
Qed.

Variable extract : value -> StandardizedTokenUsage.
Variable Cost : Type.
Variable cost_zero : Cost.
Variable cost_add : Cost -> Cost -> Cost.
Variable calculateMessageCost :
  StandardizedTokenUsage -> string -> value -> Cost.
Variable Date_parse : string -> option Z.

Abbreviation aggregateT :=
  (aggregateSessionCost extract Cost cost_zero cost_add calculateMessageCost
     Date_parse).

(** X15. The time span of the result brackets the ledger: when some event
    has a timestamp, the first and last timestamps are both present, each
    is the timestamp of an event, and every event's timestamp lies
    between them; when no event has one, both are absent. *)
Theorem time_span_brackets (messages : list value) :
  let result := aggregateT messages in
  match firstEventTimestampMs Cost result, lastEventTimestampMs Cost result with
  | Some lo, Some hi =>
      (exists e, In e (events Cost result) /\ timestampMs Cost e = Some lo)
      /\ (exists e, In e (events Cost result) /\ timestampMs Cost e = Some hi)
      /\ (forall e t, In e (events Cost result) ->
                      timestampMs Cost e = Some t -> lo <= t <= hi)
  | None, None =>
      forall e, In e (events Cost result) -> timestampMs Cost e = None
  | _, _ => False
  end.
Proof.
  cbv zeta. cbn [firstEventTimestampMs lastEventTimestampMs events
                 aggregateSessionCost].
  set (evs := sortBy (compareEvents Cost)
                (mapValues Cost
                   (scanAll extract Cost calculateMessageCost Date_parse
                      messages))).
  pose proof (minOf_maxOf_spec (omap (timestampMs Cost) evs)) as Hspec.
  assert (Hmem : forall t, In t (omap (timestampMs Cost) evs)
                           <-> exists e, In e evs /\ timestampMs Cost e = Some t).
  { intros t. rewrite <- list_elem_of_In, list_elem_of_omap.
    split; intros (e & He & Ht); exists e; split; try exact Ht;
      apply list_elem_of_In; exact He. }
  destruct (minOf _) as [lo |], (maxOf _) as [hi |]; try contradiction.
  - destruct Hspec as (Hlo & Hhi & Hall).
    split; [apply Hmem; exact Hlo |]. split; [apply Hmem; exact Hhi |].
    intros e t He Ht. apply Hall, Hmem. eauto.
  - intros e He. destruct (timestampMs Cost e) as [t |] eqn:Ht; [| reflexivity].
    assert (Hin : In t (omap (timestampMs Cost) evs)) by (apply Hmem; eauto).
    rewrite Hspec in Hin. destruct Hin.
Qed.

End TimeSpanFacts.

(** ** Billing keys, model names and engines *)

Section KeyFacts.

Import Billing BillingViews GeminiTypes Scenarios.

Lemma unkeyed_key (message : value) (index : nat) :
  unkeyed message -> getBillingKey message index = "index:" +:+ pretty index.
Proof.
  intros (H1 & H2 & H3 & H4). unfold getBillingKey.
  rewrite H1, H2, H3, H4. reflexivity.
Qed.

(** X17. A message that carries no id, uuid or timestamp is keyed by its
    position, and that key is its own: no message at another position,
    keyed in whatever way, has the same key - so such a message never
    supersedes another one and is never superseded. *)
Theorem index_key_is_private (message other : value) (i j : nat) :
  unkeyed message -> j <> i ->
  getBillingKey other j <> getBillingKey message i.
Proof.
  intros Hun Hne. rewrite (unkeyed_key message i Hun). unfold getBillingKey.
  destruct (nonblankString (get (get other "message") "id"));
    [cbn; discriminate |].
  destruct (nonblankString (get other "id")); [cbn; discriminate |].
  destruct (nonblankString (get other "uuid")); [cbn; discriminate |].
  destruct (nonblankString _); [cbn; discriminate |].
  cbn. intros [= H]. exact (Hne (pretty_nat_inj _ _ H)).
Qed.

Lemma index_key_is_private_witness :
  getBillingKey (Obj [("uuid", Str "index:3")]) 2
  <> getBillingKey (Obj [("type", Str "assistant")]) 3.
Proof.
  apply (index_key_is_private (Obj [("type", Str "assistant")])
           (Obj [("uuid", Str "index:3")]) 3 2).
  - repeat split.
  - discriminate.
Defined.

Lemma nonblankString_Some (v : value) (s : string) :
  nonblankString v = Some s -> v = Str s /\ nonblank s = true.
Proof.
  destruct v; cbn; try discriminate.
  destruct (nonblank s0) eqn:H; [intros [= <-]; auto | discriminate].
Qed.

(** X18. The resolved model name is never blank, and it is either the
    string held by one of the three model fields of the message or one of
    the three fallback constants. *)
Theorem model_name_not_blank (message engine : value) :
  let name := getModelName message engine in
  nonblank name = true
  /\ (In (Str name) [get message "model";
                     get (get message "message") "model";
                     get (get message "codexMetadata") "model"]
      \/ In name [CODEX_MODEL_FALLBACK; GEMINI_MODEL_FALLBACK; MODEL_FALLBACK]).
Proof.
  cbv zeta. unfold getModelName.
  destruct (nonblankString (get message "model")) eqn:H1.
  { destruct (nonblankString_Some _ _ H1) as [-> Hn].
    split; [exact Hn | left; cbn; auto]. }
  destruct (nonblankString (get (get message "message") "model")) eqn:H2.
  { destruct (nonblankString_Some _ _ H2) as [-> Hn].
    split; [exact Hn | left; cbn; auto]. }
  destruct (nonblankString (get (get message "codexMetadata") "model")) eqn:H3.
  { destruct (nonblankString_Some _ _ H3) as [-> Hn].
    split; [exact Hn | left; cbn; auto]. }
  destruct (is_str engine "codex"); [split; [reflexivity | right; cbn; auto] |].
  destruct (is_str engine "gemini"); (split; [reflexivity | right; cbn; auto]).
Qed.

Lemma hasProperty_lookup (k : string) (fs : list (string * value)) :
  lookup_field k fs <> Undefined ->
  existsb (fun kv => String.eqb k (fst kv)) fs = true.
Proof.
  induction fs as [| [k' v] fs IH]; cbn; [congruence |].
  destruct (String.eqb k k'); [reflexivity | exact IH].
Qed.

(** X19. The two Gemini detectors agree.  [isGeminiMessage] holds exactly
    when the provider recorded in [geminiMetadata] is [gemini]; and for a
    message object with no engine tag and no Codex metadata, the billing pass
    takes the engine to be [gemini] exactly for the messages
    [isGeminiMessage] recognises, and [claude] for the others. *)
Theorem gemini_detection_agrees (msg : value) :
  isGeminiMessage msg
  = is_str (get (get msg "geminiMetadata") "provider") "gemini"
  /\ (isObject msg = true ->
      truthy (get msg "engine") = false ->
      truthy (get msg "codexMetadata") = false ->
      getEngineType msg
      = if isGeminiMessage msg then Str "gemini" else Str "claude").
Proof.
  assert (Heq : isGeminiMessage msg
                = is_str (get (get msg "geminiMetadata") "provider") "gemini").
  { unfold isGeminiMessage.
    destruct (is_str (get (get msg "geminiMetadata") "provider") "gemini") eqn:Hp;
      [| apply andb_false_r].
    destruct msg as [| | | | | | fs]; try discriminate.
    cbn [isObject hasProperty andb]. rewrite andb_true_r.
    apply hasProperty_lookup. cbn [get] in Hp.
    intros Hundef. rewrite Hundef in Hp. discriminate. }
  split; [exact Heq |].
  intros _ Hengine Hcodex. unfold getEngineType.
  rewrite Hengine, Hcodex, Heq. reflexivity.
Qed.

Lemma gemini_detection_agrees_witness :
  getEngineType (Obj [("type", Str "assistant");
                      ("geminiMetadata", Obj [("provider", Str "gemini")])])
  = Str "gemini".
Proof.
  refine (proj2 (gemini_detection_agrees
                   (Obj [("type", Str "assistant");
                         ("geminiMetadata", Obj [("provider", Str "gemini")])]))
            eq_refl eq_refl eq_refl).
Defined.

End KeyFacts.

(** ** Settling a history load *)

Section SubstringFacts.

Lemma prefix_append (t post : string) : String.prefix t (t +:+ post) = true.
Proof.
  induction t as [| c t IH]; [destruct post; reflexivity |].
  change (String c t +:+ post) with (String c (t +:+ post)). cbn.
  destruct (ascii_dec c c); [exact IH | contradiction].
Qed.

Lemma prefix_split (t s : string) :
  String.prefix t s = true -> exists post, s = t +:+ post.
Proof.
  revert s. induction t as [| c t IH]; intros s.
  - exists s. reflexivity.
  - destruct s as [| d s]; cbn; [discriminate |].
    destruct (ascii_dec c d) as [<- |]; [| discriminate].
    intros H. destruct (IH s H) as [post ->]. exists post. reflexivity.
Qed.

Lemma includes_here (s t : string) :
  String.prefix t s = true -> includes s t = true.
Proof. intros H. destruct s; cbn in *; rewrite H; reflexivity. Qed.

Lemma includes_append (pre t post : string) :
  includes (pre +:+ t +:+ post) t = true.
Proof.
  induction pre as [| c pre IH].
  - change ("" +:+ t +:+ post) with (t +:+ post).
    apply includes_here, prefix_append.
  - change (String c pre +:+ t +:+ post) with (String c (pre +:+ t +:+ post)).
    cbn [includes]. rewrite IH. apply orb_true_r.
Qed.

Lemma includes_split (s t : string) :
  includes s t = true -> exists pre post, s = pre +:+ t +:+ post.
Proof.
  induction s as [| c s IH]; cbn [includes].
  - rewrite orb_false_r. intros H. destruct (prefix_split _ _ H) as [post ->].
    exists "", post. reflexivity.
  - intros H. apply orb_true_iff in H as [H | H].
    + destruct (prefix_split _ _ H) as [post ->]. exists "", post. reflexivity.
    + destruct (IH H) as (pre & post & ->). exists (String c pre), post.
      reflexivity.
Qed.

Lemma append_assoc (a b c : string) : (a +:+ b) +:+ c = a +:+ (b +:+ c).
Proof.
  induction a as [| x a IH]; [reflexivity |].
  change (String x ((a +:+ b) +:+ c) = String x (a +:+ (b +:+ c))).
  rewrite IH. reflexivity.
Qed.

(** A string that includes [p +:+ q] includes [q]. *)
Lemma includes_suffix (s p q : string) :
  includes s (p +:+ q) = true -> includes s q = true.
Proof.
  intros H. destruct (includes_split _ _ H) as (pre & post & ->).
  rewrite (append_assoc p q post), <- (append_assoc pre p (q +:+ post)).
  apply includes_append.
Qed.

End SubstringFacts.

Section FieldFacts.

Lemma lookup_set_field_other (k k' : string) (v : value)
  (fs : list (string * value)) :
  k' <> k -> lookup_field k' (set_field k v fs) = lookup_field k' fs.
Proof.
  intros Hne. apply String.eqb_neq in Hne.
  induction fs as [| [k0 v0] fs IH]; cbn.
  - rewrite Hne. reflexivity.
  - destruct (String.eqb k k0) eqn:Hk; cbn.
    + apply String.eqb_eq in Hk. subst k0. rewrite Hne. reflexivity.
    + destruct (String.eqb k' k0); [reflexivity | exact IH].
Qed.

Lemma get_set_other (o : value) (k k' : string) (v : value) :
  k' <> k -> get (set o k v) k' = get o k'.
Proof.
  intros Hne. destruct o; cbn;
    try (apply String.eqb_neq in Hne; rewrite Hne; reflexivity).
  apply lookup_set_field_other. exact Hne.
Qed.

End FieldFacts.

Section LoadingExtras.

Import Lifecycle LifecycleViews.

Variable Number_of_string : string -> number.
Variable JSON_stringify : value -> string.
Variable String_of : value -> string.
Variable normalizeUsageData : value -> value.
Variable CodexState : Type.
Variable codex_reset : CodexState.
Variable convertEventObject : CodexState -> value -> CodexState * value.
Variable getRateLimits : CodexState -> value.

Abbreviation StateL := (HookState CodexState).
Abbreviation settleL :=
  (loadSettle Number_of_string JSON_stringify String_of normalizeUsageData
     CodexState codex_reset convertEventObject getRateLimits).
Abbreviation fetchedL :=
  (fetchedHistory Number_of_string JSON_stringify CodexState codex_reset
     convertEventObject getRateLimits).
Abbreviation processedL :=
  (processedMessagesOf String_of normalizeUsageData).
Abbreviation processL := (processMessage String_of normalizeUsageData).
Abbreviation retypeL := (retypeSlashCommand String_of).
Abbreviation textL := (textContentOf String_of).
Abbreviation rawL :=
  (fun h => JSON_stringify (entryAfterProcessing normalizeUsageData h)).

(** The fetch step leaves everything but the converter and the rate
    limits alone, and the history it yields does not depend on the
    state it runs in. *)
Lemma fetched_frame (cfg : Config) (s : Session) (payload : value)
  (st : StateL) :
  let st1 := snd (fetchedL cfg s payload st) in
  loadingSessionIdRef _ st1 = loadingSessionIdRef _ st
  /\ isMounted _ st1 = isMounted _ st
  /\ published st1 = published st
  /\ sessionNotFoundCalls _ st1 = sessionNotFoundCalls _ st
  /\ forall st0, fst (fetchedL cfg s payload st0) = fst (fetchedL cfg s payload st).
Proof.
  cbv zeta. unfold fetchedHistory.
  destruct (is_str (engine s) "gemini"); [cbn; auto 6 |].
  destruct (is_str (engine s) "codex"); [| cbn; auto 6].
  destruct (fold_left _ _ _) as [cs converted]. cbn. auto 6.
Qed.

(** The completion of a superseded request, or of any request after the
    component is gone, shows nothing. *)
Lemma discarded_settle_frame (cfg : Config) (s : Session) (outcome : Outcome)
  (st : StateL) :
  superseded _ s st = true \/ isMounted _ st = false ->
  let st' := settleL cfg s outcome st in
  loadingSessionIdRef _ st' = loadingSessionIdRef _ st
  /\ isMounted _ st' = isMounted _ st
  /\ published st' = published st
  /\ sessionNotFoundCalls _ st' = sessionNotFoundCalls _ st.
Proof.
  intros Hdrop. cbv zeta. destruct outcome as [payload | errorMessage].
  - unfold loadSettle.
    destruct (fetched_frame cfg s payload st) as (Href & Hm & Hpub & Hcalls & _).
    destruct (fetchedHistory _ _ _ _ _ _ cfg s payload st) as [history st1].
    cbn [snd] in *.
    assert (Hdrop1 : superseded _ s st1 = true \/ isMounted _ st1 = false).
    { unfold superseded in *. rewrite Href, Hm. exact Hdrop. }
    destruct (superseded _ s st1); [auto |].
    destruct Hdrop1 as [? | Hgone]; [discriminate |].
    rewrite Hgone. cbn. auto.
  - cbn. destruct (superseded _ s st); [auto |].
    destruct Hdrop as [? | Hgone]; [discriminate |].
    rewrite Hgone. cbn. auto.
Qed.

(** The completion of the latest request, while the component is
    mounted. *)
Lemma applied_settle (cfg : Config) (s : Session) (payload : value)
  (st : StateL) :
  superseded _ s st = false -> isMounted _ st = true ->
  let history := fst (fetchedL cfg s payload st) in
  let st' := settleL cfg s (Fulfilled payload) st in
  published st'
  = (processedL history, map rawL history, false, error _ st)
  /\ loadingSessionIdRef _ st' = loadingSessionIdRef _ st
  /\ isMounted _ st' = true.
Proof.
  intros Hsup Hmounted. cbv zeta. unfold loadSettle.
  destruct (fetched_frame cfg s payload st) as (Href & Hm & Hpub & _ & _).
  destruct (fetchedHistory _ _ _ _ _ _ cfg s payload st) as [history st1].
  cbn [fst snd] in *.
  unfold superseded in Hsup |- *. rewrite Href, Hsup, Hm, Hmounted. cbn.
  unfold published in *. cbn. injection Hpub as _ _ _ Herr.
  rewrite Herr. auto.
Qed.

(** X20. The messages shown are free of the race: when history is
    requested for one session and then for another, and the second
    request succeeds, the messages, raw log, loading flag and error shown
    once both have settled are those of the second session - whatever the
    first request's outcome, and whichever of the two settles first.  (The
    Codex rate limits and the converter are not part of what is compared.) *)
Theorem latest_load_wins (cfg : Config) (a b : Session) (outcomeA : Outcome)
  (payloadB : value) (st : StateL) :
  id a <> id b -> isMounted _ st = true ->
  let requested := loadStart _ (Some b) (loadStart _ (Some a) st) in
  let history := fst (fetchedL cfg b payloadB st) in
  let shown := (processedL history, map rawL history, false, None) in
  published (settleL cfg b (Fulfilled payloadB) (settleL cfg a outcomeA requested))
  = shown
  /\ published (settleL cfg a outcomeA (settleL cfg b (Fulfilled payloadB) requested))
     = shown.
Proof.
  intros Hne Hmounted. cbv zeta.
  set (requested := loadStart _ (Some b) (loadStart _ (Some a) st)).
  assert (Hsa : superseded _ a requested = true).
  { unfold requested, superseded. cbn.
    destruct (String.eqb_spec (id b) (id a)); [congruence | reflexivity]. }
  assert (Hsb : superseded _ b requested = false).
  { unfold requested, superseded. cbn. apply negb_false_iff, String.eqb_refl. }
  assert (Hm : isMounted _ requested = true) by exact Hmounted.
  split.
  - destruct (discarded_settle_frame cfg a outcomeA requested (or_introl Hsa))
      as (Href & Hm' & Hpub & _).
    set (stA := settleL cfg a outcomeA requested) in *.
    assert (Hsb' : superseded _ b stA = false).
    { unfold superseded in *. rewrite Href. exact Hsb. }
    rewrite Hm in Hm'.
    destruct (applied_settle cfg b payloadB stA Hsb' Hm') as [Happ _].
    rewrite Happ.
    destruct (fetched_frame cfg b payloadB st) as (_ & _ & _ & _ & Hind).
    rewrite (Hind stA).
    unfold published in Hpub. injection Hpub as _ _ _ HerrA.
    rewrite HerrA. reflexivity.
  - destruct (applied_settle cfg b payloadB requested Hsb Hm)
      as (Happ & Href & Hm').
    set (stB := settleL cfg b (Fulfilled payloadB) requested) in *.
    assert (Hsa' : superseded _ a stB = true).
    { unfold superseded in *. rewrite Href. exact Hsa. }
    destruct (discarded_settle_frame cfg a outcomeA stB (or_introl Hsa'))
      as (_ & _ & Hpub & _).
    rewrite Hpub, Happ.
    destruct (fetched_frame cfg b payloadB st) as (_ & _ & _ & _ & Hind).
    rewrite (Hind requested). reflexivity.
Qed.

Lemma normalized_type (msg : value) :
  get (normalizeCodexUsage normalizeUsageData
         (normalizeTopUsage normalizeUsageData
            (normalizeMessageUsage normalizeUsageData msg))) "type"
  = get msg "type".
Proof.
  unfold normalizeCodexUsage, normalizeTopUsage, normalizeMessageUsage.
  repeat match goal with
         | |- context [if ?c then _ else _] => destruct c
         end;
    repeat (rewrite get_set_other by discriminate); reflexivity.
Qed.

(** A retyped message was a user message carrying a marker and is now a
    system message with one of three subtypes; any other message is
    returned as it is. *)
Lemma retype_cases (msg : value) :
  (retypeL msg = msg
   /\ (is_str (get msg "type") "user" = true ->
       forall marker, In marker commandMarkers ->
                      includes (textL msg) marker = false))
  \/ (is_str (get msg "type") "user" = true
      /\ get (retypeL msg) "type" = Str "system"
      /\ In (get (retypeL msg) "subtype")
           [Str "command-output"; Str "command-error"; Str "command-meta"]).
Proof.
  unfold retypeSlashCommand.
  destruct (is_str (get msg "type") "user") eqn:Huser;
    [| left; split; [reflexivity | discriminate]].
  destruct (includes (textL msg) "<local-command-stdout>") eqn:Hout.
  { right. cbn [orb]. rewrite get_set_other, !get_set_same by discriminate.
    split; [reflexivity | split; [reflexivity |]].
    first [left; reflexivity | right; left; reflexivity
          | right; right; left; reflexivity]. }
  destruct (includes (textL msg) "Unknown slash command:") eqn:Herr.
  { right. rewrite orb_true_r.
    rewrite get_set_other, !get_set_same by discriminate.
    split; [reflexivity | split; [reflexivity |]].
    first [left; reflexivity | right; left; reflexivity
          | right; right; left; reflexivity]. }
  destruct (includes (textL msg) "<command-name>") eqn:Hname.
  { right. cbn [orb]. rewrite get_set_other, !get_set_same by discriminate.
    split; [reflexivity | split; [reflexivity |]].
    first [left; reflexivity | right; left; reflexivity
          | right; right; left; reflexivity]. }
  destruct (includes (textL msg) "<command-message>") eqn:Hmsg.
  { right. cbn [orb]. rewrite get_set_other, !get_set_same by discriminate.
    split; [reflexivity | split; [reflexivity |]].
    first [left; reflexivity | right; left; reflexivity
          | right; right; left; reflexivity]. }
  left. cbn [orb]. split; [reflexivity |].
  intros _ marker Hin. unfold commandMarkers in Hin. cbn in Hin.
  destruct Hin as [<- | [<- | [<- | [<- | []]]]]; assumption.
Qed.

Lemma processed_type (msg : value) :
  isValidType (get msg "type") = true ->
  isValidType (get (processL msg) "type") = true.
Proof.
  intros Hvalid. unfold processMessage.
  set (n := normalizeCodexUsage _ _).
  assert (Hn : get n "type" = get msg "type") by apply normalized_type.
  destruct (retype_cases n) as [[-> _] | (_ & -> & _)].
  - rewrite Hn. exact Hvalid.
  - reflexivity.
Qed.

Lemma loaded_type (history : list value) (m : value) :
  In m (loadedMessagesOf history) -> isValidType (get m "type") = true.
Proof.
  intros Hin. unfold loadedMessagesOf in Hin.
  apply in_map_iff in Hin as (entry & <- & Hin).
  apply List.filter_In in Hin as [_ Hkeep].
  unfold withType. rewrite get_set_same. unfold or_else.
  unfold keepEntry in Hkeep.
  destruct (truthy (get entry "type")); [| reflexivity].
  destruct (isValidType (get entry "type")); [reflexivity | discriminate].
Qed.

(** X21. What an applied load publishes.  When the latest request
    succeeds while the component is mounted, every message it publishes
    has one of the seven valid kinds, there is one message per kept
    history entry and one raw line per history entry, loading ends and
    the error is left as it was. *)
Theorem applied_load_is_typed (cfg : Config) (s : Session) (payload : value)
  (st : StateL) :
  superseded _ s st = false -> isMounted _ st = true ->
  let history := fst (fetchedL cfg s payload st) in
  let st' := settleL cfg s (Fulfilled payload) st in
  Forall (fun m => exists k, get m "type" = Str k /\ In k validTypes)
    (messages _ st')
  /\ length (messages _ st') = length (List.filter keepEntry history)
  /\ length (rawJsonlOutput _ st') = length history
  /\ isLoading _ st' = false
  /\ error _ st' = error _ st.
Proof.
  intros Hsup Hmounted. cbv zeta.
  destruct (applied_settle cfg s payload st Hsup Hmounted) as [Happ _].
  set (st' := settleL cfg s (Fulfilled payload) st) in *.
  unfold published in Happ. injection Happ as Hmsgs Hraw Hload Herr.
  rewrite Hmsgs, Hraw, Hload, Herr.
  split; [| split; [| split; [| split]]]; try reflexivity.
  - apply List.Forall_forall. intros m Hin. apply isValidType_spec.
    unfold processedMessagesOf in Hin.
    apply in_map_iff in Hin as (l & <- & Hin).
    apply processed_type. exact (loaded_type _ _ Hin).
  - unfold processedMessagesOf, loadedMessagesOf. rewrite !length_map.
    reflexivity.
  - apply length_map.
Qed.

(** X22. A failed load is classified by the substring [not found] alone:
    the two longer patterns add nothing.  For the latest request, with
    the component mounted, a failure whose text includes [not found]
    ends loading, raises no error and notifies the parent once when the
    callback is given; any other failure ends loading and raises the
    load error.  Neither touches the messages or the raw log. *)
Theorem failed_load_classified (cfg : Config) (s : Session)
  (errorMessage : string) (st : StateL) :
  superseded _ s st = false -> isMounted _ st = true ->
  let st' := settleL cfg s (Rejected errorMessage) st in
  isSessionNotFound errorMessage = includes errorMessage "not found"
  /\ isLoading _ st' = false
  /\ messages _ st' = messages _ st
  /\ rawJsonlOutput _ st' = rawJsonlOutput _ st
  /\ (if includes errorMessage "not found"
      then error _ st' = error _ st
           /\ sessionNotFoundCalls _ st'
              = if hasOnSessionNotFound cfg then S (sessionNotFoundCalls _ st)
                else sessionNotFoundCalls _ st
      else error _ st' = Some "加载会话历史记录失败"
           /\ sessionNotFoundCalls _ st' = sessionNotFoundCalls _ st).
Proof.
  intros Hsup Hmounted. cbv zeta.
  assert (Hclass : isSessionNotFound errorMessage
                   = includes errorMessage "not found").
  { unfold isSessionNotFound.
    destruct (includes errorMessage "not found") eqn:Hnf.
    - rewrite orb_true_r. reflexivity.
    - destruct (includes errorMessage "Session file not found") eqn:H1.
      { rewrite (includes_suffix errorMessage "Session file " "not found" H1)
          in Hnf. discriminate. }
      destruct (includes errorMessage "Session ID not found") eqn:H2.
      { rewrite (includes_suffix errorMessage "Session ID " "not found" H2)
          in Hnf. discriminate. }
      reflexivity. }
  split; [exact Hclass |].
  cbn [loadSettle]. rewrite Hsup, Hmounted, Hclass. cbn [negb].
  destruct (includes errorMessage "not found"); cbn; auto.
Qed.

(** X23. No message published as a user message carries slash-command
    traffic: in the processed sequence, the text of a message of kind
    [user] includes none of the four markers - a message that does is
    published as a [system] message. *)
Theorem user_messages_carry_no_markers (history : list value) (m : value)
  (marker : string) :
  In m (processedL history) ->
  is_str (get m "type") "user" = true ->
  In marker commandMarkers ->
  includes (textL m) marker = false.
Proof.
  intros Hin Huser Hmarker. unfold processedMessagesOf in Hin.
  apply in_map_iff in Hin as (l & <- & _). unfold processMessage in Huser |- *.
  set (n := normalizeCodexUsage _ _) in Huser |- *.
  destruct (retype_cases n) as [[Heq Hnone] | (_ & Hsys & _)].
  - rewrite Heq in Huser |- *. exact (Hnone Huser marker Hmarker).
  - rewrite Hsys in Huser. discriminate.
Qed.

End LoadingExtras.

(** ** The Task detectors *)

Section TaskDetectorFacts.

Import Grouping.

Lemma fold_details (items : list value) (acc : gmap string value) (id : string) :
  let details :=
    fold_left
      (fun details item =>
         match truthyId item with
         | Some id => <[id := get (get item "input") "subagent_type"]> details
         | None => details
         end) items acc in
  (is_Some (details !! id)
   <-> is_Some (acc !! id) \/ In id (omap truthyId items))
  /\ (forall v, details !! id = Some v ->
                acc !! id = Some v
                \/ exists item, In item items /\ truthyId item = Some id
                                /\ v = get (get item "input") "subagent_type").
Proof.
  cbv zeta. revert acc.
  induction items as [| item items IH]; intros acc; cbn.
  - split; [| auto]. split; [auto | intros [H | []]; exact H].
  - destruct (truthyId item) as [id' |] eqn:Hid.
    + destruct (IH (<[id' := get (get item "input") "subagent_type"]> acc))
        as [Hdom Hval].
      split.
      * rewrite Hdom, lookup_insert_is_Some. cbn [In].
        destruct (decide (id' = id)); tauto.
      * intros v Hv. destruct (Hval v Hv) as [Hacc | (it & Hin & Hit & Heq)].
        -- apply lookup_insert_Some in Hacc as [[<- <-] | [_ Hacc]].
           ++ right. exists item. cbn. auto.
           ++ left. exact Hacc.
        -- right. exists it. cbn. auto.
    + destruct (IH acc) as [Hdom Hval]. split; [exact Hdom |].
      intros v Hv. destruct (Hval v Hv) as [Hacc | (it & Hin & Hit & Heq)];
        [left; exact Hacc | right; exists it; cbn; auto].
Qed.

(** X25. The two Task extractors agree: the details map of a message has
    an entry exactly for the ids [extractTaskToolUseIds] returns, the
    entry of an id is the [subagent_type] of a Task call of the message
    issued under that id, and a message for which [hasTaskToolCall] is
    false has neither ids nor details. *)
Theorem task_details_match_ids (message : ClaudeStreamMessage) :
  (forall id,
      is_Some (extractTaskToolDetails message !! id)
      <-> In id (extractTaskToolUseIds message))
  /\ (forall id v,
        extractTaskToolDetails message !! id = Some v ->
        exists item,
          In item (contentItems message) /\ isTaskItem item = true
          /\ get item "id" = Str id
          /\ v = get (get item "input") "subagent_type")
  /\ (hasTaskToolCall message = false ->
      extractTaskToolUseIds message = []
      /\ extractTaskToolDetails message = ∅).
Proof.
  unfold extractTaskToolDetails, extractTaskToolUseIds.
  destruct (hasTaskToolCall message); cbn [negb].
  - split; [| split; [| discriminate]].
    + intros id.
      destruct (fold_details (List.filter isTaskItem (contentItems message))
                  ∅ id) as [Hdom _].
      rewrite Hdom, lookup_empty. split; [intros [[v Hv] | H] | auto].
      * discriminate.
      * exact H.
    + intros id v Hv.
      destruct (fold_details (List.filter isTaskItem (contentItems message))
                  ∅ id) as [_ Hval].
      destruct (Hval v Hv) as [Hacc | (item & Hin & Hid & Heq)].
      * rewrite lookup_empty in Hacc. discriminate.
      * apply List.filter_In in Hin as [Hin Htask].
        exists item. split; [exact Hin |]. split; [exact Htask |].
        split; [| exact Heq].
        unfold truthyId in Hid. destruct (get item "id"); try discriminate.
        destruct (String.eqb s ""); [discriminate |]. congruence.
  - split; [| split; [| auto]].
    + intros id. rewrite lookup_empty. split; [intros [v Hv]; discriminate |].
      intros [].
    + intros id v Hv. rewrite lookup_empty in Hv. discriminate.
Qed.

Lemma task_details_match_ids_witness :
  is_Some (extractTaskToolDetails Scenarios.spawnTwo !! "t2").
Proof.
  apply (proj1 (task_details_match_ids Scenarios.spawnTwo)).
  vm_compute. right. left. reflexivity.
Defined.

End TaskDetectorFacts.

(** ** Event timestamps *)

Section TimestampFacts.

Import Billing.

Variable extract : value -> StandardizedTokenUsage.
Variable Cost : Type.
Variable cost_zero : Cost.
Variable cost_add : Cost -> Cost -> Cost.
Variable calculateMessageCost :
  StandardizedTokenUsage -> string -> value -> Cost.
Variable Date_parse : string -> option Z.

Lemma firstParsed_spec (candidates : list value) :
  match firstParsed Date_parse candidates with
  | (Some ts, Some ms) =>
      Date_parse ts = Some ms /\ nonblank ts = true
      /\ exists pre post,
           candidates = pre ++ Str ts :: post
           /\ forall c t, In c pre -> nonblankString c = Some t ->
                          Date_parse t = None
  | (None, None) =>
      forall c t, In c candidates -> nonblankString c = Some t ->
                  Date_parse t = None
  | _ => False
  end.
Proof.
  induction candidates as [| c rest IH]; cbn [firstParsed].
  - intros c t [].
  - destruct (nonblankString c) as [s |] eqn:Hc.
    + destruct (nonblankString_Some _ _ Hc) as [-> Hnb].
      destruct (Date_parse s) as [ms |] eqn:Hparse.
      * split; [exact Hparse |]. split; [exact Hnb |].
        exists [], rest. split; [reflexivity |]. intros c t [].
      * destruct (firstParsed Date_parse rest) as [[ts |] [ms |]];
          try contradiction.
        -- destruct IH as (Hp & Hnb' & pre & post & -> & Hpre).
           split; [exact Hp |]. split; [exact Hnb' |].
           exists (Str s :: pre), post. split; [reflexivity |].
           intros c t [<- | Hin] Ht; [| exact (Hpre c t Hin Ht)].
           rewrite Hc in Ht. injection Ht as <-. exact Hparse.
        -- intros c t [<- | Hin] Ht; [| exact (IH c t Hin Ht)].
           rewrite Hc in Ht. injection Ht as <-. exact Hparse.
    + destruct (firstParsed Date_parse rest) as [[ts |] [ms |]];
        try contradiction.
      * destruct IH as (Hp & Hnb' & pre & post & -> & Hpre).
        split; [exact Hp |]. split; [exact Hnb' |].
        exists (c :: pre), post. split; [reflexivity |].
        intros c' t [<- | Hin] Ht; [congruence | exact (Hpre c' t Hin Ht)].
      * intros c' t [<- | Hin] Ht; [congruence | exact (IH c' t Hin Ht)].
Qed.

(** X26. The timestamp of an event.  An event of the ledger has a
    timestamp string and its milliseconds together or neither; when it
    has them, the string is non-blank, the milliseconds are its parse,
    and it is the first of the message's four timestamp fields
    ([timestamp], [receivedAt], [sentAt], [message.timestamp]) that is a
    non-blank string which parses; when it has none, no field is. *)
Theorem event_timestamp_parsed (messages : list value)
  (e : BillingEvent Cost) :
  In e (events Cost
          (aggregateSessionCost extract Cost cost_zero cost_add
             calculateMessageCost Date_parse messages)) ->
  let candidates :=
    [get (message Cost e) "timestamp"; get (message Cost e) "receivedAt";
     get (message Cost e) "sentAt";
     get (get (message Cost e) "message") "timestamp"] in
  match timestamp Cost e, timestampMs Cost e with
  | Some ts, Some ms =>
      Date_parse ts = Some ms /\ nonblank ts = true
      /\ exists pre post,
           candidates = pre ++ Str ts :: post
           /\ forall c t, In c pre -> nonblankString c = Some t ->
                          Date_parse t = None
  | None, None =>
      forall c t, In c candidates -> nonblankString c = Some t ->
                  Date_parse t = None
  | _, _ => False
  end.
Proof.
  intros Hin.
  apply (Permutation_in _ (events_perm extract Cost cost_zero cost_add
                             calculateMessageCost Date_parse messages)) in Hin.
  apply in_map_iff in Hin as ([k s] & <- & Hin).
  destruct (scanAll_invariant extract Cost calculateMessageCost Date_parse
              messages) as [_ Hsound _].
  destruct (Hsound k s Hin) as (i & msg & _ & _ & -> & _).
  cbv zeta. cbn [snd timestamp timestampMs message candidateEvent].
  pose proof (firstParsed_spec
                [get msg "timestamp"; get msg "receivedAt"; get msg "sentAt";
                 get (get msg "message") "timestamp"]) as Hspec.
  unfold extractTimestamp.
  destruct (firstParsed Date_parse _) as [[ts |] [ms |]]; exact Hspec.
Qed.

End TimestampFacts.

(** ** A converted Gemini session downstream *)

Section ConvertedPipelineFacts.

Import Gemini GeminiViews Lifecycle Billing PipelineViews.

Variable Number_of_string : string -> number.
Variable JSON_stringify : value -> string.

Abbreviation convertTurnP := (convertTurn Number_of_string JSON_stringify).
Abbreviation convertP :=
  (convertGeminiSessionDetailToClaudeMessages Number_of_string JSON_stringify).

Lemma convertTurn_passes (converted : list value) (msg : value) :
  Forall passesThrough converted ->
  Forall passesThrough (convertTurnP converted msg).
Proof.
  intros Hold. destruct (is_str (get msg "type") "user") eqn:Hkind.
  - unfold convertTurn. rewrite Hkind. apply Forall_app. split; [exact Hold |].
    repeat constructor.
  - rewrite (convertTurn_model Number_of_string JSON_stringify converted msg
               Hkind).
    apply Forall_app. split; [exact Hold |].
    apply Forall_app. split.
    + apply List.Forall_forall. intros m Hm.
      apply in_map_iff in Hm as (c & <- & _). repeat constructor.
    + constructor; [repeat constructor |].
      destruct (extractGeminiUsage Number_of_string (get msg "tokens"));
        repeat constructor.
Qed.

Lemma convert_passes (detail : value) :
  Forall passesThrough (convertP detail).
Proof.
  unfold convertGeminiSessionDetailToClaudeMessages.
  destruct (get detail "messages") as [| | | | | turns |]; try constructor.
  assert (H : forall converted,
             Forall passesThrough converted ->
             Forall passesThrough (fold_left convertTurnP turns converted)).
  { induction turns as [| t ts IH]; intros converted Hc; cbn [fold_left].
    - exact Hc.
    - apply IH. apply convertTurn_passes. exact Hc. }
  exact (H [] (List.Forall_nil _)).
Qed.

(** X24. The converter's output goes through the rest of the pipeline
    unharmed.  The history loader keeps every converted message and
    changes none of them, so the loaded sequence is the converted one;
    and the billing pass takes every converted message for a Gemini
    message and considers exactly the per-turn [result] messages, never
    the user, tool-result or assistant messages. *)
Theorem converted_session_downstream (detail : value) :
  loadedMessagesOf (convertP detail) = convertP detail
  /\ List.filter isBillable (convertP detail)
     = List.filter (fun m => is_str (get m "type") "result") (convertP detail)
  /\ Forall (fun m => getEngineType m = Str "gemini") (convertP detail).
Proof.
  pose proof (convert_passes detail) as Hall.
  induction Hall as [| m ms (Hkeep & Htype & Hengine & Hbill) _ IH].
  - repeat constructor.
  - destruct IH as (IHload & IHbill & IHengine).
    unfold loadedMessagesOf in *. cbn [List.filter map].
    rewrite Hkeep, Hbill. cbn [map]. rewrite Htype, IHload, IHbill.
    split; [reflexivity |]. split; [reflexivity |].
    constructor; assumption.
Qed.

End ConvertedPipelineFacts.

(** ** The properties above on the scenarios *)

Section GroupingNodeScenarios.

Import Grouping Shapes Scenarios.

(** A thinking message followed by a spawning message: two neighbouring
    aggregates, the first of which holds the message of index 0. *)
Lemma groupMessages_nodes_in_place_witness :
  exists ty m rest,
    [thinkingWithText] = m :: rest
    /\ [thinkingWithText; spawnOne] !! 0%nat = Some m
    /\ uniformRun ty [thinkingWithText].
Proof.
  apply (proj2 (groupMessages_nodes_in_place [thinkingWithText; spawnOne])
           [thinkingWithText] 0%nat).
  vm_compute. left. reflexivity.
Defined.

Lemma adjacent_aggregates_differ_witness :
  exists ty1 ty2,
    uniformRun ty1 [thinkingWithText] /\ uniformRun ty2 [spawnOne]
    /\ ty1 <> ty2.
Proof.
  apply (adjacent_aggregates_differ [thinkingWithText; spawnOne] [] []
           [thinkingWithText] [spawnOne] 0%nat 1%nat).
  vm_compute. reflexivity.
Defined.

End GroupingNodeScenarios.

Section LedgerExtraScenarios.

Import Billing BillingViews Scenarios.

(** The event of the turn [msg_4] in the ledger of [billedTurns]. *)
Lemma events_are_billable_witness :
  let e := candidateEvent usageTokens Z unitCost parseMillis
             (assistantTurn "msg_4" 4 4 (Str "1000")) 4 in
  billedTurns !! order Z e = Some (message Z e)
  /\ isBillable (message Z e) = true
  /\ totalTokenCount Z e <> 0.
Proof.
  cbv zeta.
  destruct (events_are_billable usageTokens Z 0 Z.add unitCost parseMillis
              billedTurns
              (candidateEvent usageTokens Z unitCost parseMillis
                 (assistantTurn "msg_4" 4 4 (Str "1000")) 4))
    as (Hat & Hbill & _ & _ & Hnz & _).
  - vm_compute. left. reflexivity.
  - split; [exact Hat |]. split; [exact Hbill | exact Hnz].
Defined.

Lemma time_span_brackets_witness :
  exists e,
    In e (events Z (aggregateSessionCost usageTokens Z 0 Z.add unitCost
                      parseMillis billedTurns))
    /\ timestampMs Z e = Some 1000.
Proof.
  exact (proj1 (time_span_brackets usageTokens Z 0 Z.add unitCost
                  parseMillis billedTurns)).
Defined.

(** The timestamp of that event. *)
Lemma event_timestamp_parsed_witness :
  parseMillis "1000" = Some 1000 /\ nonblank "1000" = true.
Proof.
  refine (let H := event_timestamp_parsed usageTokens Z 0 Z.add unitCost
                     parseMillis billedTurns
                     (candidateEvent usageTokens Z unitCost parseMillis
                        (assistantTurn "msg_4" 4 4 (Str "1000")) 4) _ in
          conj (proj1 H) (proj1 (proj2 H))).
  vm_compute. left. reflexivity.
Defined.

(** A user record and a summary record after the billed turns. *)
Lemma append_unbilled_witness :
  aggregateSessionCost usageTokens Z 0 Z.add unitCost parseMillis
    (billedTurns ++ [userRecord; summaryRecord])
  = aggregateSessionCost usageTokens Z 0 Z.add unitCost parseMillis billedTurns.
Proof.
  apply (append_unbilled usageTokens Z 0 Z.add unitCost parseMillis billedTurns
           [userRecord; summaryRecord]).
  repeat constructor.
Defined.

End LedgerExtraScenarios.

Section LoadingScenarios.

Import Lifecycle LifecycleViews Scenarios.

(** History is requested for the Codex session A, then for session B;
    whichever order the two fetches resolve in, what is shown is B's. *)
Lemma latest_load_wins_witness :
  let settle :=
    loadSettle Number_of_digits stringifyKind stringifyKind (fun usage => usage)
      value Null lastRateLimits (fun st => st) bothCallbacks in
  let requested : HookState value :=
    loadStart value (Some sessionB) (loadStart value (Some sessionA) atRest) in
  let shown :=
    ([Obj [("type", Str "user"); ("message", Obj [("content", Str "from B")])]],
     ["{}"], false, None) in
  published (settle sessionB (Fulfilled historyB)
               (settle sessionA (Fulfilled historyA) requested)) = shown
  /\ published (settle sessionA (Fulfilled historyA)
                  (settle sessionB (Fulfilled historyB) requested)) = shown.
Proof.
  apply (latest_load_wins Number_of_digits stringifyKind stringifyKind
           (fun usage => usage) value Null lastRateLimits (fun st => st)
           bothCallbacks sessionA sessionB (Fulfilled historyA) historyB atRest).
  - discriminate.
  - reflexivity.
Defined.

(** A history of a queue record, a user record and a record without a
    kind, loaded for session B. *)
Lemma applied_load_is_typed_witness :
  let st' :=
    loadSettle Number_of_digits stringifyKind stringifyKind (fun usage => usage)
      value Null lastRateLimits (fun st => st) bothCallbacks sessionB
      (Fulfilled (Arr [queueRecord; userRecord; untypedRecord]))
      (loadStart value (Some sessionB) atRest) in
  Forall (fun m => exists k, get m "type" = Str k /\ In k validTypes)
    (messages _ st')
  /\ length (messages _ st') = 2%nat
  /\ length (rawJsonlOutput _ st') = 3%nat
  /\ isLoading _ st' = false
  /\ error _ st' = None.
Proof.
  apply (applied_load_is_typed Number_of_digits stringifyKind stringifyKind
           (fun usage => usage) value Null lastRateLimits (fun st => st)
           bothCallbacks sessionB
           (Arr [queueRecord; userRecord; untypedRecord])
           (loadStart value (Some sessionB) atRest)).
  - reflexivity.
  - reflexivity.
Defined.

(** A failure that has nothing to do with a session file. *)
Lemma failed_load_classified_witness :
  let st' :=
    loadSettle Number_of_digits stringifyKind stringifyKind (fun usage => usage)
      value Null lastRateLimits (fun st => st) bothCallbacks sessionB
      (Rejected "claude: command not found")
      (loadStart value (Some sessionB) atRest) in
  error _ st' = None /\ sessionNotFoundCalls _ st' = 1%nat.
Proof.
  cbv zeta.
  destruct (failed_load_classified Number_of_digits stringifyKind stringifyKind
              (fun usage => usage) value Null lastRateLimits (fun st => st)
              bothCallbacks sessionB "claude: command not found"
              (loadStart value (Some sessionB) atRest))
    as (_ & _ & _ & _ & Hsilent).
  - reflexivity.
  - reflexivity.
  - exact Hsilent.
Defined.

Lemma user_messages_carry_no_markers_witness :
  includes (textContentOf stringifyKind userRecord) "<command-name>" = false.
Proof.
  apply (user_messages_carry_no_markers stringifyKind (fun usage => usage)
           [userRecord] userRecord "<command-name>").
  - left. reflexivity.
  - reflexivity.
  - right. left. reflexivity.
Defined.

End LoadingScenarios.
